(** * bulk_fhir_fetch: the export-job orchestrator

    A shallow embedding of [cmd/bulk_fhir_fetch/bulk_fhir_fetch.go]:
    [main], [buildMainWrapperConfig], [mainWrapper], [getDataOrExit],
    [getBulkFHIRClient] and [getTransactionTimeStore].  The packages the program calls
    ([bulkfhir], [bcda], [processing]) are interfaces here: every call
    into them is answered by the environment, which owns a state of type
    [World], and is recorded with its result in the trace of the run. *)

From Stdlib Require Import ZArith NArith List Bool Lia Sorted.
From Stdlib.Strings Require Import Byte Ascii.
From stdpp Require Import base option list gmap strings.
Import ListNotations.

Local Open Scope string_scope.
Local Open Scope list_scope.
Local Open Scope Z_scope.

(** ** Values *)

(** [cms.ResourceType] is a string type. *)
Definition ResourceType := string.

(** [time.Time], as an instant on an integer time line. *)
Definition Time := Z.

(** [time.Duration] counts nanoseconds. *)
Definition Duration := Z.
Definition Second : Duration := 1000000000.
Definition Hour : Duration := 3600 * Second.

Module errors.

(** Go [error] values.  The leaves are the sentinels the program compares
    against or returns, and [errorString] for any other error, known by
    its text.  [fmt.Errorf] gives [wrapError] when its format ends in
    [%w] (the new error unwraps to [err]) and [fmtError] when it ends in
    [%v] (same text, nothing to unwrap); [msg] is the formatted text
    before that last verb. *)
Inductive error : Type :=
| ErrorUnauthorized             (* bulkfhir.ErrorUnauthorized *)
| ErrorRetryableHTTPStatus      (* bulkfhir.ErrorRetryableHTTPStatus *)
| ErrTooLong                    (* bufio.ErrTooLong *)
| errInvalidSince
| errMustRectifyForFHIRStore
| errMustSpecifyGCSBucket
| errorString (s : string)
| wrapError (msg : string) (err : error)
| fmtError (msg : string) (arg : error).

Definition error_eq_dec (a b : error) : {a = b} + {a <> b}.
Proof. decide equality; apply String.string_dec. Defined.

#[export] Instance error_eqdec : EqDecision error := error_eq_dec.

(** [errors.New] *)
Definition New (s : string) : error := errorString s.

(** [errors.Is(err, target)] for a non-nil [err]: [err] or an error on
    its [Unwrap] chain equals [target]. *)
Fixpoint Is' (err target : error) : bool :=
  if error_eq_dec err target then true
  else match err with
       | wrapError _ inner => Is' inner target
       | _ => false
       end.

(** [errors.Is] on a possibly nil [err]. *)
Definition Is (err : option error) (target : error) : bool :=
  match err with
  | Some e => Is' e target
  | None => false
  end.

End errors.
Export errors.

(** A Go result pair [(v, err)]: the value when [err] is nil. *)
Inductive result (A : Type) : Type :=
| Ok (a : A)
| Err (e : error).
Arguments Ok {A} a.
Arguments Err {A} e.

Definition errOf {A} (r : result A) : option error :=
  match r with
  | Ok _ => None
  | Err e => Some e
  end.

(** [bulkfhir.JobStatus] and [bulkfhir.MonitorResult]. *)
Record JobStatus := {
  IsComplete : bool;
  ResultURLs : gmap ResourceType (list string);
  PercentComplete : Z;
  TransactionTime : Time
}.

Record MonitorResult := {
  Status : JobStatus;
  Error : option error
}.

(** The [io.ReadCloser] a download returns: the bytes its reads deliver,
    and the error of the read that ends them ([None] for [io.EOF]).  That
    last read delivers no byte of its own. *)
Record ReadCloser := {
  body : list byte;
  readErr : option error
}.

(** The one [*bulkfhir.TransactionTime] of a run; its content is in the
    run's state (see [St]). *)
Inductive TransactionTimePtr := transactionTimePtr.

Module FHIRStoreSinkConfig.
(** [processing.FHIRStoreSinkConfig], the fields the program fills. *)
Record t := {
  FHIRStoreEndpoint : string;
  FHIRStoreID : string;
  FHIRProjectID : string;
  FHIRDatasetID : string;
  FHIRLocation : string;
  NoFailOnUploadErrors : bool;
  UseGCSUpload : bool;
  BatchUpload : bool;
  BatchSize : Z;
  MaxWorkers : Z;
  ErrorFileOutputPath : string;
  GCSEndpoint : string;
  GCSBucket : string;
  GCSImportJobTimeout : Duration;
  GCSImportJobPeriod : Duration;
  TransactionTime : TransactionTimePtr
}.
End FHIRStoreSinkConfig.

(** [mainWrapperConfig] *)
Record mainWrapperConfig := {
  fhirStoreEndpoint : string;
  gcsEndpoint : string;
  clientID : string;
  clientSecret : string;
  outputPrefix : string;
  rectify : bool;
  enableFHIRStore : bool;
  maxFHIRStoreUploadWorkers : Z;
  fhirStoreGCPProject : string;
  fhirStoreGCPLocation : string;
  fhirStoreGCPDatasetID : string;
  fhirStoreID : string;
  fhirStoreUploadErrorFileDir : string;
  fhirStoreEnableBatchUpload : bool;
  fhirStoreBatchUploadSize : Z;
  fhirStoreEnableGCSBasedUpload : bool;
  fhirStoreGCSBasedUploadBucket : string;
  bcdaServerURL : string;
  useGeneralizedBulkImport : bool;
  baseServerURL : string;
  authURL : string;
  fhirAuthScopes : list string;
  since : string;
  sinceFile : string;
  noFailOnUploadErrors : bool;
  pendingJobURL : string
}.

(** ** Constants *)

Definition jobStatusPeriod : Duration := 5 * Second.
Definition jobStatusTimeout : Duration := 6 * Hour.
Definition gcsImportJobPeriod : Duration := 5 * Second.
Definition gcsImportJobTimeout : Duration := 6 * Hour.
Definition maxTokenSize : N := 500 * 1024.
Definition initialBufferSize : N := 5 * 1024.

(** ** The trace of a run *)

(** What the program logs through [glog], by call site. *)
Inductive LogMsg :=
| LogNoOutput                       (* Warningln, line 129 *)
| LogCloseError (e : error)         (* Errorf, line 138 *)
| LogStartedJob (jobURL : string)   (* Infof, line 161 *)
| LogMonitorError (e : error)       (* Errorf, line 167 *)
| LogPending (percent : Z)          (* Infof, line 171 *)
| LogPendingUnknown                 (* Info, line 173 *)
| LogJobFinished (t : Time)         (* Infof, line 185 *)
| LogBeginDownload                  (* Infof, line 186 *)
| LogFHIRStoreUpload                (* Infof, line 203 *)
| LogComplete                       (* Info, line 264 *)
| LogRetry.                         (* Infof, line 275 *)

(** One event per call that leaves the program, with what the call
    returned. *)
Inductive Event :=
| EvLog (m : LogMsg)
| EvSleep (d : Duration)
| EvNewHTTPBasicOAuthAuthenticator (url : string) (err : option error)
| EvBulkfhirNewClient (url : string) (err : option error)
| EvBcdaNewClient (url : string) (err : option error)
| EvClientClose (err : option error)
| EvNewInMemoryTransactionTimeStore (s : string) (err : option error)
| EvNewGCSTransactionTimeStore (path : string) (err : option error)
| EvLoad (res : result Time)
| EvStartBulkDataExport (since : Time) (res : result string)
| EvMonitorJobStatus (jobURL : string) (results : list MonitorResult)
| EvTransactionTimeSet (t : Time)
| EvNewNDJSONSink (directory filePrefix : string) (err : option error)
| EvNewFHIRStoreSink (c : FHIRStoreSinkConfig.t) (err : option error)
| EvNewPipeline (processors sinks : nat) (err : option error)
| EvGetData (url : string) (res : result ReadCloser)
| EvAuthenticate (err : option error)
| EvProcess (rt : ResourceType) (url : string) (token : list byte)
            (err : option error)
| EvFinalize (err : option error)
| EvStore (t : Time) (err : option error)
| EvReaderClose (r : ReadCloser).

(** ** The packages the program calls *)

(** [bulkfhir] and [bcda]: the export client and the transaction-time
    stores.  [Client_MonitorJobStatus] answers with everything the
    returned channel delivers before it is closed. *)
Class BulkFHIR (World : Type) := {
  Authenticator : Type;
  Client : Type;
  TransactionTimeStore : Type;
  bcda_ResourceTypes : list ResourceType;
  bulkfhir_NewHTTPBasicOAuthAuthenticator :
    string → string → string → list string → World →
    result Authenticator * World;
  bulkfhir_NewClient :
    string → Authenticator → World → result Client * World;
  bcda_NewClient :
    string → string → string → World → result Client * World;
  Client_Close : Client → World → option error * World;
  Client_StartBulkDataExport :
    Client → list ResourceType → Time → World → result string * World;
  Client_MonitorJobStatus :
    Client → string → Duration → Duration → World →
    list MonitorResult * World;
  Client_GetData : Client → string → World → result ReadCloser * World;
  Client_Authenticate : Client → World → option error * World;
  ReadCloser_Close : ReadCloser → World → option error * World;
  bulkfhir_NewInMemoryTransactionTimeStore :
    string → World → result TransactionTimeStore * World;
  bulkfhir_NewGCSTransactionTimeStore :
    string → string → World → result TransactionTimeStore * World;
  bulkfhir_NewLocalFileTransactionTimeStore : string → TransactionTimeStore;
  TransactionTimeStore_Load :
    TransactionTimeStore → World → result Time * World;
  TransactionTimeStore_Store :
    TransactionTimeStore → Time → World → option error * World
}.

(** [processing]: processors, sinks and the pipeline.  The sinks hold the
    transaction-time box of the run and only read it: [Pipeline_Process]
    and [Pipeline_Finalize] are given its content at the time of the call. *)
Class Processing (World : Type) := {
  Processor : Type;
  Sink : Type;
  Pipeline : Type;
  processing_NewBCDARectifyProcessor : Processor;
  processing_NewNDJSONSink : string → string → World → result Sink * World;
  processing_NewFHIRStoreSink :
    FHIRStoreSinkConfig.t → World → result Sink * World;
  processing_NewPipeline :
    list Processor → list Sink → World → result Pipeline * World;
  Pipeline_Process :
    Pipeline → ResourceType → string → list byte → option Time → World →
    option error * World;
  Pipeline_Finalize : Pipeline → option Time → World → option error * World
}.

(** The Go runtime: a [range] over a map visits every entry once, in an
    order the language leaves unspecified. *)
Class GoRuntime (World : Type) := {
  mapRange :
    gmap ResourceType (list string) → World →
    list (ResourceType * list string) * World;
  mapRange_perm : ∀ m w, (mapRange m w).1 ≡ₚ map_to_list m
}.

(** ** Library functions the program uses *)

Definition isEmpty (s : string) : bool := String.eqb s "".
Definition nonEmpty (s : string) : bool := negb (isEmpty s).

(** [strings.HasPrefix] *)
Definition strings_HasPrefix (s pre : string) : bool := String.prefix pre s.

(** [filepath.Split], with [/] as the separator: the path up to and
    with its last separator, and what follows it. *)
Fixpoint filepath_Split (path : string) : string * string :=
  match path with
  | EmptyString => ("", "")
  | String c rest =>
      let '(dir, file) := filepath_Split rest in
      if nonEmpty dir then (String c dir, file)
      else if Ascii.eqb c "/"%char then ("/", file)
      else ("", String c file)
  end.

(** [strings.Split], with a separator of one byte: the parts of [s]
    between the separators, one more than there are separators. *)
Fixpoint strings_Split (s : string) (sep : ascii) : list string :=
  match s with
  | EmptyString => [""]
  | String c rest =>
      if Ascii.eqb c sep then "" :: strings_Split rest sep
      else match strings_Split rest sep with
           | part :: parts => String c part :: parts
           | [] => [String c ""]
           end
  end.

Module bufio.

Definition newline : byte := x0a.
Definition carriageReturn : byte := x0d.

(** [dropCR] of a line held last byte first, given back first byte
    first. *)
Definition dropCR (revLine : list byte) : list byte :=
  match revLine with
  | b :: rest =>
      if Byte.eqb b carriageReturn then reverse rest else reverse revLine
  | [] => []
  end.

(** A [bufio.Scanner] with the [ScanLines] split function and a buffer
    bounded by [max] ([Scanner.Buffer]), run to its end over a reader:
    the tokens of the successive [Scan] calls and the final [Err].
    [held] is the current line so far, last byte first, of [n] bytes.
    When [max] bytes are held and none is a newline the buffer cannot
    grow and the scanner stops with [ErrTooLong]; at the end of the
    input, whether [io.EOF] or a read error, what is held is the last
    token. *)
Fixpoint scan (max n : N) (held data : list byte) (rdErr : option error)
  : list (list byte) * option error :=
  if (max <=? n)%N then ([], Some ErrTooLong)
  else match data with
       | [] => (if (n =? 0)%N then [] else [dropCR held], rdErr)
       | b :: rest =>
           if Byte.eqb b newline then
             let '(tokens, err) := scan max 0 [] rest rdErr in
             (dropCR held :: tokens, err)
           else scan max (n + 1) (b :: held) rest rdErr
       end.

End bufio.

(** [bufio.NewScanner(r)] with [s.Buffer(make([]byte, initialBufferSize),
    maxTokenSize)]: the buffer starts below [maxTokenSize] and doubles up
    to it. *)
Definition scanLines (r : ReadCloser) : list (list byte) * option error :=
  bufio.scan maxTokenSize 0 [] (body r) (readErr r).

(** ** The program *)

(** How a call of [mainWrapper] ends: it returns its [error] (nil on
    success), or it panics. *)
Inductive Outcome :=
| Returned (err : option error)
| Panicked.

Section Program.

Context {World : Type}.
Context `{!BulkFHIR World} `{!Processing World} `{!GoRuntime World}.

(** The calls [mainWrapper] defers. *)
Inductive Deferred :=
| DeferClientClose (cl : Client)
| DeferReaderClose (r : ReadCloser).

(** The state of a run: the environment, the content of the
    transaction-time box ([None] while unset), and the deferred calls,
    last deferred first. *)
Record St := {
  world : World;
  transactionTime : option Time;
  deferred : list Deferred
}.

Definition setWorld (s : St) (w : World) : St :=
  {| world := w; transactionTime := transactionTime s;
     deferred := deferred s |}.

Definition setBox (s : St) (v : option Time) : St :=
  {| world := world s; transactionTime := v; deferred := deferred s |}.

(** A piece of a function body that returns [R]: from a state, either
    the function has returned ([inl]) or control goes on with a value
    ([inr]); in both cases with the new state and the events emitted. *)
Definition Go (R A : Type) : Type := St → (R + A) * St * list Event.

#[global] Instance Go_ret {R} : MRet (Go R) :=
  λ A a s, (inr a, s, []).

#[global] Instance Go_bind {R} : MBind (Go R) :=
  λ A B k m s,
    match m s with
    | (inl r, s1, t1) => (inl r, s1, t1)
    | (inr a, s1, t1) => let '(b, s2, t2) := k a s1 in (b, s2, t1 ++ t2)
    end.

(** [return r] *)
Definition return_ {R A} (r : R) : Go R A := λ s, (inl r, s, []).

(** A call into a package, recorded with its result. *)
Definition call {R A} (f : World → A * World) (ev : A → Event) : Go R A :=
  λ s, let '(a, w) := f (world s) in (inr a, setWorld s w, [ev a]).

(** A call that is also given the content of the transaction-time box. *)
Definition callTT {R A} (f : option Time → World → A * World)
    (ev : A → Event) : Go R A :=
  λ s, call (f (transactionTime s)) ev s.

(** A step of the runtime: it leaves no event. *)
Definition runtime {R A} (f : World → A * World) : Go R A :=
  λ s, let '(a, w) := f (world s) in (inr a, setWorld s w, []).

Definition emit {R} (e : Event) : Go R unit := λ s, (inr tt, s, [e]).

Definition log {R} (m : LogMsg) : Go R unit := emit (EvLog m).

(** [time.Sleep] *)
Definition time_Sleep {R} (d : Duration) : Go R unit := emit (EvSleep d).

(** [defer] *)
Definition defer {R} (d : Deferred) : Go R unit :=
  λ s, (inr tt,
        {| world := world s; transactionTime := transactionTime s;
           deferred := d :: deferred s |},
        []).

(** [bulkfhir.NewTransactionTime()] and [transactionTime.Set(t)] *)
Definition NewTransactionTime {R} : Go R TransactionTimePtr :=
  λ s, (inr transactionTimePtr, setBox s None, []).

Definition TransactionTime_Set {R} (_ : TransactionTimePtr) (t : Time)
  : Go R unit :=
  λ s, (inr tt, setBox s (Some t), [EvTransactionTimeSet t]).

(** A function of this program with body [body], run from [s]: what
    it returns, the state it leaves and the events of the call. *)
Definition exec {R} (body : Go R R) (s : St) : R * St * list Event :=
  let '(r, s', t) := body s in
  (match r with inl x => x | inr x => x end, s', t).

(** A call of that function from another body. *)
Definition fn {R R'} (body : Go R R) : Go R' R :=
  λ s, let '(r, s', t) := exec body s in (inr r, s', t).

(** *** getDataOrExit *)

(** The loop condition on [err], lines 273. *)
Definition retryable (res : result ReadCloser) : bool :=
  errors.Is (errOf res) ErrorUnauthorized
  || errors.Is (errOf res) ErrorRetryableHTTPStatus.

(** The loop of lines 273-281, entered with the result [res] of the
    last [GetData] and [left] = 5 - [numRetries] retries to go. *)
Fixpoint getDataRetry (cl : Client) (url : string) (left : nat)
    (res : result ReadCloser)
  : Go (result ReadCloser) (result ReadCloser) :=
  match left with
  | S left' =>
      if retryable res then
        time_Sleep (2 * Second);;
        log LogRetry;;
        err ← call (Client_Authenticate cl) EvAuthenticate;
        match err with
        | Some e =>
            return_ (Err (wrapError "Error authenticating with API: " e))
        | None =>
            res' ← call (Client_GetData cl url) (EvGetData url);
            getDataRetry cl url left' res'
        end
      else mret res
  | O => mret res
  end.

Definition getDataOrExit (cl : Client) (url clientID clientSecret : string)
  : Go (result ReadCloser) (result ReadCloser) :=
  res ← call (Client_GetData cl url) (EvGetData url);
  res ← getDataRetry cl url 5 res;
  match res with
  | Err e =>
      return_ (Err (wrapError ("Unable to GetData(" +:+ url +:+ ") ") e))
  | Ok r => return_ (Ok r)
  end.

(** *** getBulkFHIRClient *)

Definition getBulkFHIRClient (cfg : mainWrapperConfig)
  : Go (result Client) (result Client) :=
  if useGeneralizedBulkImport cfg then
    a ← call (bulkfhir_NewHTTPBasicOAuthAuthenticator
                (clientID cfg) (clientSecret cfg) (authURL cfg)
                (fhirAuthScopes cfg))
             (λ r, EvNewHTTPBasicOAuthAuthenticator (authURL cfg) (errOf r));
    match a with
    | Err e => return_ (Err e)
    | Ok authenticator =>
        r ← call (bulkfhir_NewClient (baseServerURL cfg) authenticator)
                 (λ r, EvBulkfhirNewClient (baseServerURL cfg) (errOf r));
        return_ r
    end
  else
    r ← call (bcda_NewClient (bcdaServerURL cfg) (clientID cfg)
                (clientSecret cfg))
             (λ r, EvBcdaNewClient (bcdaServerURL cfg) (errOf r));
    return_ r.

(** *** getTransactionTimeStore *)

Definition errOnlyOneSince : error :=
  errors.New
    "only one of since or since_file flags may be set (cannot set both)".

Definition getTransactionTimeStore (cfg : mainWrapperConfig)
  : Go (result TransactionTimeStore) (result TransactionTimeStore) :=
  if nonEmpty (since cfg) && nonEmpty (sinceFile cfg) then
    return_ (Err errOnlyOneSince)
  else if nonEmpty (since cfg) then
    r ← call (bulkfhir_NewInMemoryTransactionTimeStore (since cfg))
             (λ r, EvNewInMemoryTransactionTimeStore (since cfg) (errOf r));
    match r with
    | Err e => return_ (Err (wrapError "invalid since timestamp: " e))
    | Ok store => return_ (Ok store)
    end
  else if strings_HasPrefix (sinceFile cfg) "gs://" then
    r ← call (bulkfhir_NewGCSTransactionTimeStore (gcsEndpoint cfg)
                (sinceFile cfg))
             (λ r, EvNewGCSTransactionTimeStore (sinceFile cfg) (errOf r));
    return_ r
  else if nonEmpty (sinceFile cfg) then
    return_ (Ok (bulkfhir_NewLocalFileTransactionTimeStore (sinceFile cfg)))
  else
    r ← call (bulkfhir_NewInMemoryTransactionTimeStore "")
             (λ r, EvNewInMemoryTransactionTimeStore "" (errOf r));
    return_ r.

(** *** mainWrapper *)

Definition errCredentials : error :=
  errors.New "both clientID and clientSecret flags must be non-empty".

Definition errFHIRStoreFlags : error :=
  errors.New
    "if enable_fhir_store is true, all other FHIR store related flags must be set".

(** [fmt.Errorf] of line 180, with [jobStatusTimeout] printed by [%v]. *)
Definition errJobTimeout : error :=
  errorString "BCDA Job did not finish before the timeout of 6h0m0s".

(** Lines 109-130: the checks on the flags. *)
Definition checkFlags (cfg : mainWrapperConfig) : Go Outcome unit :=
  if isEmpty (clientID cfg) || isEmpty (clientSecret cfg) then
    return_ (Returned (Some errCredentials))
  else if enableFHIRStore cfg
          && (isEmpty (fhirStoreGCPProject cfg)
              || isEmpty (fhirStoreGCPLocation cfg)
              || isEmpty (fhirStoreGCPDatasetID cfg)
              || isEmpty (fhirStoreID cfg)) then
    return_ (Returned (Some errFHIRStoreFlags))
  else if enableFHIRStore cfg && negb (rectify cfg) then
    return_ (Returned (Some errMustRectifyForFHIRStore))
  else if fhirStoreEnableGCSBasedUpload cfg
          && isEmpty (fhirStoreGCSBasedUploadBucket cfg) then
    return_ (Returned (Some errMustSpecifyGCSBucket))
  else if isEmpty (outputPrefix cfg) && negb (enableFHIRStore cfg) then
    log LogNoOutput
  else mret tt.

(** Lines 109-151: the flags, the client, the transaction-time store and
    the [since] it holds. *)
Definition configuring (cfg : mainWrapperConfig)
  : Go Outcome (Client * TransactionTimeStore * Time) :=
  checkFlags cfg;;
  r ← fn (getBulkFHIRClient cfg);
  match r with
  | Err err =>
      return_ (Returned (Some (fmtError "Error making bulkfhir client: " err)))
  | Ok cl =>
      defer (DeferClientClose cl);;
      r ← fn (getTransactionTimeStore cfg);
      match r with
      | Err err => return_ (Returned (Some err))
      | Ok sinceStore =>
          r ← call (TransactionTimeStore_Load sinceStore) EvLoad;
          match r with
          | Err err =>
              return_ (Returned (Some (wrapError "invalid since timestamp: " err)))
          | Ok since => mret (cl, sinceStore, since)
          end
      end
  end.

(** Lines 155-162: the job to wait for. *)
Definition jobResolving (cfg : mainWrapperConfig) (cl : Client)
    (since : Time) : Go Outcome string :=
  if isEmpty (pendingJobURL cfg) then
    r ← call (Client_StartBulkDataExport cl bcda_ResourceTypes since)
             (EvStartBulkDataExport since);
    match r with
    | Err err =>
        return_ (Returned (Some (fmtError "unable to StartBulkDataExport: " err)))
    | Ok jobURL => log (LogStartedJob jobURL);; mret jobURL
    end
  else mret (pendingJobURL cfg).

(** The body of the loop of lines 165-176 on what the channel delivers;
    [monitorResult] is the loop variable, nil before the first turn. *)
Fixpoint monitorLoop (results : list MonitorResult)
    (monitorResult : option MonitorResult)
  : Go Outcome (option MonitorResult) :=
  match results with
  | [] => mret monitorResult
  | r :: rest =>
      match Error r with
      | Some e => log (LogMonitorError e)
      | None => mret tt
      end;;
      (if negb (IsComplete (Status r)) then
         if 0 <=? PercentComplete (Status r) then
           log (LogPending (PercentComplete (Status r)))
         else log LogPendingUnknown
       else mret tt);;
      monitorLoop rest (Some r)
  end.

(** Lines 164-181: the last status the monitor delivers, when the job
    is complete.  With nothing delivered [monitorResult] is nil at
    line 178. *)
Definition jobPolling (cl : Client) (jobURL : string)
  : Go Outcome JobStatus :=
  results ← call (Client_MonitorJobStatus cl jobURL jobStatusPeriod
                    jobStatusTimeout)
                 (EvMonitorJobStatus jobURL);
  monitorResult ← monitorLoop results None;
  match monitorResult with
  | None => return_ Panicked
  | Some monitorResult =>
      let jobStatus := Status monitorResult in
      if negb (IsComplete jobStatus) then
        return_ (Returned (Some errJobTimeout))
      else mret jobStatus
  end.

(** Lines 204-224 *)
Definition fhirStoreSinkConfig (cfg : mainWrapperConfig)
    (transactionTime : TransactionTimePtr) : FHIRStoreSinkConfig.t :=
  {| FHIRStoreSinkConfig.FHIRStoreEndpoint := fhirStoreEndpoint cfg;
     FHIRStoreSinkConfig.FHIRStoreID := fhirStoreID cfg;
     FHIRStoreSinkConfig.FHIRProjectID := fhirStoreGCPProject cfg;
     FHIRStoreSinkConfig.FHIRDatasetID := fhirStoreGCPDatasetID cfg;
     FHIRStoreSinkConfig.FHIRLocation := fhirStoreGCPLocation cfg;
     FHIRStoreSinkConfig.NoFailOnUploadErrors := noFailOnUploadErrors cfg;
     FHIRStoreSinkConfig.UseGCSUpload := fhirStoreEnableGCSBasedUpload cfg;
     FHIRStoreSinkConfig.BatchUpload := fhirStoreEnableBatchUpload cfg;
     FHIRStoreSinkConfig.BatchSize := fhirStoreBatchUploadSize cfg;
     FHIRStoreSinkConfig.MaxWorkers := maxFHIRStoreUploadWorkers cfg;
     FHIRStoreSinkConfig.ErrorFileOutputPath :=
       fhirStoreUploadErrorFileDir cfg;
     FHIRStoreSinkConfig.GCSEndpoint := gcsEndpoint cfg;
     FHIRStoreSinkConfig.GCSBucket := fhirStoreGCSBasedUploadBucket cfg;
     FHIRStoreSinkConfig.GCSImportJobTimeout := gcsImportJobTimeout;
     FHIRStoreSinkConfig.GCSImportJobPeriod := gcsImportJobPeriod;
     FHIRStoreSinkConfig.TransactionTime := transactionTime |}.

(** Lines 188-234: processors, sinks and the pipeline. *)
Definition buildPipeline (cfg : mainWrapperConfig)
    (transactionTime : TransactionTimePtr) : Go Outcome Pipeline :=
  let processors : list Processor :=
    if rectify cfg then [processing_NewBCDARectifyProcessor] else [] in
  sinks ← (if nonEmpty (outputPrefix cfg) then
             let '(directory, filePrefix) :=
               filepath_Split (outputPrefix cfg) in
             r ← call (processing_NewNDJSONSink directory filePrefix)
                      (λ r, EvNewNDJSONSink directory filePrefix (errOf r));
             match r with
             | Err err =>
                 return_ (Returned (Some (fmtError "error making ndjson sink: " err)))
             | Ok ndjsonSink => mret [ndjsonSink]
             end
           else mret []);
  sinks ← (if enableFHIRStore cfg then
             log LogFHIRStoreUpload;;
             let c := fhirStoreSinkConfig cfg transactionTime in
             r ← call (processing_NewFHIRStoreSink c)
                      (λ r, EvNewFHIRStoreSink c (errOf r));
             match r with
             | Err err =>
                 return_ (Returned (Some (fmtError "error making FHIR Store sink: " err)))
             | Ok fhirStoreSink => mret (sinks ++ [fhirStoreSink])
             end
           else mret sinks);
  r ← call (processing_NewPipeline processors sinks)
           (λ r, EvNewPipeline (length processors) (length sinks) (errOf r));
  match r with
  | Err err =>
      return_ (Returned (Some (fmtError "error making output pipeline: " err)))
  | Ok pipeline => mret pipeline
  end.

(** Lines 245-249: one [pipeline.Process] per token, until one fails. *)
Fixpoint scanLoop (pipeline : Pipeline) (resourceType : ResourceType)
    (url : string) (tokens : list (list byte)) : Go Outcome unit :=
  match tokens with
  | [] => mret tt
  | token :: rest =>
      err ← callTT (Pipeline_Process pipeline resourceType url token)
                   (EvProcess resourceType url token);
      match err with
      | Some e => return_ (Returned (Some e))
      | None => scanLoop pipeline resourceType url rest
      end
  end.

(** Lines 238-252: the body of the inner loop, for one URL. *)
Definition fetchURL (cfg : mainWrapperConfig) (cl : Client)
    (pipeline : Pipeline) (resourceType : ResourceType) (url : string)
  : Go Outcome unit :=
  res ← fn (getDataOrExit cl url (clientID cfg) (clientSecret cfg));
  match res with
  | Err err => return_ (Returned (Some err))
  | Ok r =>
      defer (DeferReaderClose r);;
      let '(tokens, scanErr) := scanLines r in
      scanLoop pipeline resourceType url tokens;;
      match scanErr with
      | Some err => return_ (Returned (Some err))
      | None => mret tt
      end
  end.

(** Lines 237-253 *)
Fixpoint urlLoop (cfg : mainWrapperConfig) (cl : Client)
    (pipeline : Pipeline) (resourceType : ResourceType)
    (urls : list string) : Go Outcome unit :=
  match urls with
  | [] => mret tt
  | url :: rest =>
      fetchURL cfg cl pipeline resourceType url;;
      urlLoop cfg cl pipeline resourceType rest
  end.

(** Lines 236-254, over the entries in the order the [range] yields
    them. *)
Fixpoint resourceLoop (cfg : mainWrapperConfig) (cl : Client)
    (pipeline : Pipeline) (entries : list (ResourceType * list string))
  : Go Outcome unit :=
  match entries with
  | [] => mret tt
  | (resourceType, urls) :: rest =>
      urlLoop cfg cl pipeline resourceType urls;;
      resourceLoop cfg cl pipeline rest
  end.

Definition downloading (cfg : mainWrapperConfig) (cl : Client)
    (pipeline : Pipeline) (jobStatus : JobStatus) : Go Outcome unit :=
  entries ← runtime (mapRange (ResultURLs jobStatus));
  resourceLoop cfg cl pipeline entries.

(** Lines 256-258 *)
Definition finalizing (pipeline : Pipeline) : Go Outcome unit :=
  err ← callTT (Pipeline_Finalize pipeline) EvFinalize;
  match err with
  | Some e =>
      return_ (Returned (Some (wrapError "failed to finalize output pipeline: " e)))
  | None => mret tt
  end.

(** Lines 260-262 *)
Definition checkpointCommitting (sinceStore : TransactionTimeStore)
    (jobStatus : JobStatus) : Go Outcome unit :=
  err ← call (TransactionTimeStore_Store sinceStore
                (TransactionTime jobStatus))
             (EvStore (TransactionTime jobStatus));
  match err with
  | Some e =>
      return_ (Returned (Some (fmtError "failed to store transaction timestamp: " e)))
  | None => mret tt
  end.

(** The body of [mainWrapper], lines 107-265. *)
Definition mainWrapperBody (cfg : mainWrapperConfig) : Go Outcome Outcome :=
  '(cl, sinceStore, since) ← configuring cfg;
  transactionTime ← NewTransactionTime;
  jobURL ← jobResolving cfg cl since;
  jobStatus ← jobPolling cl jobURL;
  TransactionTime_Set transactionTime (TransactionTime jobStatus);;
  log (LogJobFinished (TransactionTime jobStatus));;
  log LogBeginDownload;;
  pipeline ← buildPipeline cfg transactionTime;
  downloading cfg cl pipeline jobStatus;;
  finalizing pipeline;;
  checkpointCommitting sinceStore jobStatus;;
  log LogComplete;;
  return_ (Returned None).

(** A deferred call, run when [mainWrapper] is left; the error of a
    reader's [Close] is dropped, the client's is logged. *)
Definition runDeferred (d : Deferred) : Go Outcome unit :=
  match d with
  | DeferClientClose cl =>
      err ← call (Client_Close cl) EvClientClose;
      match err with
      | Some e => log (LogCloseError e)
      | None => mret tt
      end
  | DeferReaderClose r =>
      call (ReadCloser_Close r) (λ _, EvReaderClose r);;
      mret tt
  end.

Fixpoint runAllDeferred (ds : list Deferred) : Go Outcome unit :=
  match ds with
  | [] => mret tt
  | d :: rest => runDeferred d;; runAllDeferred rest
  end.

(** A finished call of [mainWrapper]. *)
Record Run := {
  outcome : Outcome;
  final : St;
  trace : list Event
}.

Definition initial (w : World) : St :=
  {| world := w; transactionTime := None; deferred := [] |}.

(** [mainWrapper(cfg)] from the environment state [w]: the body, then
    the deferred calls, last deferred first. *)
Definition mainWrapper (cfg : mainWrapperConfig) (w : World) : Run :=
  let '(r, s, t) := mainWrapperBody cfg (initial w) in
  let '(_, s', t') := runAllDeferred (deferred s) s in
  {| outcome := match r with inl o => o | inr o => o end;
     final := s';
     trace := t ++ t' |}.

End Program.

(** *** The flags, buildMainWrapperConfig and main *)

(** The flags of lines 42-69, at the values [flag.Parse] leaves them. *)
Module flags.

Record Values := {
  clientID : string;
  clientSecret : string;
  outputPrefix : string;
  rectify : bool;
  enableFHIRStore : bool;
  maxFHIRStoreUploadWorkers : Z;
  fhirStoreGCPProject : string;
  fhirStoreGCPLocation : string;
  fhirStoreGCPDatasetID : string;
  fhirStoreID : string;
  fhirStoreUploadErrorFileDir : string;
  fhirStoreEnableBatchUpload : bool;
  fhirStoreBatchUploadSize : Z;
  fhirStoreEnableGCSBasedUpload : bool;
  fhirStoreGCSBasedUploadBucket : string;
  bcdaServerURL : string;
  enableGeneralizedBulkImport : bool;
  baseServerURL : string;
  authURL : string;
  fhirAuthScopes : string;
  since : string;
  sinceFile : string;
  noFailOnUploadErrors : bool;
  pendingJobURL : string
}.

(** The values of a command line that sets no flag. *)
Definition defaults : Values := {|
  clientID := "";
  clientSecret := "";
  outputPrefix := "";
  rectify := false;
  enableFHIRStore := false;
  maxFHIRStoreUploadWorkers := 10;
  fhirStoreGCPProject := "";
  fhirStoreGCPLocation := "";
  fhirStoreGCPDatasetID := "";
  fhirStoreID := "";
  fhirStoreUploadErrorFileDir := "";
  fhirStoreEnableBatchUpload := false;
  fhirStoreBatchUploadSize := 0;
  fhirStoreEnableGCSBasedUpload := false;
  fhirStoreGCSBasedUploadBucket := "";
  bcdaServerURL := "https://sandbox.bcda.cms.gov";
  enableGeneralizedBulkImport := false;
  baseServerURL := "";
  authURL := "";
  fhirAuthScopes := "";
  since := "";
  sinceFile := "";
  noFailOnUploadErrors := false;
  pendingJobURL := ""
|}.

End flags.

(** The default endpoints of the packages [fhirstore] and [gcs]. *)
Class Endpoints := {
  fhirstore_DefaultHealthcareEndpoint : string;
  gcs_DefaultCloudStorageEndpoint : string
}.

Section Main.

Context {World : Type}.
Context `{!BulkFHIR World} `{!Processing World} `{!GoRuntime World}.
Context `{!Endpoints}.

(** How the process ends: with the status 0 when [main] returns, with
    the status 1 after [log.Exit] has logged the error of [mainWrapper],
    and with the status 2 the Go runtime gives a panic. *)
Record Process := {
  run : Run;
  logged : option error;
  exitStatus : Z
}.

Definition buildMainWrapperConfig (fl : flags.Values) : mainWrapperConfig := {|
  fhirStoreEndpoint := fhirstore_DefaultHealthcareEndpoint;
  gcsEndpoint := gcs_DefaultCloudStorageEndpoint;
  clientID := flags.clientID fl;
  clientSecret := flags.clientSecret fl;
  outputPrefix := flags.outputPrefix fl;
  rectify := flags.rectify fl;
  enableFHIRStore := flags.enableFHIRStore fl;
  maxFHIRStoreUploadWorkers := flags.maxFHIRStoreUploadWorkers fl;
  fhirStoreGCPProject := flags.fhirStoreGCPProject fl;
  fhirStoreGCPLocation := flags.fhirStoreGCPLocation fl;
  fhirStoreGCPDatasetID := flags.fhirStoreGCPDatasetID fl;
  fhirStoreID := flags.fhirStoreID fl;
  fhirStoreUploadErrorFileDir := flags.fhirStoreUploadErrorFileDir fl;
  fhirStoreEnableBatchUpload := flags.fhirStoreEnableBatchUpload fl;
  fhirStoreBatchUploadSize := flags.fhirStoreBatchUploadSize fl;
  fhirStoreEnableGCSBasedUpload := flags.fhirStoreEnableGCSBasedUpload fl;
  fhirStoreGCSBasedUploadBucket := flags.fhirStoreGCSBasedUploadBucket fl;
  bcdaServerURL := flags.bcdaServerURL fl;
  useGeneralizedBulkImport := flags.enableGeneralizedBulkImport fl;
  baseServerURL := flags.baseServerURL fl;
  authURL := flags.authURL fl;
  fhirAuthScopes := strings_Split (flags.fhirAuthScopes fl) ","%char;
  since := flags.since fl;
  sinceFile := flags.sinceFile fl;
  noFailOnUploadErrors := flags.noFailOnUploadErrors fl;
  pendingJobURL := flags.pendingJobURL fl
|}.

(** [main], from the return of [flag.Parse] with the flags at [fl]. *)
Definition main (fl : flags.Values) (w : World) : Process :=
  let r := mainWrapper (buildMainWrapperConfig fl) w in
  match outcome r with
  | Returned None => {| run := r; logged := None; exitStatus := 0 |}
  | Returned (Some err) => {| run := r; logged := Some err; exitStatus := 1 |}
  | Panicked => {| run := r; logged := None; exitStatus := 2 |}
  end.

End Main.

(** ** A scripted environment

    A test double for the three packages: every call takes its answer
    from a script held in the state, and succeeds once its script is
    used up. *)
Module Fake.

Record World := {
  newClient : option error;
  newStore : option error;
  load : result Time;
  startExport : result string;
  monitor : list MonitorResult;
  newSink : option error;
  newPipeline : option error;
  getData : list (result ReadCloser);
  authenticate : list (option error);
  process : list (option error);
  finalize : option error;
  store : option error;
  reverseRange : bool
}.

Definition emptyReader : ReadCloser := {| body := []; readErr := None |}.

Definition answer (err : option error) : result unit :=
  match err with
  | Some e => Err e
  | None => Ok tt
  end.

Definition nextGetData (w : World) : result ReadCloser * World :=
  match getData w with
  | [] => (Ok emptyReader, w)
  | r :: rest =>
      (r, {| newClient := newClient w; newStore := newStore w;
             load := load w; startExport := startExport w;
             monitor := monitor w; newSink := newSink w;
             newPipeline := newPipeline w; getData := rest;
             authenticate := authenticate w; process := process w;
             finalize := finalize w; store := store w;
             reverseRange := reverseRange w |})
  end.

Definition nextAuthenticate (w : World) : option error * World :=
  match authenticate w with
  | [] => (None, w)
  | r :: rest =>
      (r, {| newClient := newClient w; newStore := newStore w;
             load := load w; startExport := startExport w;
             monitor := monitor w; newSink := newSink w;
             newPipeline := newPipeline w; getData := getData w;
             authenticate := rest; process := process w;
             finalize := finalize w; store := store w;
             reverseRange := reverseRange w |})
  end.

Definition nextProcess (w : World) : option error * World :=
  match process w with
  | [] => (None, w)
  | r :: rest =>
      (r, {| newClient := newClient w; newStore := newStore w;
             load := load w; startExport := startExport w;
             monitor := monitor w; newSink := newSink w;
             newPipeline := newPipeline w; getData := getData w;
             authenticate := authenticate w; process := rest;
             finalize := finalize w; store := store w;
             reverseRange := reverseRange w |})
  end.

#[global] Instance bulkFHIR : BulkFHIR World := {|
  Authenticator := unit;
  Client := unit;
  TransactionTimeStore := unit;
  bcda_ResourceTypes := ["ExplanationOfBenefit"; "Patient"; "Coverage"];
  bulkfhir_NewHTTPBasicOAuthAuthenticator := λ _ _ _ _ w, (Ok tt, w);
  bulkfhir_NewClient := λ _ _ w, (answer (newClient w), w);
  bcda_NewClient := λ _ _ _ w, (answer (newClient w), w);
  Client_Close := λ _ w, (None, w);
  Client_StartBulkDataExport := λ _ _ _ w, (startExport w, w);
  Client_MonitorJobStatus := λ _ _ _ _ w, (monitor w, w);
  Client_GetData := λ _ _, nextGetData;
  Client_Authenticate := λ _, nextAuthenticate;
  ReadCloser_Close := λ _ w, (None, w);
  bulkfhir_NewInMemoryTransactionTimeStore :=
    λ _ w, (answer (newStore w), w);
  bulkfhir_NewGCSTransactionTimeStore := λ _ _ w, (answer (newStore w), w);
  bulkfhir_NewLocalFileTransactionTimeStore := λ _, tt;
  TransactionTimeStore_Load := λ _ w, (load w, w);
  TransactionTimeStore_Store := λ _ _ w, (store w, w)
|}.

#[global] Instance processing : Processing World := {|
  Processor := unit;
  Sink := unit;
  Pipeline := unit;
  processing_NewBCDARectifyProcessor := tt;
  processing_NewNDJSONSink := λ _ _ w, (answer (newSink w), w);
  processing_NewFHIRStoreSink := λ _ w, (answer (newSink w), w);
  processing_NewPipeline := λ _ _ w, (answer (newPipeline w), w);
  Pipeline_Process := λ _ _ _ _ _, nextProcess;
  Pipeline_Finalize := λ _ _ w, (finalize w, w)
|}.

Definition rangeOrder (m : gmap ResourceType (list string)) (w : World)
  : list (ResourceType * list string) :=
  if reverseRange w then reverse (map_to_list m) else map_to_list m.

#[global] Instance goRuntime : GoRuntime World.
Proof.
  refine {| mapRange := λ m w, (rangeOrder m w, w) |}.
  intros m w. unfold rangeOrder. cbn. destruct (reverseRange w).
  - apply reverse_Permutation.
  - reflexivity.
Defined.

(** A world where every call succeeds; the job is complete at the
    first poll and has nothing to download. *)
Definition quiet : World := {|
  newClient := None; newStore := None; load := Ok 0;
  startExport := Ok "https://example.org/jobs/1";
  monitor := [ {| Status := {| IsComplete := true; ResultURLs := ∅;
                               PercentComplete := 100;
                               TransactionTime := 1620000000 |};
                  Error := None |} ];
  newSink := None; newPipeline := None;
  getData := []; authenticate := []; process := [];
  finalize := None; store := None; reverseRange := false
|}.

(** A configuration that passes the checks of lines 109-126 when both
    credentials are given: output to files under [out/], no FHIR store. *)
Definition configure (id secret sinceFlag sinceFileFlag : string)
  : mainWrapperConfig := {|
  fhirStoreEndpoint := "https://healthcare.googleapis.com/";
  gcsEndpoint := "https://storage.googleapis.com/";
  clientID := id;
  clientSecret := secret;
  outputPrefix := "out/fetch_";
  rectify := false;
  enableFHIRStore := false;
  maxFHIRStoreUploadWorkers := 10;
  fhirStoreGCPProject := "";
  fhirStoreGCPLocation := "";
  fhirStoreGCPDatasetID := "";
  fhirStoreID := "";
  fhirStoreUploadErrorFileDir := "";
  fhirStoreEnableBatchUpload := false;
  fhirStoreBatchUploadSize := 0;
  fhirStoreEnableGCSBasedUpload := false;
  fhirStoreGCSBasedUploadBucket := "";
  bcdaServerURL := "https://sandbox.bcda.cms.gov";
  useGeneralizedBulkImport := false;
  baseServerURL := "";
  authURL := "";
  fhirAuthScopes := [""];
  since := sinceFlag;
  sinceFile := sinceFileFlag;
  noFailOnUploadErrors := false;
  pendingJobURL := ""
|}.

Definition config : mainWrapperConfig := configure "id" "secret" "" "".

End Fake.

(** * Reading a run

    The events of a run, read back by kind. *)

(** The results of the download attempts, in order. *)
Definition downloads (t : list Event) : list (result ReadCloser) :=
  omap (λ e, match e with EvGetData _ r => Some r | _ => None end) t.

(** The results of the calls of [Authenticate], in order. *)
Definition authentications (t : list Event) : list (option error) :=
  omap (λ e, match e with EvAuthenticate r => Some r | _ => None end) t.

(** The events of one retry that goes through, lines 274-279: the sleep,
    the log line, a successful [Authenticate], and the [GetData] with its
    result. *)
Definition retryEvents (url : string) (res : result ReadCloser)
  : list Event :=
  [EvSleep (2 * Second); EvLog LogRetry; EvAuthenticate None;
   EvGetData url res].

(** The events of a retry stopped by [Authenticate], lines 274-277. *)
Definition failedRetryEvents (ae : error) : list Event :=
  [EvSleep (2 * Second); EvLog LogRetry; EvAuthenticate (Some ae)].

(** The number of retries: the download attempts after the first. *)
Definition retries (t : list Event) : nat := length (downloads t) - 1.

Definition errAuthenticating (ae : error) : error :=
  wrapError "Error authenticating with API: " ae.

Definition errUnableToGetData (url : string) (e : error) : error :=
  wrapError ("Unable to GetData(" +:+ url +:+ ") ") e.

(** What [getDataOrExit] returns for the result of its last [GetData],
    lines 283-287. *)
Definition fetched (url : string) (res : result ReadCloser)
  : result ReadCloser :=
  match res with
  | Ok r => Ok r
  | Err e => Err (errUnableToGetData url e)
  end.

(** The part of [mainWrapper] an event comes from. *)
Inductive Phase :=
| Configuring      (* lines 109-151 *)
| JobResolving     (* lines 155-162 *)
| JobPolling       (* lines 164-181 *)
| Recording        (* lines 183-186 *)
| Building         (* lines 188-234 *)
| Downloading      (* lines 236-254 *)
| Finalizing       (* lines 256-258 *)
| Committing       (* lines 260-262 *)
| Completing       (* line 264 *)
| Leaving.         (* the deferred calls *)

Definition phaseOf (e : Event) : Phase :=
  match e with
  | EvLog LogNoOutput => Configuring
  | EvLog (LogCloseError _) => Leaving
  | EvLog (LogStartedJob _) => JobResolving
  | EvLog (LogMonitorError _) => JobPolling
  | EvLog (LogPending _) => JobPolling
  | EvLog LogPendingUnknown => JobPolling
  | EvLog (LogJobFinished _) => Recording
  | EvLog LogBeginDownload => Recording
  | EvLog LogFHIRStoreUpload => Building
  | EvLog LogComplete => Completing
  | EvLog LogRetry => Downloading
  | EvSleep _ => Downloading
  | EvNewHTTPBasicOAuthAuthenticator _ _ => Configuring
  | EvBulkfhirNewClient _ _ => Configuring
  | EvBcdaNewClient _ _ => Configuring
  | EvClientClose _ => Leaving
  | EvNewInMemoryTransactionTimeStore _ _ => Configuring
  | EvNewGCSTransactionTimeStore _ _ => Configuring
  | EvLoad _ => Configuring
  | EvStartBulkDataExport _ _ => JobResolving
  | EvMonitorJobStatus _ _ => JobPolling
  | EvTransactionTimeSet _ => Recording
  | EvNewNDJSONSink _ _ _ => Building
  | EvNewFHIRStoreSink _ _ => Building
  | EvNewPipeline _ _ _ => Building
  | EvGetData _ _ => Downloading
  | EvAuthenticate _ => Downloading
  | EvProcess _ _ _ _ => Downloading
  | EvFinalize _ => Finalizing
  | EvStore _ _ => Committing
  | EvReaderClose _ => Leaving
  end.

(** What the monitor delivered, for each call of [MonitorJobStatus]. *)
Definition polls (t : list Event) : list (list MonitorResult) :=
  omap (λ e, match e with EvMonitorJobStatus _ rs => Some rs | _ => None end) t.

(** The results of the calls of [StartBulkDataExport]. *)
Definition exports (t : list Event) : list (result string) :=
  omap (λ e, match e with EvStartBulkDataExport _ r => Some r | _ => None end) t.

(** The values given to [transactionTime.Set]. *)
Definition sets (t : list Event) : list Time :=
  omap (λ e, match e with EvTransactionTimeSet v => Some v | _ => None end) t.

(** The results of the calls of [pipeline.Finalize]. *)
Definition finalizations (t : list Event) : list (option error) :=
  omap (λ e, match e with EvFinalize r => Some r | _ => None end) t.

(** The calls of [sinceStore.Store]: the time stored and the result. *)
Definition stores (t : list Event) : list (Time * option error) :=
  omap (λ e, match e with EvStore v r => Some (v, r) | _ => None end) t.

(** The errors of the calls of [pipeline.Process] that failed. *)
Definition processFailures (t : list Event) : list error :=
  omap (λ e, match e with EvProcess _ _ _ r => r | _ => None end) t.

(** The events of lines 183-186. *)
Definition recorded (jobStatus : JobStatus) : list Event :=
  [EvTransactionTimeSet (TransactionTime jobStatus);
   EvLog (LogJobFinished (TransactionTime jobStatus));
   EvLog LogBeginDownload].

(** The results of the calls that construct the client. *)
Definition clients (t : list Event) : list (option error) :=
  omap (λ e, match e with
             | EvBulkfhirNewClient _ r => Some r
             | EvBcdaNewClient _ r => Some r
             | _ => None
             end) t.

(** The three places a run can take its [since] time from. *)
Inductive CheckpointSource :=
| ExplicitValue    (* the since flag *)
| LocalFile        (* the since_file flag, a path *)
| RemoteObject.    (* the since_file flag, a gs:// path *)

(** The checkpoint sources a configuration sets. *)
Definition checkpointSources (cfg : mainWrapperConfig)
  : list CheckpointSource :=
  (if nonEmpty (since cfg) then [ExplicitValue] else [])
  ++ (if nonEmpty (sinceFile cfg) then
        [if strings_HasPrefix (sinceFile cfg) "gs://" then RemoteObject
         else LocalFile]
      else []).

(** The newline-delimited records of a stream: what stands between two
    newlines, before the first and after the last; [held] is the
    current record so far, last byte first. *)
Fixpoint splitRecords (held data : list byte) : list (list byte) :=
  match data with
  | [] => [reverse held]
  | b :: rest =>
      if Byte.eqb b bufio.newline then reverse held :: splitRecords [] rest
      else splitRecords (b :: held) rest
  end.

Definition records (data : list byte) : list (list byte) :=
  splitRecords [] data.

(** The stream has a record larger than [maxTokenSize]. *)
Definition oversize (r : ReadCloser) : bool :=
  existsb (λ record, (maxTokenSize <? N.of_nat (length record))%N)
          (records (body r)).

(** The URLs of the downloads that succeeded, in order. *)
Definition fetchedURLs (t : list Event) : list string :=
  omap (λ e, match e with EvGetData url (Ok _) => Some url | _ => None end) t.

(** The error with which a run that has event [e], followed by [after],
    must end:
    - a [Process] or a re-authentication that fails;
    - a download that fails and is not retried (no [Authenticate] comes
      after it);
    - a download whose reader the scanner cannot read to the end, when
      no [Process] fails after it;
    - a [Finalize] that fails. *)
Definition fatalAt (e : Event) (after : list Event) : option error :=
  match e with
  | EvProcess _ _ _ (Some err) => Some err
  | EvAuthenticate (Some ae) => Some (errAuthenticating ae)
  | EvGetData url (Err e0) =>
      match authentications after with
      | [] => Some (errUnableToGetData url e0)
      | _ => None
      end
  | EvGetData url (Ok r) =>
      match (scanLines r).2, processFailures after with
      | Some err, [] => Some err
      | _, _ => None
      end
  | EvFinalize (Some err) =>
      Some (wrapError "failed to finalize output pipeline: " err)
  | _ => None
  end.

(** The reader of a successful download cannot be scanned to its end. *)
Definition unreadable (r : ReadCloser) : Prop := (scanLines r).2 ≠ None.

(** A piece of the run that ends with [x] ([None]: it goes on) after the
    events [t] is sound when every fatal event of [t] ends it with its
    error, and a download of an unreadable stream ends it with no
    further download. *)
Definition Sound (x : option Outcome) (t : list Event) : Prop :=
  (∀ before e after err,
     t = before ++ e :: after → fatalAt e after = Some err →
     x = Some (Returned (Some err)))
  ∧ (∀ before url r after,
       t = before ++ EvGetData url (Ok r) :: after → unreadable r →
       x ≠ None ∧ downloads after = []).

Definition exitOf {R A} (r : R + A) : option R :=
  match r with
  | inl o => Some o
  | inr _ => None
  end.

(** An event that is never fatal and is no successful download. *)
Definition inert (e : Event) : Prop :=
  (∀ after, fatalAt e after = None) ∧ (∀ url r, e ≠ EvGetData url (Ok r)).

(** One failed attempt and the retry that follows it. *)
Definition attempt (url : string) (res : result ReadCloser) : list Event :=
  [EvGetData url res; EvSleep (2 * Second); EvLog LogRetry;
   EvAuthenticate None].

(** URL [url] of resource type [rt] was downloaded, scanned to the end
    of the stream and every record of it processed without error. *)
Definition fullyProcessed (rt : ResourceType) (url : string)
    (t : list Event) : Prop :=
  ∃ r, In (EvGetData url (Ok r)) t
       ∧ (scanLines r).2 = None
       ∧ ∀ token, In token (scanLines r).1 →
                  In (EvProcess rt url token None) t.

(** The URLs of a job in the order the downloading phase takes them:
    entry by entry of the range over the map, each entry's URLs in the
    order of its list. *)
Definition visitPlan (entries : list (ResourceType * list string))
  : list (ResourceType * string) :=
  flat_map (λ '(rt, urls), map (pair rt) urls) entries.

(** A piece of the downloading phase that has [planned] to visit and ends
    with [r] after the events [t] has fetched a prefix of the plan and,
    when it goes on, all of it, each URL fully processed. *)
Definition Visited (planned : list (ResourceType * string))
    (r : Outcome + unit) (t : list Event) : Prop :=
  fetchedURLs t `prefix_of` map snd planned
  ∧ (r = inr tt →
     fetchedURLs t = map snd planned
     ∧ processFailures t = []
     ∧ ∀ rt url, In (rt, url) planned → fullyProcessed rt url t).

Section Notions.

Context {World : Type}.
Context `{!BulkFHIR World} `{!Processing World} `{!GoRuntime World}.

(** The two ways a call of [getDataOrExit] goes, by its events and
    what it returns. *)
Inductive FetchRun (url : string)
  : list Event → result ReadCloser → Prop :=
| fetch_settled (a0 : result ReadCloser) (rs : list (result ReadCloser)) :
    (length rs ≤ 5)%nat →
    Forall (λ x, retryable x = true) (removelast (a0 :: rs)) →
    retryable (List.last rs a0) = false ∨ length rs = 5%nat →
    FetchRun url (EvGetData url a0 :: flat_map (retryEvents url) rs)
      (fetched url (List.last rs a0))
| fetch_unauthenticated (a0 : result ReadCloser)
    (rs : list (result ReadCloser)) (ae : error) :
    (length rs < 5)%nat →
    Forall (λ x, retryable x = true) (a0 :: rs) →
    FetchRun url
      (EvGetData url a0 :: flat_map (retryEvents url) rs
         ++ failedRetryEvents ae)
      (Err (errAuthenticating ae)).

(** [m] belongs to phase [P]: all its events are of that phase, and it
    leaves the transaction-time box as it found it. *)
Definition inPhase (P : Phase) {R A} (m : Go R A) : Prop :=
  ∀ s r s' t, m s = (r, s', t) →
    Forall (λ e, phaseOf e = P) t ∧ transactionTime s' = transactionTime s.

(** How far the body of [mainWrapper] gets from [s0], with the outcome,
    the state and the events of each case. *)
Inductive BodyRun (cfg : mainWrapperConfig) (s0 : St)
  : Outcome → St → list Event → Prop :=
| run_unconfigured o s1 t1 :
    configuring cfg s0 = (inl o, s1, t1) →
    BodyRun cfg s0 o s1 t1
| run_unresolved cl sinceStore since s1 t1 o s2 t2 :
    configuring cfg s0 = (inr (cl, sinceStore, since), s1, t1) →
    jobResolving cfg cl since (setBox s1 None) = (inl o, s2, t2) →
    BodyRun cfg s0 o s2 (t1 ++ t2)
| run_unpolled cl sinceStore since s1 t1 jobURL s2 t2 o s3 t3 :
    configuring cfg s0 = (inr (cl, sinceStore, since), s1, t1) →
    jobResolving cfg cl since (setBox s1 None) = (inr jobURL, s2, t2) →
    jobPolling cl jobURL s2 = (inl o, s3, t3) →
    BodyRun cfg s0 o s3 (t1 ++ t2 ++ t3)
| run_unbuilt cl sinceStore since s1 t1 jobURL s2 t2 jobStatus s3 t3
    o s4 t4 :
    configuring cfg s0 = (inr (cl, sinceStore, since), s1, t1) →
    jobResolving cfg cl since (setBox s1 None) = (inr jobURL, s2, t2) →
    jobPolling cl jobURL s2 = (inr jobStatus, s3, t3) →
    buildPipeline cfg transactionTimePtr
      (setBox s3 (Some (TransactionTime jobStatus))) = (inl o, s4, t4) →
    BodyRun cfg s0 o s4 (t1 ++ t2 ++ t3 ++ recorded jobStatus ++ t4)
| run_undownloaded cl sinceStore since s1 t1 jobURL s2 t2 jobStatus s3 t3
    pipeline s4 t4 o s5 t5 :
    configuring cfg s0 = (inr (cl, sinceStore, since), s1, t1) →
    jobResolving cfg cl since (setBox s1 None) = (inr jobURL, s2, t2) →
    jobPolling cl jobURL s2 = (inr jobStatus, s3, t3) →
    buildPipeline cfg transactionTimePtr
      (setBox s3 (Some (TransactionTime jobStatus)))
    = (inr pipeline, s4, t4) →
    downloading cfg cl pipeline jobStatus s4 = (inl o, s5, t5) →
    BodyRun cfg s0 o s5 (t1 ++ t2 ++ t3 ++ recorded jobStatus ++ t4 ++ t5)
| run_unfinalized cl sinceStore since s1 t1 jobURL s2 t2 jobStatus s3 t3
    pipeline s4 t4 s5 t5 o s6 t6 :
    configuring cfg s0 = (inr (cl, sinceStore, since), s1, t1) →
    jobResolving cfg cl since (setBox s1 None) = (inr jobURL, s2, t2) →
    jobPolling cl jobURL s2 = (inr jobStatus, s3, t3) →
    buildPipeline cfg transactionTimePtr
      (setBox s3 (Some (TransactionTime jobStatus)))
    = (inr pipeline, s4, t4) →
    downloading cfg cl pipeline jobStatus s4 = (inr tt, s5, t5) →
    finalizing pipeline s5 = (inl o, s6, t6) →
    BodyRun cfg s0 o s6
      (t1 ++ t2 ++ t3 ++ recorded jobStatus ++ t4 ++ t5 ++ t6)
| run_uncommitted cl sinceStore since s1 t1 jobURL s2 t2 jobStatus s3 t3
    pipeline s4 t4 s5 t5 s6 t6 o s7 t7 :
    configuring cfg s0 = (inr (cl, sinceStore, since), s1, t1) →
    jobResolving cfg cl since (setBox s1 None) = (inr jobURL, s2, t2) →
    jobPolling cl jobURL s2 = (inr jobStatus, s3, t3) →
    buildPipeline cfg transactionTimePtr
      (setBox s3 (Some (TransactionTime jobStatus)))
    = (inr pipeline, s4, t4) →
    downloading cfg cl pipeline jobStatus s4 = (inr tt, s5, t5) →
    finalizing pipeline s5 = (inr tt, s6, t6) →
    checkpointCommitting sinceStore jobStatus s6 = (inl o, s7, t7) →
    BodyRun cfg s0 o s7
      (t1 ++ t2 ++ t3 ++ recorded jobStatus ++ t4 ++ t5 ++ t6 ++ t7)
| run_complete cl sinceStore since s1 t1 jobURL s2 t2 jobStatus s3 t3
    pipeline s4 t4 s5 t5 s6 t6 s7 t7 :
    configuring cfg s0 = (inr (cl, sinceStore, since), s1, t1) →
    jobResolving cfg cl since (setBox s1 None) = (inr jobURL, s2, t2) →
    jobPolling cl jobURL s2 = (inr jobStatus, s3, t3) →
    buildPipeline cfg transactionTimePtr
      (setBox s3 (Some (TransactionTime jobStatus)))
    = (inr pipeline, s4, t4) →
    downloading cfg cl pipeline jobStatus s4 = (inr tt, s5, t5) →
    finalizing pipeline s5 = (inr tt, s6, t6) →
    checkpointCommitting sinceStore jobStatus s6 = (inr tt, s7, t7) →
    BodyRun cfg s0 (Returned None) s7
      (t1 ++ t2 ++ t3 ++ recorded jobStatus ++ t4 ++ t5 ++ t6 ++ t7
          ++ [EvLog LogComplete]).

(** The two ways [scanLoop] ends: every token processed, or the first
    failure. *)
Inductive ScanRun (rt : ResourceType) (url : string)
    (tokens : list (list byte)) : Outcome + unit → list Event → Prop :=
| scan_all :
    ScanRun rt url tokens (inr tt)
      (map (λ token, EvProcess rt url token None) tokens)
| scan_failed done token rest e :
    tokens = done ++ token :: rest →
    ScanRun rt url tokens (inl (Returned (Some e)))
      (map (λ token, EvProcess rt url token None) done
         ++ [EvProcess rt url token (Some e)]).

(** How the body of the inner loop goes for one URL. *)
Inductive URLRun (rt : ResourceType) (url : string)
  : Outcome + unit → list Event → Prop :=
| url_unfetched err t :
    Sound (Some (Returned (Some err))) t →
    fetchedURLs t = [] → processFailures t = [] →
    URLRun rt url (inl (Returned (Some err))) t
| url_fetched t' r scanned tscan :
    Sound None t' → fetchedURLs t' = [] → processFailures t' = [] →
    ScanRun rt url (scanLines r).1 scanned tscan →
    URLRun rt url
      (match scanned, (scanLines r).2 with
       | inl o, _ => inl o
       | inr _, Some err => inl (Returned (Some err))
       | inr _, None => inr tt
       end)
      (t' ++ EvGetData url (Ok r) :: tscan).

(** A body is sound when all its runs are. *)
Definition sound {A} (m : Go Outcome A) : Prop :=
  ∀ s r s' t, m s = (r, s', t) → Sound (exitOf r) t.

End Notions.

(** ** Calls that fail, deferred calls and records *)

(** The sleeps of a run, in order. *)
Definition sleeps (t : list Event) : list Duration :=
  omap (λ e, match e with EvSleep d => Some d | _ => None end) t.

(** The streams of the downloads that succeeded, in order, alone and
    with their URLs. *)
Definition readers (t : list Event) : list ReadCloser :=
  omap (λ e, match e with EvGetData _ (Ok r) => Some r | _ => None end) t.

Definition deliveries (t : list Event) : list (string * ReadCloser) :=
  omap (λ e, match e with
             | EvGetData url (Ok r) => Some (url, r)
             | _ => None
             end) t.

(** The streams closed, in order, and the results of the calls of the
    client's [Close]. *)
Definition readerCloses (t : list Event) : list ReadCloser :=
  omap (λ e, match e with EvReaderClose r => Some r | _ => None end) t.

Definition clientCloses (t : list Event) : list (option error) :=
  omap (λ e, match e with EvClientClose r => Some r | _ => None end) t.

(** The records given to [pipeline.Process], in order, with the URL
    they are said to come from. *)
Definition processed (t : list Event) : list (string * list byte) :=
  omap (λ e, match e with
             | EvProcess _ url token _ => Some (url, token)
             | _ => None
             end) t.

(** What the pipeline is to get for the downloads of [t]: the tokens of
    each stream, stream after stream. *)
Definition expected (t : list Event) : list (string * list byte) :=
  flat_map (λ '(url, r), map (pair url) (scanLines r).1) (deliveries t).

(** Lines written one after the other, each followed by [eol]. *)
Definition ndjson (eol : list byte) (lines : list (list byte)) : list byte :=
  flat_map (λ line, line ++ eol) lines.

(** A line a scanner of [maxTokenSize] gives back as it is when it is
    followed by [eol]: it has no newline, it fits the buffer with its
    end of line, and what [dropCR] would drop is not part of it. *)
Definition plain (eol : list byte) (line : list byte) : Prop :=
  ¬ In bufio.newline line
  ∧ (N.of_nat (length (line ++ eol)) ≤ maxTokenSize)%N
  ∧ (eol = [bufio.newline] → last line ≠ Some bufio.carriageReturn).

(** The error [mainWrapper] is to return for a call that failed, as
    the call site wraps it.  A failed [GetData] is not in this table
    ([getDataOrExit] may retry it), nor are the monitor's errors and the
    errors of the two [Close], which are logged or dropped. *)
Definition errorOf (e : Event) : option error :=
  match e with
  | EvNewHTTPBasicOAuthAuthenticator _ (Some err)
  | EvBulkfhirNewClient _ (Some err)
  | EvBcdaNewClient _ (Some err) =>
      Some (fmtError "Error making bulkfhir client: " err)      (* line 134 *)
  | EvNewInMemoryTransactionTimeStore since (Some err) =>
      if isEmpty since then Some err                    (* lines 328, 144 *)
      else Some (wrapError "invalid since timestamp: " err)  (* 315, 144 *)
  | EvNewGCSTransactionTimeStore _ (Some err) => Some err (* lines 321, 144 *)
  | EvLoad (Err err) =>
      Some (wrapError "invalid since timestamp: " err)          (* line 150 *)
  | EvStartBulkDataExport _ (Err err) =>
      Some (fmtError "unable to StartBulkDataExport: " err)     (* line 159 *)
  | EvNewNDJSONSink _ _ (Some err) =>
      Some (fmtError "error making ndjson sink: " err)          (* line 198 *)
  | EvNewFHIRStoreSink _ (Some err) =>
      Some (fmtError "error making FHIR Store sink: " err)      (* line 226 *)
  | EvNewPipeline _ _ (Some err) =>
      Some (fmtError "error making output pipeline: " err)      (* line 233 *)
  | EvAuthenticate (Some err) =>
      Some (errAuthenticating err)                         (* lines 277, 240 *)
  | EvProcess _ _ _ (Some err) => Some err                      (* line 247 *)
  | EvFinalize (Some err) =>
      Some (wrapError "failed to finalize output pipeline: " err) (* 257 *)
  | EvStore _ (Some err) =>
      Some (fmtError "failed to store transaction timestamp: " err) (* 261 *)
  | _ => None
  end.

(** A piece of the run that ends with [x] ([None]: it goes on) stops at
    the first call that fails: no event of it but the last is one, and
    when the last is one the piece returns its error. *)
Definition Halting (x : option Outcome) (t : list Event) : Prop :=
  Forall (λ e, errorOf e = None) (removelast t)
  ∧ ∀ e err, last t = Some e → errorOf e = Some err →
             x = Some (Returned (Some err)).

(** The deferred calls a piece of the run leaves for its events [t], on
    top of those it found: the [Close] of each stream downloaded, the
    last one first. *)
Definition closesOf (t : list Event) : list ReadCloser := reverse (readers t).

(** The events of the deferred call of the client's [Close] that
    returns [res], lines 136-140. *)
Definition clientClosed (res : option error) : list Event :=
  EvClientClose res
  :: match res with
     | Some e => [EvLog (LogCloseError e)]
     | None => []
     end.

(** An event of the downloading phase that is of a URL of [plan], under
    the resource type [plan] gives it. *)
Definition planned (plan : list (ResourceType * string)) (e : Event) : Prop :=
  match e with
  | EvGetData url _ => ∃ rt, In (rt, url) plan
  | EvProcess rt url _ _ => In (rt, url) plan
  | _ => True
  end.

(** The flags pass the checks of lines 109-126. *)
Definition checkedFlags (cfg : mainWrapperConfig) : Prop :=
  clientID cfg ≠ "" ∧ clientSecret cfg ≠ ""
  ∧ (enableFHIRStore cfg = true →
     rectify cfg = true
     ∧ fhirStoreGCPProject cfg ≠ "" ∧ fhirStoreGCPLocation cfg ≠ ""
     ∧ fhirStoreGCPDatasetID cfg ≠ "" ∧ fhirStoreID cfg ≠ "")
  ∧ (fhirStoreEnableGCSBasedUpload cfg = true →
     fhirStoreGCSBasedUploadBucket cfg ≠ "").

(** The warning of lines 128-130, logged when the flags ask for no
    output. *)
Definition warned (cfg : mainWrapperConfig) : list Event :=
  if isEmpty (outputPrefix cfg) && negb (enableFHIRStore cfg)
  then [EvLog LogNoOutput] else [].

(** The events of [getBulkFHIRClient], lines 294-303: with
    [enable_generalized_bulk_import] the authenticator, whose
    constructor returns [auth], and when that is no error the generalized
    client after it; without the flag the BCDA client alone.  [res] is
    what the constructor of the client returns. *)
Definition clientMade (cfg : mainWrapperConfig) (auth res : option error)
  : list Event :=
  if useGeneralizedBulkImport cfg then
    EvNewHTTPBasicOAuthAuthenticator (authURL cfg) auth
    :: match auth with
       | None => [EvBulkfhirNewClient (baseServerURL cfg) res]
       | Some _ => []
       end
  else [EvBcdaNewClient (bcdaServerURL cfg) res].

(** [e] is the call of a constructor of an authenticator or a client. *)
Definition makesClient (e : Event) : Prop :=
  match e with
  | EvNewHTTPBasicOAuthAuthenticator _ _
  | EvBulkfhirNewClient _ _
  | EvBcdaNewClient _ _ => True
  | _ => False
  end.

(** What an event of the configuring phase says of the flags: the
    client and the store constructed are the ones the flags select. *)
Definition configured (cfg : mainWrapperConfig) (e : Event) : Prop :=
  match e with
  | EvLog LogNoOutput =>
      outputPrefix cfg = "" ∧ enableFHIRStore cfg = false
  | EvNewHTTPBasicOAuthAuthenticator url _ =>
      useGeneralizedBulkImport cfg = true ∧ url = authURL cfg
  | EvBulkfhirNewClient url _ =>
      useGeneralizedBulkImport cfg = true ∧ url = baseServerURL cfg
  | EvBcdaNewClient url _ =>
      useGeneralizedBulkImport cfg = false ∧ url = bcdaServerURL cfg
  | EvNewInMemoryTransactionTimeStore s _ =>
      s = since cfg ∧ sinceFile cfg = ""
  | EvNewGCSTransactionTimeStore path _ =>
      path = sinceFile cfg ∧ since cfg = ""
      ∧ strings_HasPrefix path "gs://" = true
  | _ => True
  end.

(** What an event of the building phase says of the flags: the sinks
    and the pipeline constructed are the ones the flags ask for. *)
Definition built (cfg : mainWrapperConfig) (e : Event) : Prop :=
  match e with
  | EvNewNDJSONSink directory filePrefix _ =>
      outputPrefix cfg ≠ ""
      ∧ filepath_Split (outputPrefix cfg) = (directory, filePrefix)
  | EvLog LogFHIRStoreUpload => enableFHIRStore cfg = true
  | EvNewFHIRStoreSink c _ =>
      enableFHIRStore cfg = true
      ∧ c = fhirStoreSinkConfig cfg transactionTimePtr
  | EvNewPipeline processors sinks _ =>
      processors = (if rectify cfg then 1 else 0)%nat
      ∧ sinks = ((if nonEmpty (outputPrefix cfg) then 1 else 0)
                 + (if enableFHIRStore cfg then 1 else 0))%nat
  | _ => True
  end.

(** The place of a phase in the text of [mainWrapper]. *)
Definition phaseRank (P : Phase) : nat :=
  match P with
  | Configuring => 0
  | JobResolving => 1
  | JobPolling => 2
  | Recording => 3
  | Building => 4
  | Downloading => 5
  | Finalizing => 6
  | Committing => 7
  | Completing => 8
  | Leaving => 9
  end.

(** [e1] is of the phase of [e2] or of an earlier one. *)
Definition notAfter (e1 e2 : Event) : Prop :=
  (phaseRank (phaseOf e1) ≤ phaseRank (phaseOf e2))%nat.

(** Events in the order of the phases, none of a phase before the
    [n]th. *)
Definition orderedFrom (n : nat) (t : list Event) : Prop :=
  Forall (λ e, (n ≤ phaseRank (phaseOf e))%nat) t
  ∧ StronglySorted notAfter t.

(** The events of the job-resolving phase, lines 155-162, for the
    result [res] of [StartBulkDataExport]. *)
Definition exported (since : Time) (res : result string) : list Event :=
  EvStartBulkDataExport since res
  :: match res with
     | Ok jobURL => [EvLog (LogStartedJob jobURL)]
     | Err _ => []
     end.

Section Pieces.

Context {World : Type}.
Context `{!BulkFHIR World} `{!Processing World} `{!GoRuntime World}.

(** [m] leaves the stack of deferred calls as it found it. *)
Definition steady {R A} (m : Go R A) : Prop :=
  ∀ s r s' t, m s = (r, s', t) → deferred s' = deferred s.

(** What a piece of the downloading phase over the URLs of [plan] does,
    from the deferred calls [d] to [d'], ending with [x] after [t]:
    - it defers the [Close] of each stream it downloads, and nothing
      else;
    - it stops at the first failing call;
    - the records it gives to the pipeline are the tokens of the streams
      it downloads, in order, up to where it stops;
    - its downloads and records are of URLs of the plan. *)
Definition Downloaded (plan : list (ResourceType * string))
    (x : option Outcome) (d d' : list Deferred) (t : list Event) : Prop :=
  d' = map DeferReaderClose (closesOf t) ++ d
  ∧ Halting x t
  ∧ processed t `prefix_of` expected t
  ∧ (x = None → processed t = expected t)
  ∧ Forall (planned plan) t.

(** When [m] returns from [mainWrapper], it returns an error. *)
Definition erring {A} (m : Go Outcome A) : Prop :=
  ∀ s o s' t, m s = (inl o, s', t) → ∃ err, o = Returned (Some err).

End Pieces.

(** * Example environments *)

Module FetchExamples.

Definition url : string := "https://example.org/data/patient.ndjson".

Definition reader : ReadCloser :=
  {| body := [x7b; x7d; x0a]; readErr := None |}.

Definition world (downloads : list (result ReadCloser))
    (auths : list (option error)) : Fake.World :=
  {| Fake.newClient := None; Fake.newStore := None; Fake.load := Ok 0;
     Fake.startExport := Ok "job"; Fake.monitor := [];
     Fake.newSink := None; Fake.newPipeline := None;
     Fake.getData := downloads; Fake.authenticate := auths;
     Fake.process := []; Fake.finalize := None; Fake.store := None;
     Fake.reverseRange := false |}.

(** A server that answers unauthorized three times, then serves the file. *)
Definition recovering : Fake.World :=
  world [Err ErrorUnauthorized; Err ErrorUnauthorized;
         Err ErrorUnauthorized; Ok reader] [].

(** A server that answers unauthorized to every download. *)
Definition refusing : Fake.World :=
  world (repeat (Err ErrorUnauthorized) 6) [].

(** A server that answers unauthorized to the download and to the
    request for a new token. *)
Definition lockedOut : Fake.World :=
  world [Err ErrorUnauthorized]
        [Some (errorString "401 Unauthorized")].

Definition fetch (w : Fake.World) :=
  exec (getDataOrExit (World := Fake.World) tt url "id" "secret")
       (initial w).

End FetchExamples.

Module DownloadExamples.

Definition patientURL : string := "https://example.org/data/patient.ndjson".
Definition coverageURL : string := "https://example.org/data/coverage.ndjson".

Definition completed (urls : gmap ResourceType (list string))
  : list MonitorResult :=
  [ {| Status := {| IsComplete := false; ResultURLs := ∅;
                    PercentComplete := 50; TransactionTime := 0 |};
       Error := None |};
    {| Status := {| IsComplete := true; ResultURLs := urls;
                    PercentComplete := 100;
                    TransactionTime := 1620000000 |};
       Error := None |} ].

Definition world (urls : gmap ResourceType (list string))
    (downloads : list (result ReadCloser))
    (processed : list (option error)) (reversed : bool) : Fake.World :=
  {| Fake.newClient := None; Fake.newStore := None; Fake.load := Ok 0;
     Fake.startExport := Ok "https://example.org/jobs/1";
     Fake.monitor := completed urls;
     Fake.newSink := None; Fake.newPipeline := None;
     Fake.getData := downloads; Fake.authenticate := [];
     Fake.process := processed; Fake.finalize := None; Fake.store := None;
     Fake.reverseRange := reversed |}.

(** A monitor that gives up with the job at 50 percent. *)
Definition pending : MonitorResult :=
  {| Status := {| IsComplete := false; ResultURLs := ∅;
                  PercentComplete := 50; TransactionTime := 0 |};
     Error := None |}.

Definition stalled : Fake.World :=
  {| Fake.newClient := None; Fake.newStore := None; Fake.load := Ok 0;
     Fake.startExport := Ok "https://example.org/jobs/1";
     Fake.monitor := [pending];
     Fake.newSink := None; Fake.newPipeline := None;
     Fake.getData := []; Fake.authenticate := [];
     Fake.process := []; Fake.finalize := None; Fake.store := None;
     Fake.reverseRange := false |}.

Definition twoTypes : gmap ResourceType (list string) :=
  {[ "Patient" := [patientURL]; "Coverage" := [coverageURL] ]}.

(** A first record of one byte, then a record of 512001 bytes. *)
Definition longStream : ReadCloser :=
  {| body := [x78; x0a] ++ repeat x61 (N.to_nat (maxTokenSize + 1));
     readErr := None |}.


Definition patientOnly : gmap ResourceType (list string) :=
  {[ "Patient" := [patientURL] ]}.
(** A completed job with one URL, whose download gives [r]. *)
Definition serving (r : ReadCloser) (processed : list (option error))
  : Fake.World :=
  world patientOnly [Ok r] processed false.

(** The events of a run over [serving] up to its download. *)
Definition setup : list Event :=
  [EvBcdaNewClient "https://sandbox.bcda.cms.gov" None;
   EvNewInMemoryTransactionTimeStore "" None;
   EvLoad (Ok 0);
   EvStartBulkDataExport 0 (Ok "https://example.org/jobs/1");
   EvLog (LogStartedJob "https://example.org/jobs/1");
   EvMonitorJobStatus "https://example.org/jobs/1"
     (completed patientOnly);
   EvLog (LogPending 50); EvTransactionTimeSet 1620000000;
   EvLog (LogJobFinished 1620000000); EvLog LogBeginDownload;
   EvNewNDJSONSink "out/" "fetch_" None;
   EvNewPipeline 0 1 None].

(** A configuration that sets both the since flag and a since file. *)
Definition twoSources : mainWrapperConfig :=
  Fake.configure "id" "secret" "2020-01-01T00:00:00.000-00:00"
    "gs://bucket/since.txt".

(** A configuration without a client ID. *)
Definition anonymous : mainWrapperConfig :=
  Fake.configure "" "secret" "" "".

End DownloadExamples.

Module RunExamples.

#[global] Instance endpoints : Endpoints := {|
  fhirstore_DefaultHealthcareEndpoint := "https://healthcare.googleapis.com/";
  gcs_DefaultCloudStorageEndpoint := "https://storage.googleapis.com/"
|}.

(** Flags for an upload to a FHIR store through GCS, with no file
    output. *)
Definition uploading : flags.Values := {|
  flags.clientID := "id";
  flags.clientSecret := "secret";
  flags.outputPrefix := "";
  flags.rectify := true;
  flags.enableFHIRStore := true;
  flags.maxFHIRStoreUploadWorkers := 10;
  flags.fhirStoreGCPProject := "project";
  flags.fhirStoreGCPLocation := "us-east4";
  flags.fhirStoreGCPDatasetID := "dataset";
  flags.fhirStoreID := "store";
  flags.fhirStoreUploadErrorFileDir := "";
  flags.fhirStoreEnableBatchUpload := false;
  flags.fhirStoreBatchUploadSize := 0;
  flags.fhirStoreEnableGCSBasedUpload := true;
  flags.fhirStoreGCSBasedUploadBucket := "bucket";
  flags.bcdaServerURL := "https://sandbox.bcda.cms.gov";
  flags.enableGeneralizedBulkImport := false;
  flags.baseServerURL := "";
  flags.authURL := "";
  flags.fhirAuthScopes := "";
  flags.since := "";
  flags.sinceFile := "";
  flags.noFailOnUploadErrors := false;
  flags.pendingJobURL := ""
|}.

(** Flags for a server other than BCDA, with two scopes. *)
Definition generalized : flags.Values := {|
  flags.clientID := "id";
  flags.clientSecret := "secret";
  flags.outputPrefix := "out/fetch_";
  flags.rectify := false;
  flags.enableFHIRStore := false;
  flags.maxFHIRStoreUploadWorkers := 10;
  flags.fhirStoreGCPProject := "";
  flags.fhirStoreGCPLocation := "";
  flags.fhirStoreGCPDatasetID := "";
  flags.fhirStoreID := "";
  flags.fhirStoreUploadErrorFileDir := "";
  flags.fhirStoreEnableBatchUpload := false;
  flags.fhirStoreBatchUploadSize := 0;
  flags.fhirStoreEnableGCSBasedUpload := false;
  flags.fhirStoreGCSBasedUploadBucket := "";
  flags.bcdaServerURL := "https://sandbox.bcda.cms.gov";
  flags.enableGeneralizedBulkImport := true;
  flags.baseServerURL := "https://fhir.example.org/api/v2";
  flags.authURL := "https://fhir.example.org/auth/token";
  flags.fhirAuthScopes := "system/Patient.read,system/Coverage.read";
  flags.since := "";
  flags.sinceFile := "";
  flags.noFailOnUploadErrors := false;
  flags.pendingJobURL := ""
|}.

(** A completed job with one URL, whose download is two records; the
    pipeline refuses the first. *)
Definition twoRecords : ReadCloser :=
  {| body := [x7b; x7d; x0a; x7b; x7d; x0a]; readErr := None |}.

Definition refused : Fake.World :=
  DownloadExamples.serving twoRecords [Some (errorString "processor failed")].

Definition served : Fake.World := DownloadExamples.serving twoRecords [].

End RunExamples.

(** * Properties *)

Section Properties.

Context {World : Type}.
Context `{!BulkFHIR World} `{!Processing World} `{!GoRuntime World}.

(** ** One fetch: [getDataOrExit] *)

Lemma downloads_app t1 t2 : downloads (t1 ++ t2) = downloads t1 ++ downloads t2.
Proof. apply omap_app. Qed.

Lemma authentications_app t1 t2 :
  authentications (t1 ++ t2) = authentications t1 ++ authentications t2.
Proof. apply omap_app. Qed.

Lemma List_last_cons {A} (x d : A) (l : list A) :
  List.last (x :: l) d = List.last l x.
Proof.
  revert x d. induction l as [|y l IH]; intros x d; [reflexivity|].
  change (List.last (x :: y :: l) d) with (List.last (y :: l) d).
  rewrite !IH. reflexivity.
Qed.

Lemma List_last_in {A} (d : A) (l : list A) : In (List.last l d) (d :: l).
Proof.
  revert d. induction l as [|y l IH]; intros d; [left; reflexivity|].
  rewrite List_last_cons. right. apply IH.
Qed.

Lemma getDataRetry_step cl url left res s :
  getDataRetry cl url (S left) res s =
  if retryable res then
    let '(err, w1) := Client_Authenticate cl (world s) in
    match err with
    | Some ae =>
        (inl (Err (errAuthenticating ae)), setWorld s w1,
         failedRetryEvents ae)
    | None =>
        let '(res', w2) := Client_GetData cl url w1 in
        let '(r, s', t) :=
          getDataRetry cl url left res' (setWorld (setWorld s w1) w2) in
        (r, s', retryEvents url res' ++ t)
    end
  else (inr res, s, []).
Proof.
  cbn [getDataRetry]. destruct (retryable res); [|reflexivity].
  unfold mbind, Go_bind, time_Sleep, log, emit, call, return_.
  cbn [world].
  destruct (Client_Authenticate cl (world s)) as [[ae|] w1]; [reflexivity|].
  cbn [world setWorld].
  destruct (Client_GetData cl url w1) as [res' w2].
  unfold setWorld; cbn.
  destruct (getDataRetry cl url left res' _) as [[r s'] t].
  reflexivity.
Qed.

(** The two ways the retry loop ends, entered with [res] and [left]
    retries to go: it runs out ([rs] are the results of the retries,
    all but the last of [res :: rs] ask for a retry, and the last does
    not or no retry is left), or a re-authentication fails. *)
Lemma getDataRetry_shape cl url left res s :
  let '(r, _, t) := getDataRetry cl url left res s in
  (∃ rs, (length rs ≤ left)%nat
         ∧ t = flat_map (retryEvents url) rs
         ∧ Forall (λ x, retryable x = true) (removelast (res :: rs))
         ∧ (retryable (List.last rs res) = false ∨ length rs = left)
         ∧ r = inr (List.last rs res))
  ∨ (∃ rs ae, (length rs < left)%nat
         ∧ t = flat_map (retryEvents url) rs ++ failedRetryEvents ae
         ∧ Forall (λ x, retryable x = true) (res :: rs)
         ∧ r = inl (Err (errAuthenticating ae))).
Proof.
  revert res s. induction left as [|left IH]; intros res s.
  - cbn. left. exists []. cbn. split_and!; auto using Forall_nil.
  - rewrite getDataRetry_step.
    destruct (retryable res) eqn:Hres.
    + destruct (Client_Authenticate cl (world s)) as [[ae|] w1].
      * right. exists [], ae. cbn. split_and!; auto using Forall with lia.
      * destruct (Client_GetData cl url w1) as [res' w2].
        specialize (IH res' (setWorld (setWorld s w1) w2)).
        destruct (getDataRetry cl url left res' _) as [[r s'] t].
        destruct IH as [(rs & Hlen & Ht & Hall & Hend & Hr)
                       |(rs & ae & Hlen & Ht & Hall & Hr)].
        -- left. exists (res' :: rs). subst t r. split_and!.
           ++ cbn; lia.
           ++ reflexivity.
           ++ change (removelast (res :: res' :: rs))
                with (res :: removelast (res' :: rs)).
              constructor; assumption.
           ++ destruct Hend as [Hend|Hend]; [left|right; cbn; lia].
              rewrite List_last_cons. assumption.
           ++ rewrite List_last_cons. reflexivity.
        -- right. exists (res' :: rs), ae. subst t r. split_and!.
           ++ cbn; lia.
           ++ reflexivity.
           ++ constructor; assumption.
           ++ reflexivity.
    + left. exists []. cbn. split_and!; auto using Forall_nil with lia.
Qed.

Lemma getDataOrExit_run cl url clientID clientSecret s res s' t :
  exec (getDataOrExit cl url clientID clientSecret) s = (res, s', t) →
  FetchRun url t res.
Proof.
  unfold exec, getDataOrExit, mbind, Go_bind, call.
  destruct (Client_GetData cl url (world s)) as [a0 w0].
  pose proof (getDataRetry_shape cl url 5 a0 (setWorld s w0)) as Hshape.
  destruct (getDataRetry cl url 5 a0 (setWorld s w0)) as [[r s1] t1].
  destruct Hshape as [(rs & Hlen & Ht & Hall & Hend & Hr)
                     |(rs & ae & Hlen & Ht & Hall & Hr)]; subst r t1.
  - destruct (List.last rs a0) as [rd|e] eqn:Hlast; cbn;
      intros [= <- <- <-].
    + change (Ok rd) with (fetched url (Ok rd)). rewrite <- Hlast.
      rewrite app_nil_r. constructor; try assumption.
      rewrite Hlast; assumption.
    + change (Err (wrapError ("Unable to GetData(" +:+ url +:+ ") ") e))
        with (fetched url (Err e)).
      rewrite <- Hlast, app_nil_r. constructor; try assumption.
      rewrite Hlast; assumption.
  - intros [= <- <- <-]. cbn [app]. constructor; assumption.
Qed.

Lemma downloads_retries url rs :
  downloads (flat_map (retryEvents url) rs) = rs.
Proof.
  induction rs as [|r rs IH]; [reflexivity|].
  change (flat_map (retryEvents url) (r :: rs))
    with (retryEvents url r ++ flat_map (retryEvents url) rs).
  rewrite downloads_app, IH. reflexivity.
Qed.

Lemma authentications_retries url rs :
  authentications (flat_map (retryEvents url) rs)
  = map (λ _, None) rs.
Proof.
  induction rs as [|r rs IH]; [reflexivity|].
  change (flat_map (retryEvents url) (r :: rs))
    with (retryEvents url r ++ flat_map (retryEvents url) rs).
  rewrite authentications_app, IH. reflexivity.
Qed.

(** C10.  When a re-authentication of [getDataOrExit] returns an error
    [ae], the call returns an error that wraps [ae] under the text
    [Error authenticating with API: ], and the failed [Authenticate] is
    the last thing the call does: no download and no retry follows it,
    whatever the number of retries left. *)
Theorem reauthentication_failure_ends_fetch
    cl url clientID clientSecret s res s' t ae :
  exec (getDataOrExit cl url clientID clientSecret) s = (res, s', t) →
  In (EvAuthenticate (Some ae)) t →
  res = Err (wrapError "Error authenticating with API: " ae)
  ∧ ∃ before, t = before ++ [EvAuthenticate (Some ae)]
              ∧ (length (downloads before) ≤ 5)%nat.
Proof.
  intros Hrun Hin. apply getDataOrExit_run in Hrun.
  destruct Hrun as [a0 rs Hlen Hall Hend|a0 rs ae' Hlen Hall].
  - exfalso. destruct Hin as [Hin|Hin]; [discriminate|].
    apply in_flat_map in Hin as (r & _ & Hin).
    cbn in Hin. intuition discriminate.
  - assert (ae' = ae) as ->.
    { destruct Hin as [Hin|Hin]; [discriminate|].
      apply in_app_or in Hin as [Hin|Hin].
      - apply in_flat_map in Hin as (r & _ & Hin).
        cbn in Hin. intuition discriminate.
      - cbn in Hin. intuition congruence. }
    split; [vm_compute; reflexivity|].
    exists (EvGetData url a0 :: flat_map (retryEvents url) rs
            ++ [EvSleep (2 * Second); EvLog LogRetry]).
    split.
    + cbn [app]. rewrite <- app_assoc. reflexivity.
    + change (EvGetData url a0 :: ?l) with ([EvGetData url a0] ++ l).
      rewrite !downloads_app, downloads_retries. cbn.
      rewrite app_nil_r. lia.
Qed.

(** C8.  When the environment answers the first three downloads of a
    call of [getDataOrExit] with errors classified unauthorized and the
    fourth with a stream, and gives a new token at each of the three
    re-authentications between them, the call returns that stream; it
    has made the four downloads and called [Authenticate] three times,
    each time after a sleep of two seconds. *)
Theorem three_unauthorized_then_success
    cl url clientID clientSecret s e1 e2 e3 r w1 w2 w3 w4 w5 w6 w7 :
  Client_GetData cl url (world s) = (Err e1, w1) →
  errors.Is (Some e1) ErrorUnauthorized = true →
  Client_Authenticate cl w1 = (None, w2) →
  Client_GetData cl url w2 = (Err e2, w3) →
  errors.Is (Some e2) ErrorUnauthorized = true →
  Client_Authenticate cl w3 = (None, w4) →
  Client_GetData cl url w4 = (Err e3, w5) →
  errors.Is (Some e3) ErrorUnauthorized = true →
  Client_Authenticate cl w5 = (None, w6) →
  Client_GetData cl url w6 = (Ok r, w7) →
  ∃ t,
    exec (getDataOrExit cl url clientID clientSecret) s
    = (Ok r, setWorld s w7, t)
    ∧ t = EvGetData url (Err e1)
          :: retryEvents url (Err e2) ++ retryEvents url (Err e3)
             ++ retryEvents url (Ok r)
    ∧ downloads t = [Err e1; Err e2; Err e3; Ok r]
    ∧ authentications t = [None; None; None].
Proof.
  intros G1 U1 A1 G2 U2 A2 G3 U3 A3 G4.
  assert (∀ e, errors.Is (Some e) ErrorUnauthorized = true →
               retryable (Err e) = true) as Hretry.
  { intros e He. unfold retryable. cbn [errOf]. rewrite He. reflexivity. }
  eexists. split; [|split; [reflexivity|split; reflexivity]].
  unfold exec, getDataOrExit. unfold mbind at 1. unfold Go_bind at 1.
  unfold call at 1. rewrite G1.
  unfold mbind, Go_bind.
  rewrite getDataRetry_step, (Hretry _ U1). cbn [world setWorld].
  rewrite A1, G2.
  rewrite getDataRetry_step, (Hretry _ U2). cbn [world setWorld].
  rewrite A2, G3.
  rewrite getDataRetry_step, (Hretry _ U3). cbn [world setWorld].
  rewrite A3, G4.
  rewrite getDataRetry_step. reflexivity.
Qed.

(** C2, as amended.  When every download attempt of a call of
    [getDataOrExit] fails with an error classified unauthorized or
    retryable and every re-authentication succeeds, the call makes
    exactly five retries, each after a sleep of two seconds and an
    [Authenticate], and returns an error that wraps the error of the last
    attempt under a text that names the URL. *)
Theorem retries_exhausted cl url clientID clientSecret s res s' t :
  exec (getDataOrExit cl url clientID clientSecret) s = (res, s', t) →
  Forall (λ r, retryable r = true) (downloads t) →
  Forall (λ a, a = None) (authentications t) →
  retries t = 5%nat
  ∧ ∃ a0 rs e,
      length rs = 5%nat
      ∧ t = EvGetData url a0 :: flat_map (retryEvents url) rs
      ∧ List.last rs a0 = Err e
      ∧ res = Err (wrapError ("Unable to GetData(" +:+ url +:+ ") ") e).
Proof.
  intros Hrun Hdl Hauth. apply getDataOrExit_run in Hrun.
  destruct Hrun as [a0 rs Hlen Hall Hend|a0 rs ae Hlen Hall].
  - change (EvGetData url a0 :: ?l) with ([EvGetData url a0] ++ l) in Hdl.
    rewrite downloads_app, downloads_retries in Hdl. cbn [downloads omap app] in Hdl.
    assert (retryable (List.last rs a0) = true) as Hlast.
    { rewrite Forall_forall in Hdl. apply Hdl.
      apply list_elem_of_In, List_last_in. }
    destruct Hend as [Hend|Hend]; [congruence|].
    destruct (List.last rs a0) as [r|e] eqn:Hl; [discriminate|].
    split.
    + unfold retries.
      change (EvGetData url a0 :: ?l) with ([EvGetData url a0] ++ l).
      rewrite downloads_app, downloads_retries. cbn. lia.
    + exists a0, rs, e. split_and!; auto.
  - exfalso.
    change (EvGetData url a0 :: ?l) with ([EvGetData url a0] ++ l) in Hauth.
    rewrite !authentications_app in Hauth.
    rewrite !Forall_app in Hauth. destruct Hauth as (_ & _ & Hauth).
    cbn in Hauth. inversion Hauth; discriminate.
Qed.

(** ** The phases of a run *)

Lemma inPhase_ret P {R A} (a : A) : inPhase P (mret a : Go R A).
Proof. intros s r s' t [= <- <- <-]. split; [constructor|reflexivity]. Qed.

Lemma inPhase_return P {R A} (o : R) : inPhase P (return_ o : Go R A).
Proof. intros s r s' t [= <- <- <-]. split; [constructor|reflexivity]. Qed.

Lemma inPhase_bind P {R A B} (m : Go R A) (k : A → Go R B) :
  inPhase P m → (∀ a, inPhase P (k a)) → inPhase P (m ≫= k).
Proof.
  intros Hm Hk s r s' t. unfold mbind, Go_bind.
  destruct (m s) as [[[o|a] s1] t1] eqn:Em.
  - intros [= <- <- <-]. exact (Hm _ _ _ _ Em).
  - destruct (k a s1) as [[b s2] t2] eqn:Ek. intros [= <- <- <-].
    destruct (Hm _ _ _ _ Em) as [H1 B1].
    destruct (Hk _ _ _ _ _ Ek) as [H2 B2].
    split; [apply Forall_app; auto | congruence].
Qed.

Lemma inPhase_call P {R A} (f : World → A * World) (ev : A → Event) :
  (∀ a, phaseOf (ev a) = P) → inPhase P (call f ev : Go R A).
Proof.
  intros Hev s r s' t. unfold call.
  destruct (f (world s)) as [a w]. intros [= <- <- <-].
  split; [repeat constructor; apply Hev | reflexivity].
Qed.

Lemma inPhase_callTT P {R A} (f : option Time → World → A * World)
    (ev : A → Event) :
  (∀ a, phaseOf (ev a) = P) → inPhase P (callTT f ev : Go R A).
Proof. intros Hev s. unfold callTT. apply inPhase_call, Hev. Qed.

Lemma inPhase_runtime P {R A} (f : World → A * World) :
  inPhase P (runtime f : Go R A).
Proof.
  intros s r s' t. unfold runtime.
  destruct (f (world s)) as [a w]. intros [= <- <- <-].
  split; [constructor | reflexivity].
Qed.

Lemma inPhase_emit P {R} (e : Event) :
  phaseOf e = P → inPhase P (emit e : Go R unit).
Proof.
  intros He s r s' t [= <- <- <-]. split; [repeat constructor; exact He|].
  reflexivity.
Qed.

Lemma inPhase_defer P {R} (d : Deferred) : inPhase P (defer d : Go R unit).
Proof. intros s r s' t [= <- <- <-]. split; [constructor|reflexivity]. Qed.

Lemma inPhase_fn P {R R'} (body : Go R R) :
  inPhase P body → inPhase P (fn body : Go R' R).
Proof.
  intros Hb s r s' t. unfold fn, exec.
  destruct (body s) as [[x s1] t1] eqn:Eb. intros [= <- <- <-].
  exact (Hb _ _ _ _ Eb).
Qed.

(** One step of a proof that a body belongs to a phase. *)
Create HintDb phases.

Ltac phase_step :=
  first
    [ solve [auto 2 with phases nocore]
    | apply inPhase_bind; [|intros ?]
    | apply inPhase_ret
    | apply inPhase_return
    | apply inPhase_call; intros ?; reflexivity
    | apply inPhase_callTT; intros ?; reflexivity
    | apply inPhase_runtime
    | apply inPhase_defer
    | apply inPhase_emit; reflexivity
    | apply inPhase_fn
    | match goal with
      | |- inPhase _ (match ?x with _ => _ end) => destruct x
      | |- inPhase _ (if ?b then _ else _) => destruct b
      | |- inPhase _ (let '(_, _) := ?x in _) => destruct x
      end ].

Ltac phase := repeat phase_step.

Lemma getDataOrExit_phase cl url clientID clientSecret :
  inPhase Downloading (getDataOrExit cl url clientID clientSecret).
Proof.
  assert (∀ left res, inPhase Downloading (getDataRetry cl url left res))
    as Hloop.
  { induction left as [|left IH]; intros res; cbn [getDataRetry].
    - phase.
    - unfold time_Sleep, log. phase. }
  unfold getDataOrExit. phase.
Qed.
#[local] Hint Resolve getDataOrExit_phase : phases.

Lemma getBulkFHIRClient_phase cfg : inPhase Configuring (getBulkFHIRClient cfg).
Proof. unfold getBulkFHIRClient. phase. Qed.
#[local] Hint Resolve getBulkFHIRClient_phase : phases.

Lemma getTransactionTimeStore_phase cfg :
  inPhase Configuring (getTransactionTimeStore cfg).
Proof. unfold getTransactionTimeStore. phase. Qed.
#[local] Hint Resolve getTransactionTimeStore_phase : phases.

Lemma configuring_phase cfg : inPhase Configuring (configuring cfg).
Proof.
  unfold configuring, checkFlags, log. phase.
Qed.
#[local] Hint Resolve configuring_phase : phases.

Lemma jobResolving_phase cfg cl since :
  inPhase JobResolving (jobResolving cfg cl since).
Proof. unfold jobResolving, log. phase. Qed.
#[local] Hint Resolve jobResolving_phase : phases.

Lemma monitorLoop_phase results monitorResult :
  inPhase JobPolling (monitorLoop results monitorResult).
Proof.
  revert monitorResult.
  induction results as [|r rest IH]; intros mr; cbn [monitorLoop].
  - phase.
  - unfold log. phase.
Qed.
#[local] Hint Resolve monitorLoop_phase : phases.

Lemma jobPolling_phase cl jobURL : inPhase JobPolling (jobPolling cl jobURL).
Proof. unfold jobPolling. phase. Qed.
#[local] Hint Resolve jobPolling_phase : phases.

Lemma buildPipeline_phase cfg ptr : inPhase Building (buildPipeline cfg ptr).
Proof. unfold buildPipeline, log. phase. Qed.
#[local] Hint Resolve buildPipeline_phase : phases.

Lemma scanLoop_phase pipeline rt url tokens :
  inPhase Downloading (scanLoop pipeline rt url tokens).
Proof.
  induction tokens as [|token rest IH]; cbn [scanLoop]; phase.
Qed.
#[local] Hint Resolve scanLoop_phase : phases.

Lemma fetchURL_phase cfg cl pipeline rt url :
  inPhase Downloading (fetchURL cfg cl pipeline rt url).
Proof.
  unfold fetchURL. phase.
Qed.
#[local] Hint Resolve fetchURL_phase : phases.

Lemma urlLoop_phase cfg cl pipeline rt urls :
  inPhase Downloading (urlLoop cfg cl pipeline rt urls).
Proof.
  induction urls as [|url rest IH]; cbn [urlLoop]; phase.
Qed.
#[local] Hint Resolve urlLoop_phase : phases.

Lemma resourceLoop_phase cfg cl pipeline entries :
  inPhase Downloading (resourceLoop cfg cl pipeline entries).
Proof.
  induction entries as [|[rt urls] rest IH]; cbn [resourceLoop]; phase.
Qed.
#[local] Hint Resolve resourceLoop_phase : phases.

Lemma downloading_phase cfg cl pipeline jobStatus :
  inPhase Downloading (downloading cfg cl pipeline jobStatus).
Proof. unfold downloading. phase. Qed.
#[local] Hint Resolve downloading_phase : phases.

Lemma finalizing_phase pipeline : inPhase Finalizing (finalizing pipeline).
Proof. unfold finalizing. phase. Qed.
#[local] Hint Resolve finalizing_phase : phases.

Lemma checkpointCommitting_phase sinceStore jobStatus :
  inPhase Committing (checkpointCommitting sinceStore jobStatus).
Proof. unfold checkpointCommitting. phase. Qed.
#[local] Hint Resolve checkpointCommitting_phase : phases.

Lemma runAllDeferred_phase ds : inPhase Leaving (runAllDeferred ds).
Proof.
  induction ds as [|d rest IH]; cbn [runAllDeferred]; phase.
  unfold runDeferred, log. phase.
Qed.
#[local] Hint Resolve runAllDeferred_phase : phases.

(** ** How far a run gets *)

Lemma omap_off_phase {A} (f : Event → option A) (P : Phase) t :
  Forall (λ e, phaseOf e = P) t →
  (∀ e, phaseOf e = P → f e = None) →
  omap f t = [].
Proof.
  intros Ht Hf. induction Ht as [|e t He _ IH]; [reflexivity|].
  cbn. rewrite (Hf e He). exact IH.
Qed.

Lemma body_run cfg s0 r s t :
  mainWrapperBody cfg s0 = (r, s, t) →
  BodyRun cfg s0 (match r with inl o => o | inr o => o end) s t.
Proof.
  unfold mainWrapperBody, mbind, Go_bind.
  destruct (configuring cfg s0) as [[[o|[[cl sinceStore] since]] s1] t1] eqn:E1.
  { intros [= <- <- <-]. eapply run_unconfigured; eauto. }
  unfold NewTransactionTime at 1.
  destruct (jobResolving cfg cl since (setBox s1 None))
    as [[[o|jobURL] s2] t2] eqn:E2.
  { intros [= <- <- <-]. cbn [app]. eapply run_unresolved; eauto. }
  destruct (jobPolling cl jobURL s2) as [[[o|jobStatus] s3] t3] eqn:E3.
  { intros [= <- <- <-]. cbn [app]. eapply run_unpolled; eauto. }
  unfold TransactionTime_Set at 1. unfold log, emit.
  destruct (buildPipeline cfg transactionTimePtr
              (setBox s3 (Some (TransactionTime jobStatus))))
    as [[[o|pipeline] s4] t4] eqn:E4.
  { intros [= <- <- <-]. cbn [app]. eapply run_unbuilt; eauto. }
  destruct (downloading cfg cl pipeline jobStatus s4)
    as [[[o|[]] s5] t5] eqn:E5.
  { intros [= <- <- <-]. cbn [app]. eapply run_undownloaded; eauto. }
  destruct (finalizing pipeline s5) as [[[o|[]] s6] t6] eqn:E6.
  { intros [= <- <- <-]. cbn [app]. eapply run_unfinalized; eauto. }
  destruct (checkpointCommitting sinceStore jobStatus s6)
    as [[[o|[]] s7] t7] eqn:E7.
  { intros [= <- <- <-]. cbn [app]. eapply run_uncommitted; eauto. }
  unfold return_. intros [= <- <- <-]. cbn [app].
  eapply run_complete; eauto.
Qed.

(** A call of [mainWrapper] is a run of its body followed by the
    deferred calls, which leave the box alone. *)
Lemma mainWrapper_run cfg w :
  ∃ s t_body t_left,
    BodyRun cfg (initial w) (outcome (mainWrapper cfg w)) s t_body
    ∧ Forall (λ e, phaseOf e = Leaving) t_left
    ∧ trace (mainWrapper cfg w) = t_body ++ t_left
    ∧ transactionTime (final (mainWrapper cfg w)) = transactionTime s.
Proof.
  unfold mainWrapper.
  destruct (mainWrapperBody cfg (initial w)) as [[r s] t] eqn:Eb.
  destruct (runAllDeferred (deferred s) s) as [[x s'] t'] eqn:Ed.
  destruct (runAllDeferred_phase _ _ _ _ _ Ed) as [Hp Hb].
  exists s, t, t'. cbn. split_and!; auto using body_run.
Qed.

(** ** Polling the job, and the transaction time *)

Lemma omap_split_unique {A} (f : Event → option A) l1 e1 r1 l2 e2 r2 :
  omap f l1 = [] → is_Some (f e1) → is_Some (f e2) →
  omap f r1 = [] →
  l1 ++ e1 :: r1 = l2 ++ e2 :: r2 →
  l2 = l1 ∧ e2 = e1 ∧ r2 = r1.
Proof.
  intros Hl He1 He2 Hr. revert l2.
  induction l1 as [|a l1 IH]; intros [|b l2] Heq; cbn in Heq.
  - injection Heq as -> ->. auto.
  - injection Heq as -> ->. exfalso.
    rewrite omap_app in Hr. cbn in Hr. destruct He2 as [x Hx].
    rewrite Hx in Hr. destruct (omap f l2); discriminate.
  - injection Heq as -> _. exfalso.
    cbn in Hl. destruct He2 as [x Hx]. rewrite Hx in Hl. discriminate.
  - injection Heq as -> Heq. cbn in Hl.
    destruct (f b); [discriminate|].
    destruct (IH Hl _ Heq) as (-> & -> & ->). auto.
Qed.

Ltac off_phase :=
  let e := fresh "e" in
  let He := fresh "He" in
  intros e He; destruct e;
  try match goal with m : LogMsg |- _ => destruct m end;
  cbn in He |- *; congruence.

Ltac read_traces :=
  unfold polls, exports, sets, finalizations, stores, processFailures,
    downloads, authentications, clients, recorded in *;
  rewrite ?app_nil_r in *;
  repeat (progress (cbn [omap list_omap app] in *; rewrite ?omap_app in *));
  repeat match goal with
    | H : Forall (λ e, phaseOf e = ?P) ?t |- context [omap ?f ?t] =>
        rewrite (omap_off_phase f P t H) by off_phase
    | H : Forall (λ e, phaseOf e = ?P) ?t, H' : context [omap ?f ?t] |- _ =>
        rewrite (omap_off_phase f P t H) in H' by off_phase
    end;
  cbn [omap list_omap app] in *;
  rewrite ?app_nil_r in *.

Ltac phases_with_box :=
  repeat match goal with
    | H : configuring _ _ = _ |- _ => apply configuring_phase in H as [? ?]
    | H : jobResolving _ _ _ _ = _ |- _ =>
        apply jobResolving_phase in H as [? ?]
    | H : jobPolling _ _ _ = _ |- _ => apply jobPolling_phase in H as [? ?]
    | H : buildPipeline _ _ _ = _ |- _ =>
        apply buildPipeline_phase in H as [? ?]
    | H : downloading _ _ _ _ _ = _ |- _ =>
        apply downloading_phase in H as [? ?]
    | H : finalizing _ _ = _ |- _ => apply finalizing_phase in H as [? ?]
    | H : checkpointCommitting _ _ _ = _ |- _ =>
        apply checkpointCommitting_phase in H as [? ?]
    end.

Lemma monitorLoop_last results monitorResult s r s' t :
  monitorLoop results monitorResult s = (r, s', t) →
  r = inr (match last results with
           | Some mr => Some mr
           | None => monitorResult
           end).
Proof.
  revert monitorResult s t.
  induction results as [|mr rest IH]; intros monitorResult s t.
  - intros [= <- <- <-]. reflexivity.
  - cbn [monitorLoop]. unfold mbind, Go_bind.
    destruct ((match Error mr with
               | Some e => log (LogMonitorError e)
               | None => mret ()
               end) s) as [[[o|[]] s1] t1] eqn:E1.
    { exfalso. destruct (Error mr); discriminate. }
    destruct ((if negb (IsComplete (Status mr))
               then if 0 <=? PercentComplete (Status mr)
                    then log (LogPending (PercentComplete (Status mr)))
                    else log LogPendingUnknown
               else mret ()) s1) as [[[o|[]] s2] t2] eqn:E2.
    { exfalso. destruct (negb _); [destruct (0 <=? _)|]; discriminate. }
    destruct (monitorLoop rest (Some mr) s2) as [[r' s3] t3] eqn:E3.
    intros [= <- <- <-]. rewrite (IH _ _ _ E3).
    rewrite last_cons. destruct (last rest); reflexivity.
Qed.

Lemma monitorLoop_polls results monitorResult s r s' t :
  monitorLoop results monitorResult s = (r, s', t) → polls t = [].
Proof.
  revert monitorResult s t.
  induction results as [|mr rest IH]; intros monitorResult s t.
  - intros [= <- <- <-]. reflexivity.
  - cbn [monitorLoop]. unfold mbind, Go_bind, log, emit, mret, Go_ret.
    destruct (Error mr); destruct (negb _); try destruct (0 <=? _);
      destruct (monitorLoop rest (Some mr) s) as [[r' s3] t3] eqn:E3;
      intros [= <- <- <-]; apply IH in E3; exact E3.
Qed.

(** What [jobPolling] makes of the monitor's results. *)
Lemma jobPolling_run cl jobURL s r s' t :
  jobPolling cl jobURL s = (r, s', t) →
  ∃ results,
    polls t = [results]
    ∧ match last results with
      | None => r = inl Panicked
      | Some mr =>
          if IsComplete (Status mr) then r = inr (Status mr)
          else r = inl (Returned (Some errJobTimeout))
      end.
Proof.
  intros Hrun. pose proof Hrun as Hphase.
  revert Hrun. unfold jobPolling, mbind, Go_bind, call.
  destruct (Client_MonitorJobStatus cl jobURL jobStatusPeriod
              jobStatusTimeout (world s)) as [results w1].
  destruct (monitorLoop results None (setWorld s w1))
    as [[r1 s1] t1] eqn:E1.
  pose proof (monitorLoop_last _ _ _ _ _ _ E1) as ->.
  apply monitorLoop_polls in E1.
  exists results. split.
  - destruct (last results) as [mr|]; [destruct (negb _)|];
      revert Hrun; intros [= <- <- <-]; unfold polls in *;
      rewrite ?app_nil_r; cbn; rewrite E1; reflexivity.
  - destruct (last results) as [mr|].
    + destruct (IsComplete (Status mr)); cbn in Hrun;
        revert Hrun; intros [= <- <- <-]; reflexivity.
    + revert Hrun; intros [= <- <- <-]; reflexivity.
Qed.

Lemma finalizing_run pipeline s r s' t :
  finalizing pipeline s = (r, s', t) →
  ∃ res,
    t = [EvFinalize res]
    ∧ match res with
      | Some e =>
          r = inl (Returned (Some (wrapError "failed to finalize output pipeline: " e)))
      | None => r = inr tt
      end.
Proof.
  unfold finalizing, mbind, Go_bind, callTT, call.
  destruct (Pipeline_Finalize pipeline (transactionTime s) (world s))
    as [[e|] w1]; intros [= <- <- <-]; eexists; split; reflexivity.
Qed.

Lemma checkpointCommitting_run sinceStore jobStatus s r s' t :
  checkpointCommitting sinceStore jobStatus s = (r, s', t) →
  ∃ res,
    t = [EvStore (TransactionTime jobStatus) res]
    ∧ match res with
      | Some e =>
          r = inl (Returned (Some (fmtError "failed to store transaction timestamp: " e)))
      | None => r = inr tt
      end.
Proof.
  unfold checkpointCommitting, mbind, Go_bind, call.
  destruct (TransactionTimeStore_Store sinceStore (TransactionTime jobStatus)
              (world s))
    as [[e|] w1]; intros [= <- <- <-]; eexists; split; reflexivity.
Qed.

(** C3.  When the monitor's results end with a status that is not
    complete, [mainWrapper] returns the timeout error of line 180 and the
    run has made no download, has not set the transaction time, and has
    called neither [Finalize] nor [Store]. *)
Theorem incomplete_job_times_out cfg w results mr :
  polls (trace (mainWrapper cfg w)) = [results] →
  last results = Some mr →
  IsComplete (Status mr) = false →
  outcome (mainWrapper cfg w) = Returned (Some errJobTimeout)
  ∧ downloads (trace (mainWrapper cfg w)) = []
  ∧ sets (trace (mainWrapper cfg w)) = []
  ∧ finalizations (trace (mainWrapper cfg w)) = []
  ∧ stores (trace (mainWrapper cfg w)) = [].
Proof.
  intros Hpolls Hlast Hinc.
  destruct (mainWrapper_run cfg w) as (s & tb & tl & Hbody & Hleft & Htr & _).
  rewrite Htr in *. clear Htr.
  destruct Hbody;
    try match goal with
      | H : jobPolling _ _ _ = _ |- _ =>
          let rs := fresh "rs" in
          let Hp := fresh "Hp" in
          let Hr := fresh "Hr" in
          destruct (jobPolling_run _ _ _ _ _ _ H) as (rs & Hp & Hr)
      end;
    phases_with_box; read_traces;
    try discriminate;
    try (rewrite Hp in Hpolls; injection Hpolls as ->;
         rewrite Hlast, Hinc in Hr; try discriminate).
  injection Hr as ->. auto.
Qed.

Lemma jobPolling_complete cl jobURL s jobStatus s' t :
  jobPolling cl jobURL s = (inr jobStatus, s', t) →
  ∃ results mr,
    polls t = [results] ∧ last results = Some mr
    ∧ IsComplete (Status mr) = true ∧ jobStatus = Status mr.
Proof.
  intros Hrun. destruct (jobPolling_run _ _ _ _ _ _ Hrun) as (rs & Hp & Hr).
  destruct (last rs) as [mr|] eqn:Hlast; [|discriminate].
  destruct (IsComplete (Status mr)) eqn:Hc; [|discriminate].
  injection Hr as ->. eauto 10.
Qed.

Lemma jobPolling_incomplete cl jobURL s o s' t :
  jobPolling cl jobURL s = (inl o, s', t) →
  ∃ results,
    polls t = [results]
    ∧ (last results = None
       ∨ ∃ mr, last results = Some mr ∧ IsComplete (Status mr) = false).
Proof.
  intros Hrun. destruct (jobPolling_run _ _ _ _ _ _ Hrun) as (rs & Hp & Hr).
  exists rs. split; [exact Hp|].
  destruct (last rs) as [mr|] eqn:Hlast; [|auto].
  destruct (IsComplete (Status mr)) eqn:Hc; [discriminate|eauto].
Qed.

Ltac polled :=
  match goal with
  | H : jobPolling _ _ _ = (inr _, _, _) |- _ =>
      let rs := fresh "rs" in
      let mr := fresh "mr" in
      let Hp := fresh "Hp" in
      let Hl := fresh "Hl" in
      let Hc := fresh "Hc" in
      destruct (jobPolling_complete _ _ _ _ _ _ H) as (rs & mr & Hp & Hl & Hc & ->)
  | H : jobPolling _ _ _ = (inl _, _, _) |- _ =>
      let rs := fresh "rs" in
      let Hp := fresh "Hp" in
      let Hl := fresh "Hl" in
      destruct (jobPolling_incomplete _ _ _ _ _ _ H) as (rs & Hp & Hl)
  | _ => idtac
  end.

Lemma recorded_split (t1 t2 t3 : list Event) jobStatus rest tl :
  (t1 ++ t2 ++ t3 ++ recorded jobStatus ++ rest) ++ tl
  = (t1 ++ t2 ++ t3)
    ++ EvTransactionTimeSet (TransactionTime jobStatus)
    :: (EvLog (LogJobFinished (TransactionTime jobStatus))
        :: EvLog LogBeginDownload :: rest ++ tl).
Proof. unfold recorded. rewrite <- !app_assoc. reflexivity. Qed.

(** C6.  In a call of [mainWrapper] the transaction time is set at most
    once, and the box ends with the value set (unset when nothing was
    set); a [Set] comes after the monitor's results ended with a complete
    status, whose transaction time it stores, and no [Set] follows it;
    and when the monitor's results end with a complete status the
    transaction time is set, once. *)
Theorem transaction_time_set_once cfg w :
  let run := mainWrapper cfg w in
  (sets (trace run) = [] ∧ transactionTime (final run) = None
   ∨ ∃ v, sets (trace run) = [v] ∧ transactionTime (final run) = Some v)
  ∧ (∀ before v after,
       trace run = before ++ EvTransactionTimeSet v :: after →
       (∃ results mr,
          polls before = [results] ∧ last results = Some mr
          ∧ IsComplete (Status mr) = true
          ∧ v = TransactionTime (Status mr))
       ∧ sets before = [] ∧ sets after = [])
  ∧ (∀ results mr,
       polls (trace run) = [results] → last results = Some mr →
       IsComplete (Status mr) = true →
       sets (trace run) = [TransactionTime (Status mr)]).
Proof.
  cbv zeta.
  destruct (mainWrapper_run cfg w) as (s & tb & tl & Hbody & Hleft & Htr & Hbox).
  rewrite Htr, Hbox. clear Htr Hbox.
  destruct Hbody; polled; phases_with_box.
  1-3: split; [left; split; [read_traces; reflexivity
                           | cbn [transactionTime setBox initial] in *; congruence]|];
       (split; [intros before v after Heq;
                apply (f_equal sets) in Heq; exfalso;
                read_traces; destruct (omap _ before); discriminate
               | intros results mr' Hpolls Hlast Hcomplete; exfalso;
                 read_traces; try discriminate]).
  1: { rewrite Hp in Hpolls. injection Hpolls as ->.
       destruct Hl as [Hl|(mr & Hl & Hc)]; congruence. }
  all: split; [right; eexists; split; [read_traces; reflexivity
                           | cbn [transactionTime setBox initial] in *; congruence]|].
  all: split;
    [ intros before v after Heq
    | intros results mr' Hpolls Hlast Hcomplete; read_traces;
      rewrite Hp in Hpolls; injection Hpolls as ->; congruence ].
  all: rewrite recorded_split in Heq;
       apply (omap_split_unique
                (λ e, match e with
                      | EvTransactionTimeSet v => Some v
                      | _ => None
                      end)) in Heq;
       [ destruct Heq as (Hb & Hv & Ha); subst before after;
         injection Hv as ->
       | read_traces; reflexivity | eexists; reflexivity
       | eexists; reflexivity | read_traces; reflexivity ].
  all: split; [exists rs, mr; split_and!; auto; read_traces; exact Hp|].
  all: split; read_traces; reflexivity.
Qed.

(** ** Configuration *)

Lemma two_sources cfg :
  (1 < length (checkpointSources cfg))%nat →
  nonEmpty (since cfg) && nonEmpty (sinceFile cfg) = true.
Proof.
  unfold checkpointSources.
  destruct (nonEmpty (since cfg)), (nonEmpty (sinceFile cfg)); cbn; auto; lia.
Qed.

(** One step of a symbolic run: a case on what the next test or call
    gives. *)
Ltac run_step :=
  match goal with
  | |- context [if ?b then _ else _] => destruct b eqn:?
  | |- context [match ?x with Ok _ => _ | Err _ => _ end] =>
      is_var x; destruct x
  | |- context [match ?x with Some _ => _ | None => _ end] =>
      is_var x; destruct x
  | |- context [let '(_, _) := ?x in _] =>
      lazymatch x with
      | context [match _ with _ => _ end] => fail
      | _ => destruct x as [? ?] eqn:?
      end
  end.

Lemma getTransactionTimeStore_both cfg s :
  nonEmpty (since cfg) && nonEmpty (sinceFile cfg) = true →
  exec (getTransactionTimeStore cfg) s = (Err errOnlyOneSince, s, []).
Proof.
  intros Hboth. unfold exec, getTransactionTimeStore. rewrite Hboth.
  reflexivity.
Qed.

Lemma configuring_both cfg s r s' t :
  nonEmpty (since cfg) && nonEmpty (sinceFile cfg) = true →
  configuring cfg s = (r, s', t) →
  ∃ e, r = inl (Returned (Some e))
       ∧ (clients t = [None] → e = errOnlyOneSince).
Proof.
  intros Hboth.
  unfold configuring, getTransactionTimeStore.
  rewrite Hboth.
  unfold checkFlags, fn, exec, getBulkFHIRClient, mbind, Go_bind, call,
    return_, log, emit, defer, mret, Go_ret.
  repeat run_step; intros [= <- <- <-]; eexists; (split; [reflexivity|]);
    cbn; try discriminate; reflexivity.
Qed.

(** C9.  A configuration that sets more than one checkpoint source sets
    both [since] and [since_file]: [getTransactionTimeStore] then returns
    its error without constructing a store, and [mainWrapper] returns an
    error (that one, once the client is constructed) in a run that
    starts no export job, monitors none, and downloads and stores
    nothing. *)
Theorem one_checkpoint_source cfg :
  (1 < length (checkpointSources cfg))%nat →
  (∀ s, exec (getTransactionTimeStore cfg) s = (Err errOnlyOneSince, s, []))
  ∧ ∀ w,
      (∃ e, outcome (mainWrapper cfg w) = Returned (Some e)
            ∧ (clients (trace (mainWrapper cfg w)) = [None] →
               e = errOnlyOneSince))
      ∧ exports (trace (mainWrapper cfg w)) = []
      ∧ polls (trace (mainWrapper cfg w)) = []
      ∧ downloads (trace (mainWrapper cfg w)) = []
      ∧ stores (trace (mainWrapper cfg w)) = [].
Proof.
  intros Hboth%two_sources. split.
  { intros s. apply getTransactionTimeStore_both, Hboth. }
  intros w.
  destruct (mainWrapper_run cfg w) as (s & tb & tl & Hbody & Hleft & Htr & _).
  rewrite Htr. clear Htr.
  destruct Hbody;
    match goal with
    | H : configuring _ _ = _ |- _ =>
        destruct (configuring_both _ _ _ _ _ Hboth H) as (e & He & Hcl);
        try discriminate He; apply configuring_phase in H as [? _]
    end.
  injection He as ->.
  split; [|read_traces; auto].
  exists e. split; [reflexivity|].
  intros Hc. apply Hcl. read_traces. exact Hc.
Qed.

(** C5.  With an empty client ID or an empty client secret,
    [mainWrapper] returns its credentials error at once: the run has no
    event, so no client is constructed and no call leaves the program,
    and the environment is as it was. *)
Theorem credentials_required cfg w :
  clientID cfg = "" ∨ clientSecret cfg = "" →
  mainWrapper cfg w
  = {| outcome := Returned (Some errCredentials);
       final := initial w;
       trace := [] |}.
Proof.
  intros Hempty.
  assert (isEmpty (clientID cfg) || isEmpty (clientSecret cfg) = true)
    as Hflag.
  { destruct Hempty as [-> | ->]; [reflexivity|apply orb_true_r]. }
  unfold mainWrapper, mainWrapperBody, configuring, checkFlags, mbind,
    Go_bind.
  rewrite Hflag. reflexivity.
Qed.

(** ** Downloading *)

Lemma scan_too_long max n held data rdErr :
  n = N.of_nat (length held) →
  (∃ record, In record (splitRecords held data)
             ∧ (max ≤ N.of_nat (length record))%N) →
  (bufio.scan max n held data rdErr).2 = Some ErrTooLong.
Proof.
  revert n held.
  induction data as [|b rest IH]; intros n held Hn (record & Hin & Hlen).
  - cbn in Hin. destruct Hin as [<-|[]]. rewrite length_reverse, <- Hn in Hlen.
    cbn. apply N.leb_le in Hlen. rewrite Hlen. reflexivity.
  - cbn [bufio.scan]. destruct (max <=? n)%N eqn:Hfull; [reflexivity|].
    apply N.leb_gt in Hfull. cbn [splitRecords] in Hin.
    destruct (Byte.eqb b bufio.newline).
    + destruct Hin as [<-|Hin].
      * rewrite length_reverse, <- Hn in Hlen. lia.
      * specialize (IH 0%N [] eq_refl (ex_intro _ record (conj Hin Hlen))).
        destruct (bufio.scan max 0 [] rest rdErr). exact IH.
    + apply IH; [cbn [length]; lia|eauto].
Qed.

Lemma oversize_unreadable r :
  oversize r = true → (scanLines r).2 = Some ErrTooLong.
Proof.
  unfold oversize, records, scanLines.
  intros (record & Hin & Hlen)%existsb_exists.
  apply scan_too_long; [reflexivity|].
  exists record. split; [exact Hin|]. apply N.ltb_lt in Hlen. lia.
Qed.

Lemma processFailures_first t perr l :
  processFailures t = perr :: l →
  ∃ before rt url token after,
    t = before ++ EvProcess rt url token (Some perr) :: after.
Proof.
  induction t as [|e t IH]; [discriminate|].
  destruct e as [| | | | | | | | | | | | | | | | |rt url token [err|]| | |];
    cbn; try (intros (b & rt' & u & tok & a & ->)%IH;
              eexists (_ :: b), rt', u, tok, a; reflexivity).
  intros [= -> _]. exists [], rt, url, token, t. reflexivity.
Qed.

Lemma app_split {A} (t1 t2 before after : list A) e :
  t1 ++ t2 = before ++ e :: after →
  (∃ after1, t1 = before ++ e :: after1 ∧ after = after1 ++ t2)
  ∨ (∃ before2, before = t1 ++ before2 ∧ t2 = before2 ++ e :: after).
Proof.
  revert before. induction t1 as [|a t1 IH]; intros before Heq.
  - right. exists before. auto.
  - destruct before as [|b before]; cbn in Heq.
    + injection Heq as -> <-. left. exists t1. auto.
    + injection Heq as -> Heq. destruct (IH _ Heq) as [(a1 & -> & ->)|(b2 & -> & ->)].
      * left. exists a1. auto.
      * right. exists b2. auto.
Qed.

Lemma fatalAt_more e after more err :
  fatalAt e (after ++ more) = Some err → fatalAt e after = Some err.
Proof.
  unfold fatalAt. destruct e as [| | | | | | | | | | | | | | |url res| | | | |];
    auto.
  unfold processFailures, authentications. rewrite !omap_app.
  destruct res as [r|e0].
  - destruct (scanLines r).2; [|auto].
    destruct (omap _ after); [|discriminate].
    cbn. destruct (omap _ more); [auto|discriminate].
  - destruct (omap _ after); [|discriminate].
    cbn. destruct (omap _ more); [auto|discriminate].
Qed.

Lemma fatalAt_phase e after err :
  fatalAt e after = Some err →
  phaseOf e = Downloading ∨ phaseOf e = Finalizing.
Proof. destruct e; cbn; auto; discriminate. Qed.

Lemma Sound_nil x : Sound x [].
Proof. split; intros [|? ?]; discriminate. Qed.

Lemma Sound_app x t1 t2 : Sound None t1 → Sound x t2 → Sound x (t1 ++ t2).
Proof.
  intros [F1 H1] [F2 H2]. split.
  - intros before e after err Heq Hf.
    apply app_split in Heq as [(a1 & -> & ->)|(b2 & -> & ->)].
    + apply fatalAt_more in Hf. specialize (F1 _ _ _ _ eq_refl Hf).
      discriminate.
    + eapply F2; eauto.
  - intros before url r after Heq Hr.
    apply app_split in Heq as [(a1 & -> & ->)|(b2 & -> & ->)].
    + destruct (H1 _ _ _ _ eq_refl Hr) as [Hx _]. congruence.
    + eapply H2; eauto.
Qed.

(** Events of other phases are neither fatal nor downloads. *)
Lemma Sound_off_phase x P t :
  Forall (λ e, phaseOf e = P) t →
  P ≠ Downloading → P ≠ Finalizing →
  Sound x t.
Proof.
  intros Ht Hd Hf. split.
  - intros before e after err -> Hfat.
    apply Forall_app in Ht as [_ Ht]. apply Forall_cons in Ht as [He _].
    apply fatalAt_phase in Hfat as [Hp|Hp]; congruence.
  - intros before url r after -> _.
    apply Forall_app in Ht as [_ Ht]. apply Forall_cons in Ht as [He _].
    cbn in He. congruence.
Qed.

(** After the end, the events of other phases change nothing. *)
Lemma Sound_left o P t tl :
  Sound (Some o) t →
  Forall (λ e, phaseOf e = P) tl →
  P ≠ Downloading → P ≠ Finalizing →
  Sound (Some o) (t ++ tl).
Proof.
  intros [F H] Hl Hd Hf. split.
  - intros before e after err Heq Hfat.
    apply app_split in Heq as [(a1 & -> & ->)|(b2 & -> & ->)].
    + apply fatalAt_more in Hfat. eapply F; eauto.
    + apply Forall_app in Hl as [_ Hl]. apply Forall_cons in Hl as [He _].
      apply fatalAt_phase in Hfat as [Hp|Hp]; congruence.
  - intros before url r after Heq Hr.
    apply app_split in Heq as [(a1 & -> & ->)|(b2 & -> & ->)].
    + destruct (H _ _ _ _ eq_refl Hr) as [Hx Hdl]. split; [exact Hx|].
      rewrite downloads_app, Hdl. cbn.
      apply omap_off_phase with (P := P); [exact Hl|off_phase].
    + apply Forall_app in Hl as [_ Hl]. apply Forall_cons in Hl as [He _].
      cbn in He. congruence.
Qed.

Lemma Sound_cons_inert x e t : inert e → Sound x t → Sound x (e :: t).
Proof.
  intros [Hf Hd] [F H]. split.
  - intros [|b before] e' after err [= -> ->] Hfat.
    + rewrite Hf in Hfat. discriminate.
    + eapply F; eauto.
  - intros [|b before] url r after [= -> ->] Hr.
    + exfalso. eapply Hd; eauto.
    + eapply H; eauto.
Qed.

Lemma Sound_inert x t : Forall inert t → Sound x t.
Proof.
  induction 1; [apply Sound_nil|apply Sound_cons_inert; assumption].
Qed.

(** A failed download that is followed by a re-authentication. *)
Lemma Sound_cons_retried x url e0 t :
  authentications t ≠ [] → Sound x t → Sound x (EvGetData url (Err e0) :: t).
Proof.
  intros Ha [F H]. split.
  - intros [|b before] e' after err [= <- ->] Hfat.
    + cbn in Hfat. destruct (authentications after); [congruence|discriminate].
    + eapply F; eauto.
  - intros [|b before] u r after; [discriminate|].
    intros [= <- ->] Hr. eapply H; eauto.
Qed.

(** An event that is fatal with [err] wherever it stands. *)
Lemma Sound_cons_fatal e err t :
  (∀ after err', fatalAt e after = Some err' → err' = err) →
  (∀ url r, e ≠ EvGetData url (Ok r)) →
  Sound (Some (Returned (Some err))) t →
  Sound (Some (Returned (Some err))) (e :: t).
Proof.
  intros Hf Hd [F H]. split.
  - intros [|b before] e' after err' [= -> ->] Hfat.
    + apply Hf in Hfat. congruence.
    + eapply F; eauto.
  - intros [|b before] url r after [= -> ->] Hr.
    + exfalso. eapply Hd; eauto.
    + eapply H; eauto.
Qed.

Lemma inert_sleep d : inert (EvSleep d).
Proof. split; [reflexivity|discriminate]. Qed.

Lemma inert_log m : inert (EvLog m).
Proof. split; [reflexivity|discriminate]. Qed.

Lemma inert_authenticated : inert (EvAuthenticate None).
Proof. split; [reflexivity|discriminate]. Qed.

Lemma inert_processed rt url token : inert (EvProcess rt url token None).
Proof. split; [reflexivity|discriminate]. Qed.

Lemma In_removelast {A} (x : A) (l : list A) :
  In x (removelast l) → In x l.
Proof.
  induction l as [|a [|b l] IH]; cbn; [tauto|tauto|].
  intros [->|Hin]; [left; reflexivity|right; apply IH, Hin].
Qed.

(** A successful download, followed by what the scan of its reader
    leaves. *)
Lemma Sound_cons_fetched x url r t :
  Sound x t →
  (∀ err, (scanLines r).2 = Some err → processFailures t = [] →
          x = Some (Returned (Some err))) →
  (unreadable r → x ≠ None) →
  downloads t = [] →
  Sound x (EvGetData url (Ok r) :: t).
Proof.
  intros [F H] Hscan Hstop Hdl. split.
  - intros [|b before] e' after err [= <- ->] Hfat; [|eapply F; eauto].
    cbn in Hfat. destruct (scanLines r).2 as [err'|]; [|discriminate].
    destruct (processFailures after) eqn:Hpf; [|discriminate].
    injection Hfat as ->. apply Hscan; reflexivity.
  - intros [|b before] u r' after.
    + intros [= <- <- ->] Hr. split; [apply Hstop, Hr|exact Hdl].
    + intros [= <- ->] Hr. eapply H; eauto.
Qed.

Lemma attempts_regroup url a0 rs :
  EvGetData url a0 :: flat_map (retryEvents url) rs
  = flat_map (attempt url) (removelast (a0 :: rs))
    ++ [EvGetData url (List.last rs a0)].
Proof.
  revert a0. induction rs as [|r rs IH]; intros a0; [reflexivity|].
  change (removelast (a0 :: r :: rs)) with (a0 :: removelast (r :: rs)).
  change (flat_map (retryEvents url) (r :: rs))
    with ([EvSleep (2 * Second); EvLog LogRetry; EvAuthenticate None]
          ++ EvGetData url r :: flat_map (retryEvents url) rs).
  rewrite IH, List_last_cons. reflexivity.
Qed.

Lemma retryable_Err res : retryable res = true → ∃ e, res = Err e.
Proof. destruct res; [discriminate|eauto]. Qed.

Lemma Sound_attempts x url rs t :
  Forall (λ r, retryable r = true) rs →
  Sound x t → Sound x (flat_map (attempt url) rs ++ t).
Proof.
  induction 1 as [|r rs Hr _ IH]; intros Ht; [exact Ht|].
  apply retryable_Err in Hr as [e ->].
  cbn [flat_map attempt app].
  apply Sound_cons_retried; [discriminate|].
  apply Sound_cons_inert; [apply inert_sleep|].
  apply Sound_cons_inert; [apply inert_log|].
  apply Sound_cons_inert; [apply inert_authenticated|].
  apply IH, Ht.
Qed.

Lemma fetchedURLs_attempts url rs :
  Forall (λ r, retryable r = true) rs →
  fetchedURLs (flat_map (attempt url) rs) = [].
Proof.
  induction 1 as [|r rs Hr _ IH]; [reflexivity|].
  apply retryable_Err in Hr as [e ->]. exact IH.
Qed.

Lemma processFailures_attempts url rs :
  processFailures (flat_map (attempt url) rs) = [].
Proof. induction rs as [|r rs IH]; [reflexivity|exact IH]. Qed.

Lemma fullyProcessed_app_l rt url t1 t2 :
  fullyProcessed rt url t1 → fullyProcessed rt url (t1 ++ t2).
Proof.
  intros (r & Hin & Herr & Htok). exists r.
  split_and!; auto using in_or_app.
Qed.

Lemma fullyProcessed_app_r rt url t1 t2 :
  fullyProcessed rt url t2 → fullyProcessed rt url (t1 ++ t2).
Proof.
  intros (r & Hin & Herr & Htok). exists r.
  split_and!; auto using in_or_app.
Qed.

Lemma Visited_nil : Visited [] (inr tt) [].
Proof.
  split; [apply prefix_nil|]. intros _. split_and!; auto.
  intros rt url [].
Qed.

Lemma Visited_stop p1 p2 o t :
  Visited p1 (inl o) t → Visited (p1 ++ p2) (inl o) t.
Proof.
  intros [Hp _]. split; [|discriminate].
  rewrite map_app. apply prefix_app_r, Hp.
Qed.

Lemma Visited_app p1 p2 r t1 t2 :
  Visited p1 (inr tt) t1 → Visited p2 r t2 → Visited (p1 ++ p2) r (t1 ++ t2).
Proof.
  intros [_ H1] [Hp2 H2]. destruct (H1 eq_refl) as (Hf1 & Hpf1 & Hall1).
  unfold Visited, fetchedURLs, processFailures in *.
  rewrite !omap_app, map_app, Hf1, Hpf1. split.
  - apply prefix_app, Hp2.
  - intros Hr. destruct (H2 Hr) as (Hf2 & Hpf2 & Hall2).
    rewrite Hf2, Hpf2. split_and!; auto.
    intros rt url [Hin|Hin]%in_app_or.
    + apply fullyProcessed_app_l, Hall1, Hin.
    + apply fullyProcessed_app_r, Hall2, Hin.
Qed.

Lemma scanLoop_run pipeline rt url tokens s r s' t :
  scanLoop pipeline rt url tokens s = (r, s', t) →
  ScanRun rt url tokens r t.
Proof.
  revert s t. induction tokens as [|token rest IH]; intros s t.
  - intros [= <- <- <-]. apply scan_all.
  - cbn [scanLoop]. unfold mbind, Go_bind, callTT, call.
    destruct (Pipeline_Process pipeline rt url token (transactionTime s)
                (world s)) as [[e|] w1].
    + intros [= <- <- <-]. apply (scan_failed _ _ _ [] token rest e).
      reflexivity.
    + destruct (scanLoop pipeline rt url rest (setWorld s w1))
        as [[r1 s1] t1] eqn:E1.
      intros [= <- <- <-]. apply IH in E1. destruct E1 as [|done tok rest' e ->].
      * apply (scan_all rt url (token :: rest)).
      * apply (scan_failed _ _ _ (token :: done) tok rest' e). reflexivity.
Qed.

(** What a call of [getDataOrExit] leaves to the run: with an error,
    a sound end; with a reader, sound events before the download that
    gave it. *)
Lemma getDataOrExit_sound cl url clientID clientSecret s res s' t :
  exec (getDataOrExit cl url clientID clientSecret) s = (res, s', t) →
  processFailures t = []
  ∧ match res with
    | Err err => Sound (Some (Returned (Some err))) t ∧ fetchedURLs t = []
    | Ok r =>
        ∃ t', t = t' ++ [EvGetData url (Ok r)]
              ∧ Sound None t' ∧ fetchedURLs t' = []
    end.
Proof.
  intros Hrun. apply getDataOrExit_run in Hrun.
  destruct Hrun as [a0 rs Hlen Hall Hend|a0 rs ae Hlen Hall].
  - rewrite attempts_regroup. unfold processFailures, fetchedURLs.
    rewrite !omap_app. fold (processFailures (flat_map (attempt url)
                                               (removelast (a0 :: rs)))).
    rewrite processFailures_attempts. split; [reflexivity|].
    destruct (List.last rs a0) as [r|e]; cbn [fetched].
    + eexists. split; [reflexivity|]. split.
      * rewrite <- (app_nil_r (flat_map _ _)).
        apply Sound_attempts; [exact Hall|apply Sound_nil].
      * apply fetchedURLs_attempts, Hall.
    + split.
      * apply Sound_attempts; [exact Hall|].
        apply Sound_cons_fatal; [| discriminate | apply Sound_nil].
        intros after err'. cbn. destruct (authentications after); congruence.
      * fold (fetchedURLs (flat_map (attempt url) (removelast (a0 :: rs)))).
        rewrite fetchedURLs_attempts by exact Hall. reflexivity.
  - change (EvGetData url a0 :: flat_map (retryEvents url) rs
              ++ failedRetryEvents ae)
      with ((EvGetData url a0 :: flat_map (retryEvents url) rs)
              ++ failedRetryEvents ae).
    rewrite attempts_regroup, <- app_assoc.
    assert (Forall (λ r, retryable r = true) (removelast (a0 :: rs))) as Hinit.
    { apply Forall_forall. intros r Hr. rewrite Forall_forall in Hall.
      apply Hall. apply list_elem_of_In. apply list_elem_of_In in Hr.
      apply In_removelast, Hr. }
    assert (∃ e, List.last rs a0 = Err e) as [e He].
    { apply retryable_Err. rewrite Forall_forall in Hall. apply Hall.
      apply list_elem_of_In, List_last_in. }
    rewrite He. unfold processFailures, fetchedURLs. rewrite !omap_app.
    fold (processFailures (flat_map (attempt url) (removelast (a0 :: rs)))).
    fold (fetchedURLs (flat_map (attempt url) (removelast (a0 :: rs)))).
    rewrite processFailures_attempts, fetchedURLs_attempts by exact Hinit.
    split; [reflexivity|]. split; [|reflexivity].
    apply Sound_attempts; [exact Hinit|].
    cbn [app failedRetryEvents].
    apply Sound_cons_retried; [discriminate|].
    apply Sound_cons_inert; [apply inert_sleep|].
    apply Sound_cons_inert; [apply inert_log|].
    apply Sound_cons_fatal; [| discriminate | apply Sound_nil].
    intros after err'. cbn. congruence.
Qed.

Lemma fetchURL_run cfg cl pipeline rt url s r s' t :
  fetchURL cfg cl pipeline rt url s = (r, s', t) → URLRun rt url r t.
Proof.
  unfold fetchURL, mbind, Go_bind, fn.
  destruct (exec (getDataOrExit cl url (clientID cfg) (clientSecret cfg)) s)
    as [[res s1] t1] eqn:E1.
  apply getDataOrExit_sound in E1 as [Hpf Hres].
  destruct res as [rd|err].
  - destruct Hres as (t' & -> & Hs & Hf).
    unfold defer. destruct (scanLines rd) as [tokens scanErr] eqn:Escan.
    destruct (scanLoop pipeline rt url tokens _) as [[scanned s2] t2] eqn:E2.
    apply scanLoop_run in E2.
    replace tokens with (scanLines rd).1 in E2 by (rewrite Escan; reflexivity).
    pose proof (url_fetched rt url t' rd scanned t2 Hs Hf) as Hrun.
    unfold processFailures in Hpf. rewrite omap_app in Hpf.
    apply app_eq_nil in Hpf as [Hpf _].
    specialize (Hrun Hpf E2). rewrite Escan in Hrun. cbn [snd] in Hrun.
    destruct scanned as [o|[]].
    + intros [= <- <- <-]. cbn [app]. rewrite <- app_assoc. exact Hrun.
    + destruct scanErr as [err|]; cbn; intros [= <- <- <-];
        rewrite ?app_nil_r, <- app_assoc; exact Hrun.
  - destruct Hres as [Hs Hf]. intros [= <- <- <-]. rewrite app_nil_r.
    apply url_unfetched; assumption.
Qed.

Lemma downloads_processed rt url (tokens : list (list byte)) :
  downloads (map (λ token, EvProcess rt url token None) tokens) = [].
Proof. induction tokens as [|tok l IH]; [reflexivity|exact IH]. Qed.

Lemma ScanRun_sound rt url r scanned tscan :
  ScanRun rt url (scanLines r).1 scanned tscan →
  Sound (exitOf (match scanned, (scanLines r).2 with
                 | inl o, _ => inl o
                 | inr _, Some err => inl (Returned (Some err))
                 | inr _, None => inr tt
                 end))
    (EvGetData url (Ok r) :: tscan).
Proof.
  intros [|done token rest e Htokens].
  - assert (Forall inert (map (λ token, EvProcess rt url token None)
                            (scanLines r).1)) as Hinert.
    { apply Forall_forall. intros e [tok [<- _]]%list_elem_of_In%in_map_iff.
      apply inert_processed. }
    apply Sound_cons_fetched.
    + apply Sound_inert, Hinert.
    + intros err -> _. reflexivity.
    + unfold unreadable. destruct (scanLines r).2; [discriminate|congruence].
    + apply downloads_processed.
  - cbn [exitOf].
    assert (Forall inert (map (λ token, EvProcess rt url token None) done))
      as Hinert.
    { apply Forall_forall. intros e' [tok [<- _]]%list_elem_of_In%in_map_iff.
      apply inert_processed. }
    apply Sound_cons_fetched.
    + apply Sound_app; [apply Sound_inert, Hinert|].
      apply Sound_cons_fatal; [|discriminate|apply Sound_nil].
      intros after err'. cbn. congruence.
    + intros err _ Hpf. exfalso. unfold processFailures in Hpf.
      rewrite omap_app in Hpf. apply app_eq_nil in Hpf as [_ Hpf].
      discriminate.
    + discriminate.
    + rewrite downloads_app, downloads_processed. reflexivity.
Qed.

Lemma URLRun_sound rt url r t : URLRun rt url r t → Sound (exitOf r) t.
Proof.
  intros [err t1 Hs _ _|t' rd scanned tscan Hs _ _ Hscan]; [exact Hs|].
  apply Sound_app; [exact Hs|]. apply (ScanRun_sound rt), Hscan.
Qed.

Lemma fetchedURLs_processed rt url (tokens : list (list byte)) :
  fetchedURLs (map (λ token, EvProcess rt url token None) tokens) = [].
Proof. induction tokens as [|tok l IH]; [reflexivity|exact IH]. Qed.

Lemma processFailures_processed rt url (tokens : list (list byte)) :
  processFailures (map (λ token, EvProcess rt url token None) tokens) = [].
Proof. induction tokens as [|tok l IH]; [reflexivity|exact IH]. Qed.

Lemma URLRun_visited rt url r t : URLRun rt url r t → Visited [(rt, url)] r t.
Proof.
  intros [err t1 _ Hf _|t' rd scanned tscan _ Hf Hpf Hscan].
  - split; [|discriminate]. rewrite Hf. apply prefix_nil.
  - assert (fetchedURLs tscan = []) as Hfs.
    { destruct Hscan; unfold fetchedURLs; rewrite ?omap_app;
        fold (fetchedURLs (map (λ token, EvProcess rt url token None)
                             (scanLines rd).1));
        try fold (fetchedURLs (map (λ token, EvProcess rt url token None)
                                 done));
        rewrite fetchedURLs_processed; reflexivity. }
    assert (fetchedURLs (t' ++ EvGetData url (Ok rd) :: tscan) = [url]) as Hfu.
    { unfold fetchedURLs in *. rewrite omap_app. cbn. rewrite Hf, Hfs.
      reflexivity. }
    split; [rewrite Hfu; reflexivity|].
    intros Hr. split; [exact Hfu|].
    destruct Hscan as [|done token rest e Htokens]; [|discriminate].
    destruct (scanLines rd).2 eqn:Herr; [discriminate|].
    split.
    + unfold processFailures in *. rewrite omap_app. cbn. rewrite Hpf.
      apply processFailures_processed.
    + intros rt' url' [[= <- <-]|[]]. exists rd. split_and!.
      * apply in_or_app. right. left. reflexivity.
      * exact Herr.
      * intros token Hin. apply in_or_app. right. right.
        apply in_map_iff. eauto.
Qed.

Lemma sound_bind {A B} (m : Go Outcome A) (k : A → Go Outcome B) :
  sound m → (∀ a, sound (k a)) → sound (m ≫= k).
Proof.
  intros Hm Hk s r s' t. unfold mbind, Go_bind.
  destruct (m s) as [[[o|a] s1] t1] eqn:Em.
  - intros [= <- <- <-]. exact (Hm _ _ _ _ Em).
  - destruct (k a s1) as [[b s2] t2] eqn:Ek. intros [= <- <- <-].
    apply Sound_app; [exact (Hm _ _ _ _ Em)|exact (Hk _ _ _ _ _ Ek)].
Qed.

Lemma sound_ret {A} (a : A) : sound (mret a).
Proof. intros s r s' t [= <- <- <-]. apply Sound_nil. Qed.

Lemma fetchURL_sound cfg cl pipeline rt url :
  sound (fetchURL cfg cl pipeline rt url).
Proof. intros s r s' t Hrun. eapply URLRun_sound, fetchURL_run, Hrun. Qed.

Lemma urlLoop_sound cfg cl pipeline rt urls :
  sound (urlLoop cfg cl pipeline rt urls).
Proof.
  induction urls as [|url rest IH]; cbn [urlLoop]; [apply sound_ret|].
  apply sound_bind; [apply fetchURL_sound|intros _; exact IH].
Qed.

Lemma resourceLoop_sound cfg cl pipeline entries :
  sound (resourceLoop cfg cl pipeline entries).
Proof.
  induction entries as [|[rt urls] rest IH]; cbn [resourceLoop];
    [apply sound_ret|].
  apply sound_bind; [apply urlLoop_sound|intros _; exact IH].
Qed.

Lemma downloading_sound cfg cl pipeline jobStatus :
  sound (downloading cfg cl pipeline jobStatus).
Proof.
  unfold downloading. apply sound_bind; [|intros ?; apply resourceLoop_sound].
  intros s r s' t. unfold runtime. destruct (mapRange _ _).
  intros [= <- <- <-]. apply Sound_nil.
Qed.

Lemma urlLoop_visited cfg cl pipeline rt urls s r s' t :
  urlLoop cfg cl pipeline rt urls s = (r, s', t) →
  Visited (map (pair rt) urls) r t.
Proof.
  revert s t. induction urls as [|url rest IH]; intros s t.
  - intros [= <- <- <-]. apply Visited_nil.
  - cbn [urlLoop]. unfold mbind, Go_bind.
    destruct (fetchURL cfg cl pipeline rt url s) as [[[o|[]] s1] t1] eqn:E1;
      apply fetchURL_run, URLRun_visited in E1.
    + intros [= <- <- <-]. apply (Visited_stop [(rt, url)]), E1.
    + destruct (urlLoop cfg cl pipeline rt rest s1) as [[r2 s2] t2] eqn:E2.
      intros [= <- <- <-]. apply IH in E2.
      apply (Visited_app [(rt, url)]); assumption.
Qed.

Lemma resourceLoop_visited cfg cl pipeline entries s r s' t :
  resourceLoop cfg cl pipeline entries s = (r, s', t) →
  Visited (visitPlan entries) r t.
Proof.
  revert s t. induction entries as [|[rt urls] rest IH]; intros s t.
  - intros [= <- <- <-]. apply Visited_nil.
  - cbn [resourceLoop]. unfold mbind, Go_bind.
    destruct (urlLoop cfg cl pipeline rt urls s) as [[[o|[]] s1] t1] eqn:E1;
      apply urlLoop_visited in E1.
    + intros [= <- <- <-]. apply (Visited_stop (map (pair rt) urls)), E1.
    + destruct (resourceLoop cfg cl pipeline rest s1) as [[r2 s2] t2] eqn:E2.
      intros [= <- <- <-]. apply IH in E2.
      apply (Visited_app (map (pair rt) urls)); assumption.
Qed.

(** The downloading phase visits the entries of the job's map in some
    order. *)
Lemma downloading_visited cfg cl pipeline jobStatus s r s' t :
  downloading cfg cl pipeline jobStatus s = (r, s', t) →
  ∃ entries,
    entries ≡ₚ map_to_list (ResultURLs jobStatus)
    ∧ Visited (visitPlan entries) r t.
Proof.
  unfold downloading, mbind, Go_bind, runtime.
  pose proof (mapRange_perm (ResultURLs jobStatus) (world s)) as Hperm.
  destruct (mapRange (ResultURLs jobStatus) (world s)) as [entries w1].
  destruct (resourceLoop cfg cl pipeline entries _) as [[r1 s1] t1] eqn:E1.
  intros [= <- <- <-]. exists entries. split; [exact Hperm|].
  apply resourceLoop_visited in E1. exact E1.
Qed.

(** ** The whole run *)

Lemma finalizing_sound pipeline : sound (finalizing pipeline).
Proof.
  intros s r s' t Hrun.
  destruct (finalizing_run _ _ _ _ _ Hrun) as ([e|] & -> & ->); cbn [exitOf].
  - apply Sound_cons_fatal; [|discriminate|apply Sound_nil].
    intros after err'. cbn. congruence.
  - apply Sound_cons_inert; [|apply Sound_nil].
    split; [reflexivity|discriminate].
Qed.

(** The part of a run up to and with the downloading phase is sound;
    so is a run as a whole, with its outcome. *)
Ltac sound_segments :=
  repeat first
    [ apply Sound_nil
    | match goal with
      | H : Forall (λ e, phaseOf e = ?P) ?t |- Sound _ ?t =>
          apply (Sound_off_phase _ P t H); discriminate
      | H : Forall (λ e, phaseOf e = ?P) ?tl |- Sound (Some _) (_ ++ ?tl) =>
          apply (fun Hs => Sound_left _ P _ tl Hs H ltac:(discriminate)
                             ltac:(discriminate))
      | H : downloading _ _ _ _ ?s = (?r, _, ?t) |- Sound _ ?t =>
          exact (downloading_sound _ _ _ _ _ _ _ _ H)
      | H : finalizing _ ?s = (?r, _, ?t) |- Sound _ ?t =>
          exact (finalizing_sound _ _ _ _ _ H)
      | |- Sound _ (recorded _) =>
          apply (Sound_off_phase _ Recording);
          [repeat constructor|discriminate|discriminate]
      | |- Sound _ [EvLog LogComplete] =>
          apply (Sound_off_phase _ Completing);
          [repeat constructor|discriminate|discriminate]
      | |- Sound _ (_ ++ _) => apply Sound_app
      end ].

Lemma mainWrapper_sound cfg w :
  Sound (Some (outcome (mainWrapper cfg w))) (trace (mainWrapper cfg w))
  ∧ (finalizations (trace (mainWrapper cfg w)) = [None] →
     Sound None (trace (mainWrapper cfg w))).
Proof.
  destruct (mainWrapper_run cfg w) as (s & tb & tl & Hbody & Hleft & Htr & _).
  rewrite Htr. clear Htr.
  destruct Hbody;
    repeat match goal with
      | H : configuring _ _ = _ |- _ => apply configuring_phase in H as [H _]
      | H : jobResolving _ _ _ _ = _ |- _ =>
          apply jobResolving_phase in H as [H _]
      | H : jobPolling _ _ _ = _ |- _ => apply jobPolling_phase in H as [H _]
      | H : buildPipeline _ _ _ = _ |- _ =>
          apply buildPipeline_phase in H as [H _]
      | H : checkpointCommitting _ _ _ = _ |- _ =>
          apply checkpointCommitting_phase in H as [H _]
      end.
  all: rewrite <- ?app_assoc.
  all: split.
  all: try (intros Hfin; exfalso; revert Hfin;
            repeat match goal with
              | H : downloading _ _ _ _ _ = _ |- _ =>
                  apply downloading_phase in H as [H _]
              | H : finalizing _ _ = (inl _, _, _) |- _ =>
                  let e := fresh "e" in
                  destruct (finalizing_run _ _ _ _ _ H) as ([e|] & -> & [=]);
                  clear H
              end;
            read_traces; discriminate).
  all: sound_segments.
  all: intros _; sound_segments.
Qed.

Ltac to_phases :=
  repeat match goal with
    | H : configuring _ _ = _ |- _ => apply configuring_phase in H as [H _]
    | H : jobResolving _ _ _ _ = _ |- _ =>
        apply jobResolving_phase in H as [H _]
    | H : jobPolling _ _ _ = _ |- _ => apply jobPolling_phase in H as [H _]
    | H : buildPipeline _ _ _ = _ |- _ =>
        apply buildPipeline_phase in H as [H _]
    | H : downloading _ _ _ _ _ = _ |- _ =>
        apply downloading_phase in H as [H _]
    | H : finalizing _ _ = _ |- _ => apply finalizing_phase in H as [H _]
    | H : checkpointCommitting _ _ _ = _ |- _ =>
        apply checkpointCommitting_phase in H as [H _]
    end.

(** What [Finalize] and [Store] did in a run, by how far the run got. *)
Ltac finalized :=
  repeat match goal with
    | H : finalizing _ _ = (inl _, _, _) |- _ =>
        let e := fresh "e" in
        destruct (finalizing_run _ _ _ _ _ H) as ([e|] & -> & [=]); clear H
    | H : finalizing _ _ = (inr _, _, _) |- _ =>
        let e := fresh "e" in
        destruct (finalizing_run _ _ _ _ _ H) as ([e|] & -> & [=]); clear H
    | H : checkpointCommitting _ _ _ = (inl _, _, _) |- _ =>
        let e := fresh "e" in
        destruct (checkpointCommitting_run _ _ _ _ _ _ H)
          as ([e|] & -> & [=]); clear H
    | H : checkpointCommitting _ _ _ = (inr _, _, _) |- _ =>
        let e := fresh "e" in
        destruct (checkpointCommitting_run _ _ _ _ _ _ H)
          as ([e|] & -> & [=]); clear H
    end.

(** A run that called [Finalize] had a complete job and processed every
    URL of it in full. *)
Lemma mainWrapper_finalized cfg w :
  finalizations (trace (mainWrapper cfg w)) ≠ [] →
  processFailures (trace (mainWrapper cfg w)) = []
  ∧ ∃ results mr,
      polls (trace (mainWrapper cfg w)) = [results]
      ∧ last results = Some mr
      ∧ IsComplete (Status mr) = true
      ∧ ∀ rt urls url,
          ResultURLs (Status mr) !! rt = Some urls → In url urls →
          fullyProcessed rt url (trace (mainWrapper cfg w)).
Proof.
  destruct (mainWrapper_run cfg w) as (s & tb & tl & Hbody & Hleft & Htr & _).
  rewrite Htr. clear Htr. intros Hfin.
  destruct Hbody; finalized; polled;
    try match goal with
      | H : downloading _ _ _ _ _ = (inr _, _, _) |- _ =>
          let entries := fresh "entries" in
          let Hperm := fresh "Hperm" in
          let Hv := fresh "Hv" in
          destruct (downloading_visited _ _ _ _ _ _ _ _ H)
            as (entries & Hperm & _ & Hv);
          destruct (Hv eq_refl) as (_ & Hpf & Hall); clear Hv
      end;
    to_phases;
    try (exfalso; apply Hfin; read_traces; reflexivity).
  all: split; [read_traces; rewrite Hpf; reflexivity|].
  all: exists rs, mr; split; [read_traces; rewrite Hp; reflexivity|];
       split; [exact Hl|]; split; [exact Hc|].
  all: intros rt urls url Hlook Hin;
       assert (fullyProcessed rt url t5) as Hdone;
       [ apply Hall; unfold visitPlan; apply in_flat_map;
         exists (rt, urls); split;
         [ apply list_elem_of_In; rewrite Hperm;
           apply elem_of_map_to_list, Hlook
         | apply in_map, Hin ]
       | ].
  all: rewrite <- !app_assoc;
       repeat first [ apply fullyProcessed_app_l; exact Hdone
                    | apply fullyProcessed_app_r ].
Qed.

Lemma mainWrapper_stores cfg w :
  (length (stores (trace (mainWrapper cfg w))) ≤ 1)%nat
  ∧ (stores (trace (mainWrapper cfg w)) ≠ []
     ↔ finalizations (trace (mainWrapper cfg w)) = [None]).
Proof.
  destruct (mainWrapper_run cfg w) as (s & tb & tl & Hbody & Hleft & Htr & _).
  rewrite Htr. clear Htr.
  destruct Hbody; finalized; to_phases; read_traces; cbn;
    (split; [lia|]); split; congruence.
Qed.

(** In a run that called [Finalize], what came before is sound as a
    piece that goes on, and no download comes after. *)
Lemma mainWrapper_downloaded cfg w :
  finalizations (trace (mainWrapper cfg w)) ≠ [] →
  ∃ t_before t_after,
    trace (mainWrapper cfg w) = t_before ++ t_after
    ∧ Sound None t_before ∧ downloads t_after = [].
Proof.
  destruct (mainWrapper_run cfg w) as (s & tb & tl & Hbody & Hleft & Htr & _).
  rewrite Htr. clear Htr. intros Hfin.
  destruct Hbody;
    try (exfalso; apply Hfin; finalized; to_phases; read_traces;
         reflexivity).
  all: exists (t1 ++ t2 ++ t3 ++ recorded jobStatus ++ t4 ++ t5).
  1: exists (t6 ++ tl).
  2: exists (t6 ++ t7 ++ tl).
  3: exists (t6 ++ t7 ++ [EvLog LogComplete] ++ tl).
  all: split; [rewrite <- !app_assoc; reflexivity|].
  all: split;
    [ repeat match goal with
        | H : configuring _ _ = _ |- _ =>
            apply configuring_phase in H as [H _]
        | H : jobResolving _ _ _ _ = _ |- _ =>
            apply jobResolving_phase in H as [H _]
        | H : jobPolling _ _ _ = _ |- _ =>
            apply jobPolling_phase in H as [H _]
        | H : buildPipeline _ _ _ = _ |- _ =>
            apply buildPipeline_phase in H as [H _]
        end; sound_segments
    | finalized; to_phases; read_traces; reflexivity ].
Qed.

(** C1.  In a call of [mainWrapper]:
    - [Store] is called at most once, and it is called exactly when
      [Finalize] was called and returned no error;
    - [Finalize] is called only when the job was complete, every result
      URL of it was downloaded and scanned to the end of its stream, and
      every record was processed without error;
    - a fetch, scan or pipeline error ([fatalAt]) is what [mainWrapper]
      returns ([Finalize]'s under the text of line 257), and [Store] is
      not called in that run. *)
Theorem store_only_after_finalize cfg w :
  let run := mainWrapper cfg w in
  (length (stores (trace run)) ≤ 1)%nat
  ∧ (stores (trace run) ≠ [] ↔ finalizations (trace run) = [None])
  ∧ (finalizations (trace run) ≠ [] →
     processFailures (trace run) = []
     ∧ ∃ results mr,
         polls (trace run) = [results]
         ∧ last results = Some mr
         ∧ IsComplete (Status mr) = true
         ∧ ∀ rt urls url,
             ResultURLs (Status mr) !! rt = Some urls → In url urls →
             fullyProcessed rt url (trace run))
  ∧ (∀ before e after err,
       trace run = before ++ e :: after →
       fatalAt e after = Some err →
       outcome run = Returned (Some err) ∧ stores (trace run) = []).
Proof.
  cbv zeta. destruct (mainWrapper_stores cfg w) as [Hlen Hiff].
  split; [exact Hlen|]. split; [exact Hiff|].
  split; [apply mainWrapper_finalized|].
  intros before e after err Heq Hfat.
  destruct (mainWrapper_sound cfg w) as [[Hfatal _] Hnone].
  split; [injection (Hfatal _ _ _ _ Heq Hfat) as ->; reflexivity|].
  destruct (stores (trace (mainWrapper cfg w))) eqn:Hst; [reflexivity|].
  exfalso. assert (finalizations (trace (mainWrapper cfg w)) = [None]) as Hf.
  { apply Hiff. discriminate. }
  destruct (Hnone Hf) as [Hfatal' _].
  specialize (Hfatal' _ _ _ _ Heq Hfat). discriminate.
Qed.

(** C4, as amended.  For a job whose last status is complete, the
    downloads that succeed are those of a prefix of the job's URLs taken
    entry by entry in some order of the entries of its map (the order of
    the range, which the runtime chooses), each entry's URLs in the order
    of its list; they are all of them in a run that gets to [Finalize]. *)
Theorem visits_follow_the_range cfg w results mr :
  polls (trace (mainWrapper cfg w)) = [results] →
  last results = Some mr →
  IsComplete (Status mr) = true →
  ∃ entries,
    entries ≡ₚ map_to_list (ResultURLs (Status mr))
    ∧ fetchedURLs (trace (mainWrapper cfg w))
        `prefix_of` map snd (visitPlan entries)
    ∧ (finalizations (trace (mainWrapper cfg w)) ≠ [] →
       fetchedURLs (trace (mainWrapper cfg w)) = map snd (visitPlan entries)).
Proof.
  destruct (mainWrapper_run cfg w) as (s & tb & tl & Hbody & Hleft & Htr & _).
  rewrite Htr. clear Htr. intros Hpolls Hlast Hcomplete.
  destruct Hbody; polled;
    try match goal with
      | H : downloading _ _ _ _ _ = _ |- _ =>
          let entries := fresh "entries" in
          let Hperm := fresh "Hperm" in
          let Hpre := fresh "Hpre" in
          let Hv := fresh "Hv" in
          destruct (downloading_visited _ _ _ _ _ _ _ _ H)
            as (entries & Hperm & Hpre & Hv)
      end;
    finalized; to_phases.
  1-2: exfalso; read_traces; discriminate.
  1: { exfalso. read_traces. rewrite Hp in Hpolls. injection Hpolls as ->.
       destruct Hl as [Hl|(mr' & Hl & Hc)]; congruence. }
  all: assert (mr0 = mr) as ->
         by (read_traces; rewrite Hp in Hpolls; injection Hpolls as ->;
             congruence).
  1: { exists (map_to_list (ResultURLs (Status mr))).
       split; [reflexivity|]. unfold fetchedURLs. read_traces.
       split; [apply prefix_nil|]. intros Hfin. congruence. }
  all: exists entries; split; [exact Hperm|].
  all: unfold fetchedURLs in *; read_traces; unfold fetchedURLs in *.
  all: split; [exact Hpre|intros Hfin].
  1: congruence.
  all: apply Hv; reflexivity.
Qed.

(** C7, as amended.  When a download of a run gives a stream with a
    record larger than [maxTokenSize], [mainWrapper] returns an error:
    [bufio.ErrTooLong] when no [Process] fails after that download, and
    otherwise the error of the [Process] that fails; no download follows
    that one, and the run calls neither [Finalize] nor [Store]. *)
Theorem oversize_record_ends_run cfg w before url r after :
  trace (mainWrapper cfg w) = before ++ EvGetData url (Ok r) :: after →
  oversize r = true →
  (∃ err,
     outcome (mainWrapper cfg w) = Returned (Some err)
     ∧ match processFailures after with
       | [] => err = ErrTooLong
       | failure :: _ => err = failure
       end)
  ∧ downloads after = []
  ∧ finalizations (trace (mainWrapper cfg w)) = []
  ∧ stores (trace (mainWrapper cfg w)) = [].
Proof.
  intros Heq Hscan%oversize_unreadable.
  assert (unreadable r) as Hr by (unfold unreadable; congruence).
  destruct (mainWrapper_sound cfg w) as [[Hfatal Hhalt] _].
  assert (finalizations (trace (mainWrapper cfg w)) = []) as Hfin.
  { destruct (finalizations (trace (mainWrapper cfg w))) eqn:Hf;
      [reflexivity|exfalso].
    destruct (mainWrapper_downloaded cfg w) as (tb & ta & Htr & [_ Hs] & Hd);
      [congruence|].
    rewrite Htr in Heq.
    apply app_split in Heq as [(a1 & -> & ->)|(b2 & -> & ->)].
    - destruct (Hs _ _ _ _ eq_refl Hr) as [Hx _]. congruence.
    - rewrite downloads_app in Hd. destruct (downloads b2); discriminate. }
  split_and!.
  - destruct (processFailures after) as [|failure l] eqn:Hpf.
    + exists ErrTooLong. split; [|reflexivity].
      apply (inj Some), (Hfatal _ _ _ _ Heq).
      cbn. rewrite Hscan, Hpf. reflexivity.
    + exists failure. split; [|reflexivity].
      apply processFailures_first in Hpf as (b & rt & u & tok & a & ->).
      change (before ++ EvGetData url (Ok r)
                :: b ++ EvProcess rt u tok (Some failure) :: a)
        with (before ++ (EvGetData url (Ok r) :: b)
                ++ EvProcess rt u tok (Some failure) :: a) in Heq.
      rewrite app_assoc in Heq.
      apply (inj Some), (Hfatal _ _ _ _ Heq). reflexivity.
  - apply (Hhalt _ _ _ _ Heq Hr).
  - exact Hfin.
  - destruct (mainWrapper_stores cfg w) as [_ Hiff].
    destruct (stores (trace (mainWrapper cfg w))); [reflexivity|].
    exfalso.
    assert (finalizations (trace (mainWrapper cfg w)) = [None]) as Hf
      by (apply Hiff; discriminate).
    congruence.
Qed.

(** ** More on one fetch *)

Lemma sleeps_app t1 t2 : sleeps (t1 ++ t2) = sleeps t1 ++ sleeps t2.
Proof. apply omap_app. Qed.

Lemma sleeps_retries url rs :
  sleeps (flat_map (retryEvents url) rs) = map (λ _, 2 * Second) rs.
Proof.
  induction rs as [|r rs IH]; [reflexivity|].
  change (flat_map (retryEvents url) (r :: rs))
    with (retryEvents url r ++ flat_map (retryEvents url) rs).
  rewrite sleeps_app, IH. reflexivity.
Qed.

Lemma last_List_last {A} (x : A) (l : list A) :
  last (x :: l) = Some (List.last l x).
Proof.
  revert x. induction l as [|y l IH]; intros x; [reflexivity|].
  rewrite last_cons, IH, List_last_cons. reflexivity.
Qed.

Lemma Forall_removelast {A} (P : A → Prop) (l : list A) :
  Forall P l → Forall P (removelast l).
Proof.
  intros Hall. apply List.Forall_forall. intros x Hx%In_removelast.
  rewrite List.Forall_forall in Hall. apply Hall, Hx.
Qed.

(** What a call of [getDataOrExit] leaves in the trace, by the way it
    went. *)
Lemma fetch_readings url t res :
  FetchRun url t res →
  ∃ a0 rs tail,
    downloads t = a0 :: rs
    ∧ (length rs ≤ 5)%nat
    ∧ Forall (λ x, retryable x = true) (removelast (a0 :: rs))
    ∧ authentications t = map (λ _, None) rs ++ tail
    ∧ sleeps t = map (λ _, 2 * Second) (map (λ _, None) rs ++ tail)
    ∧ (tail = [] ∧ res = fetched url (List.last rs a0)
       ∨ ∃ ae, tail = [Some ae] ∧ res = Err (errAuthenticating ae)
               ∧ retryable (List.last rs a0) = true
               ∧ (length rs < 5)%nat).
Proof.
  intros [a0 rs Hlen Hall Hend|a0 rs ae Hlen Hall].
  - exists a0, rs, []. cbn [downloads authentications sleeps omap list_omap].
    fold (downloads (flat_map (retryEvents url) rs)).
    fold (authentications (flat_map (retryEvents url) rs)).
    fold (sleeps (flat_map (retryEvents url) rs)).
    rewrite downloads_retries, authentications_retries, sleeps_retries,
      !app_nil_r, !map_map.
    split_and!; auto.
  - exists a0, rs, [Some ae].
    cbn [downloads authentications sleeps omap list_omap].
    fold (downloads (flat_map (retryEvents url) rs ++ failedRetryEvents ae)).
    fold (authentications
            (flat_map (retryEvents url) rs ++ failedRetryEvents ae)).
    fold (sleeps (flat_map (retryEvents url) rs ++ failedRetryEvents ae)).
    rewrite downloads_app, authentications_app, sleeps_app,
      downloads_retries, authentications_retries, sleeps_retries.
    cbn [failedRetryEvents downloads authentications sleeps omap list_omap].
    rewrite app_nil_r, !map_app, !map_map.
    split_and!; auto; [lia|apply Forall_removelast, Hall|].
    right. exists ae. split_and!; auto.
    rewrite List.Forall_forall in Hall. apply Hall, List_last_in.
Qed.

(** X1.  A call of [getDataOrExit] makes at least one and at most six
    downloads and at most five re-authentications, and it sleeps two
    seconds before each re-authentication and at no other time. *)
Theorem fetch_attempts_bounded cl url clientID clientSecret s res s' t :
  exec (getDataOrExit cl url clientID clientSecret) s = (res, s', t) →
  (1 ≤ length (downloads t) ≤ 6)%nat
  ∧ (length (authentications t) ≤ 5)%nat
  ∧ sleeps t = map (λ _, 2 * Second) (authentications t).
Proof.
  intros Hrun%getDataOrExit_run%fetch_readings.
  destruct Hrun as (a0 & rs & tail & -> & Hlen & _ & -> & -> & Hend).
  rewrite length_app, length_map. cbn [length].
  split_and!; [lia|lia| |reflexivity].
  destruct Hend as [[-> _]|(ae & -> & _ & _ & Hlt)]; cbn; lia.
Qed.

(** X2.  Every download of a call of [getDataOrExit] but the last failed
    with an error classified unauthorized or retryable, and the call
    returns a stream exactly when its last download gave one: that
    stream. *)
Theorem fetch_returns_last_download
    cl url clientID clientSecret s res s' t :
  exec (getDataOrExit cl url clientID clientSecret) s = (res, s', t) →
  Forall (λ r, retryable r = true) (removelast (downloads t))
  ∧ ∀ r, res = Ok r ↔ last (downloads t) = Some (Ok r).
Proof.
  intros Hrun%getDataOrExit_run%fetch_readings.
  destruct Hrun as (a0 & rs & tail & -> & _ & Hall & _ & _ & Hend).
  split; [exact Hall|]. intros r. rewrite last_List_last.
  destruct Hend as [[_ ->]|(ae & _ & -> & Hre & _)].
  - destruct (List.last rs a0) as [r'|e]; cbn; split; congruence.
  - destruct (List.last rs a0) as [r'|e]; [discriminate|].
    split; congruence.
Qed.

(** X3.  The error a call of [getDataOrExit] returns wraps the error of
    its last download, or of the re-authentication that failed: what
    [errors.Is] finds in that cause it finds in the error returned. *)
Theorem fetch_error_keeps_cause
    cl url clientID clientSecret s s' t err :
  exec (getDataOrExit cl url clientID clientSecret) s = (Err err, s', t) →
  ∃ cause,
    (last (downloads t) = Some (Err cause)
     ∧ authentications t = map (λ _, None) (tail (downloads t))
     ∧ err = errUnableToGetData url cause
     ∨ last (authentications t) = Some (Some cause)
       ∧ err = errAuthenticating cause)
    ∧ ∀ target, errors.Is (Some cause) target = true →
                errors.Is (Some err) target = true.
Proof.
  intros Hrun%getDataOrExit_run%fetch_readings.
  destruct Hrun as (a0 & rs & tl & -> & _ & _ & -> & _ & Hend).
  rewrite last_List_last.
  assert (∀ msg cause target,
            errors.Is (Some cause) target = true →
            errors.Is (Some (wrapError msg cause)) target = true) as Hwrap.
  { intros msg cause target Hc. unfold errors.Is.
    change (Is' (wrapError msg cause) target)
      with (if errors.error_eq_dec (wrapError msg cause) target then true
            else Is' cause target).
    destruct (errors.error_eq_dec (wrapError msg cause) target); auto. }
  destruct Hend as [[-> Hres]|(ae & -> & [= ->] & _ & _)].
  - destruct (List.last rs a0) as [r'|e]; [discriminate|].
    injection Hres as ->. exists e. split; [|apply Hwrap].
    left. rewrite app_nil_r. auto.
  - exists ae. split; [|apply Hwrap]. right.
    rewrite last_snoc. auto.
Qed.

(** ** More on scanning *)

(** The scanner reads a line with no newline up to the newline that
    follows it. *)
Lemma scan_line max line n held data rdErr :
  ¬ In bufio.newline line →
  (n + N.of_nat (length line) < max)%N →
  bufio.scan max n held (line ++ bufio.newline :: data) rdErr
  = (bufio.dropCR (reverse line ++ held)
       :: (bufio.scan max 0 [] data rdErr).1,
     (bufio.scan max 0 [] data rdErr).2).
Proof.
  revert n held. induction line as [|b line IH]; intros n held Hnl Hlen.
  - cbn [app bufio.scan length] in *.
    assert ((max <=? n)%N = false) as -> by (apply N.leb_gt; lia).
    change (Byte.eqb bufio.newline bufio.newline) with true.
    destruct (bufio.scan max 0 [] data rdErr). reflexivity.
  - cbn [app bufio.scan length] in *.
    assert ((max <=? n)%N = false) as -> by (apply N.leb_gt; lia).
    destruct (Byte.eqb b bufio.newline) eqn:Hb.
    { exfalso. apply Hnl. left. symmetry. apply Byte.byte_dec_bl, Hb. }
    rewrite IH; [|intros Hin; apply Hnl; right; exact Hin|lia].
    rewrite reverse_cons, <- app_assoc. reflexivity.
Qed.

(** At the end of the input what is held is the last token. *)
Lemma scan_rest max rest n held rdErr :
  ¬ In bufio.newline rest →
  (n + N.of_nat (length rest) < max)%N →
  bufio.scan max n held rest rdErr
  = (if (n + N.of_nat (length rest) =? 0)%N then []
     else [bufio.dropCR (reverse rest ++ held)], rdErr).
Proof.
  revert n held. induction rest as [|b rest IH]; intros n held Hnl Hlen.
  - cbn [app bufio.scan length] in *.
    assert ((max <=? n)%N = false) as -> by (apply N.leb_gt; lia).
    rewrite N.add_0_r. reflexivity.
  - cbn [app bufio.scan length] in *.
    assert ((max <=? n)%N = false) as -> by (apply N.leb_gt; lia).
    destruct (Byte.eqb b bufio.newline) eqn:Hb.
    { exfalso. apply Hnl. left. symmetry. apply Byte.byte_dec_bl, Hb. }
    rewrite IH; [|intros Hin; apply Hnl; right; exact Hin|lia].
    rewrite reverse_cons, <- app_assoc.
    replace (n + 1 + N.of_nat (length rest))%N
      with (n + N.of_nat (S (length rest)))%N by lia.
    reflexivity.
Qed.

Lemma dropCR_reverse line :
  last line ≠ Some bufio.carriageReturn →
  bufio.dropCR (reverse line) = line.
Proof.
  destruct line as [|b line _] using rev_ind; [reflexivity|].
  rewrite last_snoc, reverse_snoc. intros Hne. cbn [bufio.dropCR].
  destruct (Byte.eqb b bufio.carriageReturn) eqn:Hb.
  - exfalso. apply Hne. f_equal. apply Byte.byte_dec_bl, Hb.
  - rewrite reverse_cons, reverse_involutive. reflexivity.
Qed.

Lemma dropCR_reverse_CR line :
  bufio.dropCR (reverse (line ++ [bufio.carriageReturn])) = line.
Proof. rewrite reverse_snoc. cbn. apply reverse_involutive. Qed.

(** X4.  A download of lines that each end with a newline, or each
    with a carriage return and a newline, and that fit the scanner's
    buffer, is given back line by line, without the ends of line; bytes
    after the last newline are a last token; and the error of the
    scan is the error of the stream's last read, if it has one.  An
    empty stream has no token. *)
Theorem scanLines_ndjson eol lines rest rdErr :
  eol = [bufio.newline] ∨ eol = [bufio.carriageReturn; bufio.newline] →
  Forall (plain eol) lines →
  plain [bufio.newline] rest →
  scanLines {| body := ndjson eol lines ++ rest; readErr := rdErr |}
  = (lines ++ (if decide (rest = []) then [] else [rest]), rdErr).
Proof.
  intros Heol Hlines (Hnl & Hlen & Hcr). unfold scanLines. cbn [body readErr].
  induction Hlines as [|line lines (Hnl1 & Hlen1 & Hcr1) _ IH].
  - cbn [ndjson flat_map app]. rewrite scan_rest; [|exact Hnl|].
    2: { rewrite length_app in Hlen. cbn in Hlen. lia. }
    rewrite app_nil_r. destruct rest as [|b rest]; [reflexivity|].
    rewrite decide_False by discriminate.
    replace (0 + N.of_nat (length (b :: rest)) =? 0)%N with false
      by (symmetry; apply N.eqb_neq; cbn [length]; lia).
    rewrite dropCR_reverse by (apply Hcr; reflexivity). reflexivity.
  - cbn [ndjson flat_map]. fold (ndjson eol lines).
    rewrite <- !app_assoc. cbn [app]. rewrite length_app in Hlen1.
    destruct Heol as [->| ->].
    + cbn [app length] in *. rewrite scan_line; [|exact Hnl1|lia].
      rewrite IH. cbn [fst snd]. rewrite app_nil_r.
      rewrite dropCR_reverse by (apply Hcr1; reflexivity). reflexivity.
    + cbn [app length] in *.
      change (line ++ bufio.carriageReturn :: bufio.newline
                :: ndjson [bufio.carriageReturn; bufio.newline] lines ++ rest)
        with (line ++ [bufio.carriageReturn]
                ++ bufio.newline
                :: ndjson [bufio.carriageReturn; bufio.newline] lines ++ rest).
      rewrite app_assoc. rewrite scan_line.
      * rewrite IH. cbn [fst snd]. rewrite app_nil_r, dropCR_reverse_CR.
        reflexivity.
      * intros [Hin|[Heq|[]]]%in_app_or; [tauto|discriminate].
      * rewrite length_app. cbn [length]. lia.
Qed.

(** ** The deferred calls *)

Lemma steady_ret {R A} (a : A) : steady (mret a : Go R A).
Proof. intros s r s' t [= <- <- <-]. reflexivity. Qed.

Lemma steady_return {R A} (o : R) : steady (return_ o : Go R A).
Proof. intros s r s' t [= <- <- <-]. reflexivity. Qed.

Lemma steady_bind {R A B} (m : Go R A) (k : A → Go R B) :
  steady m → (∀ a, steady (k a)) → steady (m ≫= k).
Proof.
  intros Hm Hk s r s' t. unfold mbind, Go_bind.
  destruct (m s) as [[[o|a] s1] t1] eqn:Em.
  - intros [= <- <- <-]. exact (Hm _ _ _ _ Em).
  - destruct (k a s1) as [[b s2] t2] eqn:Ek. intros [= <- <- <-].
    rewrite (Hk _ _ _ _ _ Ek). exact (Hm _ _ _ _ Em).
Qed.

Lemma steady_call {R A} (f : World → A * World) (ev : A → Event) :
  steady (call f ev : Go R A).
Proof.
  intros s r s' t. unfold call. destruct (f (world s)) as [a w].
  intros [= <- <- <-]. reflexivity.
Qed.

Lemma steady_callTT {R A} (f : option Time → World → A * World)
    (ev : A → Event) :
  steady (callTT f ev : Go R A).
Proof. intros s. unfold callTT. apply steady_call. Qed.

Lemma steady_runtime {R A} (f : World → A * World) :
  steady (runtime f : Go R A).
Proof.
  intros s r s' t. unfold runtime. destruct (f (world s)) as [a w].
  intros [= <- <- <-]. reflexivity.
Qed.

Lemma steady_emit {R} (e : Event) : steady (emit e : Go R unit).
Proof. intros s r s' t [= <- <- <-]. reflexivity. Qed.

Lemma steady_fn {R R'} (body : Go R R) :
  steady body → steady (fn body : Go R' R).
Proof.
  intros Hb s r s' t. unfold fn, exec.
  destruct (body s) as [[x s1] t1] eqn:Eb. intros [= <- <- <-].
  exact (Hb _ _ _ _ Eb).
Qed.

Create HintDb steadies.

(** One step of a proof that a body leaves the deferred calls alone. *)
Ltac steady_step :=
  first
    [ solve [auto 2 with steadies nocore]
    | apply steady_bind; [|intros ?]
    | apply steady_ret
    | apply steady_return
    | apply steady_call
    | apply steady_callTT
    | apply steady_runtime
    | apply steady_emit
    | apply steady_fn
    | match goal with
      | |- steady (match ?x with _ => _ end) => destruct x
      | |- steady (if ?b then _ else _) => destruct b
      | |- steady (let '(_, _) := ?x in _) => destruct x
      end ].

Ltac steadily := repeat steady_step.

Lemma getDataOrExit_steady cl url clientID clientSecret :
  steady (getDataOrExit cl url clientID clientSecret).
Proof.
  assert (∀ left res, steady (getDataRetry cl url left res)) as Hloop.
  { induction left as [|left IH]; intros res; cbn [getDataRetry].
    - steadily.
    - unfold time_Sleep, log. steadily. }
  unfold getDataOrExit. steadily.
Qed.
#[local] Hint Resolve getDataOrExit_steady : steadies.

Lemma getBulkFHIRClient_steady cfg : steady (getBulkFHIRClient cfg).
Proof. unfold getBulkFHIRClient. steadily. Qed.
#[local] Hint Resolve getBulkFHIRClient_steady : steadies.

Lemma getTransactionTimeStore_steady cfg :
  steady (getTransactionTimeStore cfg).
Proof. unfold getTransactionTimeStore. steadily. Qed.
#[local] Hint Resolve getTransactionTimeStore_steady : steadies.

Lemma jobResolving_steady cfg cl since : steady (jobResolving cfg cl since).
Proof. unfold jobResolving, log. steadily. Qed.

Lemma monitorLoop_steady results monitorResult :
  steady (monitorLoop results monitorResult).
Proof.
  revert monitorResult.
  induction results as [|r rest IH]; intros mr; cbn [monitorLoop];
    unfold log; steadily.
Qed.
#[local] Hint Resolve monitorLoop_steady : steadies.

Lemma jobPolling_steady cl jobURL : steady (jobPolling cl jobURL).
Proof. unfold jobPolling. steadily. Qed.

Lemma buildPipeline_steady cfg ptr : steady (buildPipeline cfg ptr).
Proof. unfold buildPipeline, log. steadily. Qed.

Lemma scanLoop_steady pipeline rt url tokens :
  steady (scanLoop pipeline rt url tokens).
Proof. induction tokens as [|token rest IH]; cbn [scanLoop]; steadily. Qed.

Lemma finalizing_steady pipeline : steady (finalizing pipeline).
Proof. unfold finalizing. steadily. Qed.

Lemma checkpointCommitting_steady sinceStore jobStatus :
  steady (checkpointCommitting sinceStore jobStatus).
Proof. unfold checkpointCommitting. steadily. Qed.

(** ** The shape of the downloading phase *)

(** A reader that skips failed downloads, sleeps, the retry log line and
    successful re-authentications finds nothing in failed attempts. *)
Lemma omap_attempts {A} (f : Event → option A) url pre :
  (∀ u e0, f (EvGetData u (Err e0)) = None) →
  (∀ d, f (EvSleep d) = None) →
  f (EvLog LogRetry) = None →
  f (EvAuthenticate None) = None →
  Forall (λ r, retryable r = true) pre →
  omap f (flat_map (attempt url) pre) = [].
Proof.
  intros Hg Hs Hl Ha Hall.
  induction Hall as [|r pre [e0 ->]%retryable_Err _ IH]; [reflexivity|].
  change (flat_map (attempt url) (Err e0 :: pre))
    with (attempt url (Err e0) ++ flat_map (attempt url) pre).
  rewrite omap_app, IH. cbn [attempt omap list_omap].
  rewrite Hg, Hs, Hl, Ha. reflexivity.
Qed.

Lemma attempts_not_failing url pre :
  Forall (λ e, errorOf e = None) (flat_map (attempt url) pre).
Proof.
  apply Forall_flat_map, List.Forall_forall. intros r _.
  repeat constructor.
Qed.

(** The events of a call of [getDataOrExit]: failed attempts, each
    with the retry that follows it, then the last download, then, when
    that one is to be retried and the re-authentication fails, the
    events of that retry. *)
Lemma fetch_shape url t res :
  FetchRun url t res →
  ∃ pre final tail,
    t = flat_map (attempt url) pre ++ EvGetData url final :: tail
    ∧ Forall (λ r, retryable r = true) pre
    ∧ (tail = [] ∧ res = fetched url final
       ∨ ∃ e0 ae, final = Err e0 ∧ tail = failedRetryEvents ae
                  ∧ res = Err (errAuthenticating ae)).
Proof.
  intros [a0 rs Hlen Hall Hend|a0 rs ae Hlen Hall].
  - exists (removelast (a0 :: rs)), (List.last rs a0), [].
    split_and!; [apply attempts_regroup|exact Hall|auto].
  - exists (removelast (a0 :: rs)), (List.last rs a0), (failedRetryEvents ae).
    split_and!.
    + rewrite app_comm_cons, attempts_regroup, <- app_assoc. reflexivity.
    + apply Forall_removelast, Hall.
    + right. rewrite List.Forall_forall in Hall.
      destruct (retryable_Err (List.last rs a0)) as [e0 He0];
        [apply Hall, List_last_in|].
      exists e0, ae. auto.
Qed.

Lemma readers_app t1 t2 : readers (t1 ++ t2) = readers t1 ++ readers t2.
Proof. apply omap_app. Qed.

Lemma closesOf_app t1 t2 : closesOf (t1 ++ t2) = closesOf t2 ++ closesOf t1.
Proof. unfold closesOf. rewrite readers_app. apply reverse_app. Qed.

Lemma processed_app t1 t2 :
  processed (t1 ++ t2) = processed t1 ++ processed t2.
Proof. apply omap_app. Qed.

Lemma expected_app t1 t2 : expected (t1 ++ t2) = expected t1 ++ expected t2.
Proof.
  unfold expected, deliveries. rewrite omap_app. apply flat_map_app.
Qed.

Lemma Halting_nil x : Halting x [].
Proof. split; [constructor|discriminate]. Qed.

Lemma Halting_quiet x t : Forall (λ e, errorOf e = None) t → Halting x t.
Proof.
  intros Hall. split; [apply Forall_removelast, Hall|].
  intros e err He%last_Some_elem_of Hf. rewrite Forall_forall in Hall.
  rewrite (Hall _ He) in Hf. discriminate.
Qed.

Lemma Halting_going t : Halting None t → Forall (λ e, errorOf e = None) t.
Proof.
  intros [Hinit Hlast]. destruct t as [|e t _] using rev_ind; [constructor|].
  rewrite removelast_app in Hinit by discriminate. cbn in Hinit.
  rewrite app_nil_r in Hinit. apply Forall_app. split; [exact Hinit|].
  constructor; [|constructor]. destruct (errorOf e) as [err|] eqn:Hf;
    [|reflexivity].
  discriminate (Hlast e err); [apply last_snoc|exact Hf].
Qed.

Lemma Halting_app x t1 t2 :
  Halting None t1 → Halting x t2 → Halting x (t1 ++ t2).
Proof.
  intros H1%Halting_going [H2 H2'].
  destruct t2 as [|e t2]; [rewrite app_nil_r; apply Halting_quiet, H1|].
  split.
  - rewrite removelast_app by discriminate. apply Forall_app. auto.
  - intros e' err. rewrite last_app. cbn [last].
    destruct (last (e :: t2)) eqn:Hl; [|apply last_None in Hl; discriminate].
    intros [= ->]. apply H2'. reflexivity.
Qed.

Lemma Halting_off_phase x P t :
  Forall (λ e, phaseOf e = P) t →
  (∀ e, phaseOf e = P → errorOf e = None) →
  Halting x t.
Proof.
  intros Hall Hp. apply Halting_quiet.
  eapply Forall_impl; [exact Hall|exact Hp].
Qed.

Lemma Halting_last t e :
  Forall (λ e, errorOf e = None) t →
  Halting (match errorOf e with
           | Some err => Some (Returned (Some err))
           | None => None
           end) (t ++ [e]).
Proof.
  intros Hall. split.
  - rewrite removelast_app by discriminate. cbn. rewrite app_nil_r.
    exact Hall.
  - intros e' err. rewrite last_snoc. intros [= <-] ->. reflexivity.
Qed.

Lemma planned_more p1 p2 e : planned p1 e → planned (p1 ++ p2) e.
Proof.
  destruct e; cbn; auto.
  - intros [rt Hin]. exists rt. apply in_or_app. auto.
  - intros Hin. apply in_or_app. auto.
Qed.

Lemma planned_more_l p1 p2 e : planned p2 e → planned (p1 ++ p2) e.
Proof.
  destruct e; cbn; auto.
  - intros [rt Hin]. exists rt. apply in_or_app. auto.
  - intros Hin. apply in_or_app. auto.
Qed.

Lemma Downloaded_nil d : Downloaded [] None d d [].
Proof.
  split_and!; [reflexivity|apply Halting_nil|reflexivity|reflexivity|
                constructor].
Qed.

Lemma Downloaded_stop p1 p2 o d d' t :
  Downloaded p1 (Some o) d d' t → Downloaded (p1 ++ p2) (Some o) d d' t.
Proof.
  intros (Hd & Hh & Hp & He & Hpl). split_and!; auto.
  eapply Forall_impl; [exact Hpl|]. intros e. apply planned_more.
Qed.

Lemma Downloaded_app p1 p2 x d0 d1 d2 t1 t2 :
  Downloaded p1 None d0 d1 t1 → Downloaded p2 x d1 d2 t2 →
  Downloaded (p1 ++ p2) x d0 d2 (t1 ++ t2).
Proof.
  intros (Hd1 & Hh1 & _ & He1 & Hpl1) (Hd2 & Hh2 & Hp2 & He2 & Hpl2).
  specialize (He1 eq_refl). split_and!.
  - rewrite Hd2, Hd1, closesOf_app, map_app, app_assoc. reflexivity.
  - apply Halting_app; assumption.
  - rewrite processed_app, expected_app, He1. apply prefix_app, Hp2.
  - intros Hx. rewrite processed_app, expected_app, He1, (He2 Hx).
    reflexivity.
  - apply Forall_app. split.
    + eapply Forall_impl; [exact Hpl1|]. intros e. apply planned_more.
    + eapply Forall_impl; [exact Hpl2|]. intros e. apply planned_more_l.
Qed.

(** The events of records processed without error, to the readers. *)
Lemma processed_records rt url tokens :
  let t := map (λ token, EvProcess rt url token None) tokens in
  processed t = map (pair url) tokens
  ∧ readers t = [] ∧ deliveries t = []
  ∧ Forall (λ e, errorOf e = None) t
  ∧ Forall (planned [(rt, url)]) t.
Proof.
  induction tokens as [|token l (IH1 & IH2 & IH3 & IH4 & IH5)].
  - cbn. split_and!; auto.
  - cbn [map]. split_and!.
    + cbn. unfold processed in IH1. cbn in IH1. rewrite IH1. reflexivity.
    + exact IH2.
    + exact IH3.
    + constructor; [reflexivity|exact IH4].
    + constructor; [left; reflexivity|exact IH5].
Qed.

(** The events of a call of [getDataOrExit], to the readers. *)
Lemma fetched_events url pre final tail :
  Forall (λ r, retryable r = true) pre →
  tail = [] ∨ (∃ ae, tail = failedRetryEvents ae) →
  let t := flat_map (attempt url) pre ++ EvGetData url final :: tail in
  processed t = []
  ∧ readers t = match final with Ok r => [r] | Err _ => [] end
  ∧ deliveries t = match final with Ok r => [(url, r)] | Err _ => [] end
  ∧ Forall (λ e, errorOf e = None) (flat_map (attempt url) pre
                                       ++ [EvGetData url final])
  ∧ ∀ rt, Forall (planned [(rt, url)]) t.
Proof.
  intros Hpre Htail. cbv zeta.
  unfold processed, readers, deliveries. rewrite !omap_app.
  rewrite !omap_attempts by (auto; intros; reflexivity).
  split_and!.
  - destruct Htail as [->|[ae ->]]; reflexivity.
  - destruct Htail as [->|[ae ->]]; destruct final; reflexivity.
  - destruct Htail as [->|[ae ->]]; destruct final; reflexivity.
  - apply Forall_app. split; [apply attempts_not_failing|].
    repeat constructor.
  - intros rt. apply Forall_app. split.
    + apply Forall_flat_map, List.Forall_forall. intros r _.
      repeat constructor; exists rt; left; reflexivity.
    + constructor; [exists rt; left; reflexivity|].
      destruct Htail as [->|[ae ->]]; repeat constructor.
Qed.

(** The events of [scanLoop], to the readers. *)
Lemma scanned_events rt url tokens r t :
  ScanRun rt url tokens r t →
  processed t `prefix_of` map (pair url) tokens
  ∧ (r = inr tt → processed t = map (pair url) tokens)
  ∧ readers t = [] ∧ deliveries t = []
  ∧ Halting (exitOf r) t
  ∧ Forall (planned [(rt, url)]) t.
Proof.
  intros [|done token rest e ->].
  - destruct (processed_records rt url tokens) as (Hp & Hr & Hd & Hq & Hpl).
    split_and!; auto; [rewrite Hp; reflexivity|apply Halting_quiet, Hq].
  - destruct (processed_records rt url done) as (Hp & Hr & Hd & Hq & Hpl).
    unfold readers, deliveries in *. rewrite processed_app, !omap_app, Hp.
    split_and!.
    + rewrite map_app. apply prefix_app. cbn. apply prefix_cons, prefix_nil.
    + discriminate.
    + rewrite Hr. reflexivity.
    + rewrite Hd. reflexivity.
    + apply (Halting_last _ (EvProcess rt url token (Some e))), Hq.
    + apply Forall_app. split; [exact Hpl|].
      constructor; [left; reflexivity|constructor].
Qed.

Lemma fetchURL_downloaded cfg cl pipeline rt url s r s' t :
  fetchURL cfg cl pipeline rt url s = (r, s', t) →
  Downloaded [(rt, url)] (exitOf r) (deferred s) (deferred s') t.
Proof.
  unfold fetchURL, mbind, Go_bind, fn.
  destruct (exec (getDataOrExit cl url (clientID cfg) (clientSecret cfg)) s)
    as [[res s1] t1] eqn:E1.
  assert (deferred s1 = deferred s) as Hd1.
  { unfold exec in E1.
    destruct (getDataOrExit cl url (clientID cfg) (clientSecret cfg) s)
      as [[x sx] tx] eqn:Ex.
    injection E1 as _ <- _. exact (getDataOrExit_steady _ _ _ _ _ _ _ _ Ex). }
  apply getDataOrExit_run, fetch_shape in E1.
  destruct E1 as (pre & final & tail & -> & Hpre & Hend).
  destruct res as [rd|err].
  - destruct Hend as [[-> Hres]|(e0 & ae & _ & _ & [=])].
    destruct final as [rd'|]; [injection Hres as <-|discriminate].
    destruct (fetched_events url pre (Ok rd) [] Hpre (or_introl eq_refl))
      as (Hp1 & Hr1 & Hdl1 & Hq1 & Hpl1).
    unfold defer. cbn [deferred world transactionTime].
    destruct (scanLines rd) as [tokens scanErr] eqn:Hscan.
    match goal with
    | |- context [scanLoop ?p ?a ?b ?c ?st] =>
        destruct (scanLoop p a b c st) as [[r2 s2] t2] eqn:E2
    end.
    pose proof (scanLoop_steady _ _ _ _ _ _ _ _ E2) as Hd2.
    cbn [deferred] in Hd2.
    apply scanLoop_run in E2.
    destruct (scanned_events _ _ _ _ _ E2)
      as (Hp2 & He2 & Hr2 & Hdl2 & Hh2 & Hpl2).
    assert (expected
              ((flat_map (attempt url) pre ++ [EvGetData url (Ok rd)]) ++ t2)
            = map (pair url) tokens) as Hexp.
    { rewrite expected_app. unfold expected at 2. rewrite Hdl2.
      unfold expected. rewrite Hdl1. cbn [flat_map]. rewrite Hscan.
      cbn [fst]. rewrite !app_nil_r. reflexivity. }
    assert (∀ x : option Outcome,
              Halting x t2 → (x = None → r2 = inr tt) →
              Downloaded [(rt, url)] x (deferred s)
                (DeferReaderClose rd :: deferred s)
                ((flat_map (attempt url) pre ++ [EvGetData url (Ok rd)])
                   ++ t2)) as Hdone.
    { intros x Hx Hgo. split_and!.
      - rewrite closesOf_app. unfold closesOf. rewrite Hr2, Hr1. reflexivity.
      - apply Halting_app; [apply Halting_quiet, Hq1|exact Hx].
      - rewrite Hexp, processed_app, Hp1. exact Hp2.
      - intros ->. rewrite Hexp, processed_app, Hp1. apply He2. auto.
      - apply Forall_app. split; [apply Hpl1|exact Hpl2]. }
    rewrite Hd1 in Hd2.
    destruct r2 as [o|[]].
    + intros [= <- <- <-]. cbn [app]. rewrite Hd2.
      apply Hdone; [exact Hh2|discriminate].
    + destruct scanErr as [err|]; intros [= <- <- <-]; cbn [app];
        rewrite app_nil_r, Hd2; apply Hdone; auto.
      apply Halting_quiet, Halting_going, Hh2.
  - destruct (fetched_events url pre final tail Hpre)
      as (Hp1 & Hr1 & Hdl1 & Hq1 & Hpl1).
    { destruct Hend as [[-> _]|(e0 & ae & _ & -> & _)]; eauto. }
    intros [= <- <- <-]. rewrite app_nil_r, Hd1.
    destruct Hend as [[-> Hres]|(e0 & ae & -> & -> & [= ->])].
    + destruct final as [|e0]; [discriminate|]. split_and!.
      * unfold closesOf. rewrite Hr1. reflexivity.
      * apply Halting_quiet, Hq1.
      * rewrite Hp1. apply prefix_nil.
      * discriminate.
      * apply Hpl1.
    + split_and!.
      * unfold closesOf. rewrite Hr1. reflexivity.
      * change (EvGetData url (Err e0) :: failedRetryEvents ae)
          with ([EvGetData url (Err e0); EvSleep (2 * Second);
                 EvLog LogRetry] ++ [EvAuthenticate (Some ae)]).
        rewrite app_assoc.
        apply (Halting_last _ (EvAuthenticate (Some ae))).
        apply Forall_app. split; [apply attempts_not_failing|].
        repeat constructor.
      * rewrite Hp1. apply prefix_nil.
      * discriminate.
      * apply Hpl1.
Qed.

Lemma urlLoop_downloaded cfg cl pipeline rt urls s r s' t :
  urlLoop cfg cl pipeline rt urls s = (r, s', t) →
  Downloaded (map (pair rt) urls) (exitOf r) (deferred s) (deferred s') t.
Proof.
  revert s t. induction urls as [|url rest IH]; intros s t.
  - intros [= <- <- <-]. apply Downloaded_nil.
  - cbn [urlLoop]. unfold mbind, Go_bind.
    destruct (fetchURL cfg cl pipeline rt url s) as [[[o|[]] s1] t1] eqn:E1;
      apply fetchURL_downloaded in E1.
    + intros [= <- <- <-]. apply (Downloaded_stop [(rt, url)]), E1.
    + destruct (urlLoop cfg cl pipeline rt rest s1) as [[r2 s2] t2] eqn:E2.
      intros [= <- <- <-]. apply IH in E2.
      apply (Downloaded_app [(rt, url)] _ _ _ (deferred s1)); assumption.
Qed.

Lemma resourceLoop_downloaded cfg cl pipeline entries s r s' t :
  resourceLoop cfg cl pipeline entries s = (r, s', t) →
  Downloaded (visitPlan entries) (exitOf r) (deferred s) (deferred s') t.
Proof.
  revert s t. induction entries as [|[rt urls] rest IH]; intros s t.
  - intros [= <- <- <-]. apply Downloaded_nil.
  - cbn [resourceLoop]. unfold mbind, Go_bind.
    destruct (urlLoop cfg cl pipeline rt urls s) as [[[o|[]] s1] t1] eqn:E1;
      apply urlLoop_downloaded in E1.
    + intros [= <- <- <-]. apply (Downloaded_stop (map (pair rt) urls)), E1.
    + destruct (resourceLoop cfg cl pipeline rest s1) as [[r2 s2] t2] eqn:E2.
      intros [= <- <- <-]. apply IH in E2.
      apply (Downloaded_app (map (pair rt) urls) _ _ _ (deferred s1));
        assumption.
Qed.

(** What the downloading phase does, over the entries of the job's
    map in the order of the range. *)
Lemma downloading_downloaded cfg cl pipeline jobStatus s r s' t :
  downloading cfg cl pipeline jobStatus s = (r, s', t) →
  ∃ entries,
    entries ≡ₚ map_to_list (ResultURLs jobStatus)
    ∧ Downloaded (visitPlan entries) (exitOf r) (deferred s) (deferred s') t.
Proof.
  unfold downloading, mbind, Go_bind, runtime.
  pose proof (mapRange_perm (ResultURLs jobStatus) (world s)) as Hperm.
  destruct (mapRange (ResultURLs jobStatus) (world s)) as [entries w1].
  destruct (resourceLoop cfg cl pipeline entries _) as [[r1 s1] t1] eqn:E1.
  intros [= <- <- <-]. exists entries. split; [exact Hperm|].
  apply resourceLoop_downloaded in E1. exact E1.
Qed.

(** The URLs of a plan over the entries of a map are the URLs of the
    map, under their resource types. *)
Lemma visitPlan_lookup (m : gmap ResourceType (list string)) entries rt url :
  entries ≡ₚ map_to_list m →
  In (rt, url) (visitPlan entries) →
  ∃ urls, m !! rt = Some urls ∧ In url urls.
Proof.
  intros Hperm. unfold visitPlan. rewrite in_flat_map.
  intros ([rt' urls] & Hin & Hu). apply in_map_iff in Hu as (u & [= <- <-] & Hu).
  exists urls. split; [|exact Hu].
  apply elem_of_map_to_list. rewrite <- Hperm. apply list_elem_of_In, Hin.
Qed.

(** ** The phases before and after the downloads *)

Lemma isEmpty_true s : isEmpty s = true ↔ s = "".
Proof. unfold isEmpty. apply String.eqb_eq. Qed.

Lemma isEmpty_false s : isEmpty s = false ↔ s ≠ "".
Proof. unfold isEmpty. apply String.eqb_neq. Qed.

Lemma nonEmpty_true s : nonEmpty s = true ↔ s ≠ "".
Proof. unfold nonEmpty. rewrite negb_true_iff. apply isEmpty_false. Qed.

Lemma nonEmpty_false s : nonEmpty s = false ↔ s = "".
Proof. unfold nonEmpty. rewrite negb_false_iff. apply isEmpty_true. Qed.

(** The tests of a symbolic run, as facts on the flags. *)
Ltac flags :=
  repeat (progress rewrite ?orb_true_iff, ?orb_false_iff,
            ?andb_true_iff, ?andb_false_iff, ?negb_true_iff,
            ?negb_false_iff, ?isEmpty_true, ?isEmpty_false,
            ?nonEmpty_true, ?nonEmpty_false in * ).

(** A piece with the events of a list written out stops at the first
    call that fails. *)
Ltac halted :=
  split;
  [ cbn [removelast]; repeat constructor
  | let e := fresh "e" in
    let err := fresh "err" in
    let Hl := fresh "Hl" in
    let He := fresh "He" in
    intros e err Hl He; cbn [last] in Hl;
    first [ discriminate Hl
          | injection Hl as <-; cbn in He;
            repeat match goal with
              | H : nonEmpty ?x = _ |- _ =>
                  unfold nonEmpty in H;
                  first [ apply negb_true_iff in H
                        | apply negb_false_iff in H ];
                  rewrite H in He
              end;
            first [discriminate He|injection He as <-; reflexivity] ] ].

(** The checks of lines 109-130 make no call: they return an error, or
    go on with flags that pass them, after the warning of line 129 when
    no output is asked for. *)
Lemma checkFlags_run cfg s r s' t :
  checkFlags cfg s = (r, s', t) →
  s' = s
  ∧ (t = [] ∧ (∃ err, r = inl (Returned (Some err))) ∧ ¬ checkedFlags cfg
     ∨ r = inr tt ∧ checkedFlags cfg
       ∧ (t = [EvLog LogNoOutput]
          ∧ outputPrefix cfg = "" ∧ enableFHIRStore cfg = false
          ∨ t = [] ∧ (outputPrefix cfg ≠ "" ∨ enableFHIRStore cfg = true))).
Proof.
  unfold checkFlags, return_, log, emit, mret, Go_ret, checkedFlags.
  repeat run_step; intros [= <- <- <-]; (split; [reflexivity|]).
  all: flags.
  1-4: left; split_and!; [reflexivity|eauto|intuition congruence].
  all: right; split; [reflexivity|]; split; [intuition congruence|].
  - left. intuition.
  - right. intuition.
Qed.

Lemma configuring_facts cfg s r s' t :
  configuring cfg s = (r, s', t) →
  Halting (exitOf r) t
  ∧ (clients t = [None]
     ∧ (∃ cl, deferred s' = DeferClientClose cl :: deferred s
              ∧ ∀ cl' st since, r = inr (cl', st, since) → cl' = cl)
     ∨ clients t ≠ [None] ∧ deferred s' = deferred s ∧ exitOf r ≠ None)
  ∧ (t ≠ [] ∨ exitOf r = None → checkedFlags cfg)
  ∧ (∀ cl st since, r = inr (cl, st, since) →
                    last t = Some (EvLoad (Ok since)))
  ∧ Forall (configured cfg) t.
Proof.
  unfold configuring. unfold mbind at 1. unfold Go_bind at 1.
  destruct (checkFlags cfg s) as [[r0 s0] t0] eqn:Ec.
  apply checkFlags_run in Ec as [-> Hc].
  destruct Hc as [(-> & [err ->] & Hbad)
                 |(-> & Hok & [(-> & Hout & Hfs)|(-> & Hq)])].
  { intros [= <- <- <-]. split_and!.
    - apply Halting_nil.
    - right. split_and!; [discriminate|reflexivity|discriminate].
    - intros [|]; [tauto|discriminate].
    - discriminate.
    - constructor. }
  - unfold getTransactionTimeStore, fn, exec, getBulkFHIRClient, mbind,
      Go_bind, call, return_, log, emit, defer, mret, Go_ret.
    repeat run_step; intros [= <- <- <-]; cbn [app errOf];
      (split_and!;
       [ halted
       | first [ left; split; [reflexivity|]; eexists; split; [reflexivity|];
                 intros ? ? ? [=]; subst; reflexivity
               | right; split_and!;
                 [cbn; discriminate|reflexivity|discriminate] ]
       | intros _; exact Hok
       | intros ? ? ? [=]; subst; reflexivity
       | repeat constructor; cbn; flags; intuition congruence ]).
  - unfold getTransactionTimeStore, fn, exec, getBulkFHIRClient, mbind,
      Go_bind, call, return_, log, emit, defer, mret, Go_ret.
    repeat run_step; intros [= <- <- <-]; cbn [app errOf];
      (split_and!;
       [ halted
       | first [ left; split; [reflexivity|]; eexists; split; [reflexivity|];
                 intros ? ? ? [=]; subst; reflexivity
               | right; split_and!;
                 [cbn; discriminate|reflexivity|discriminate] ]
       | intros _; exact Hok
       | intros ? ? ? [=]; subst; reflexivity
       | repeat constructor; cbn; flags; intuition congruence ]).
Qed.

Lemma jobResolving_facts cfg cl since s r s' t :
  jobResolving cfg cl since s = (r, s', t) →
  Halting (exitOf r) t
  ∧ (pendingJobURL cfg ≠ "" ∧ t = [] ∧ r = inr (pendingJobURL cfg)
     ∨ pendingJobURL cfg = ""
       ∧ ∃ res, t = exported since res ∧ ∀ u, r = inr u → res = Ok u).
Proof.
  unfold jobResolving, mbind, Go_bind, call, return_, log, emit, mret, Go_ret.
  repeat run_step; intros [= <- <- <-]; cbn [app errOf]; flags;
    (split; [halted|]).
  - right. split; [assumption|]. eexists (Ok _). split; [reflexivity|].
    intros u [= ->]. reflexivity.
  - right. split; [assumption|]. eexists (Err _). split; [reflexivity|].
    discriminate.
  - left. auto.
Qed.

Lemma jobPolling_facts cl jobURL s r s' t :
  jobPolling cl jobURL s = (r, s', t) →
  Halting (exitOf r) t
  ∧ ∃ results logs,
      t = EvMonitorJobStatus jobURL results :: logs ∧ polls logs = [].
Proof.
  intros Hrun. split.
  { apply jobPolling_phase in Hrun as [Hp _].
    apply (Halting_off_phase _ JobPolling); [exact Hp|].
    intros [[]| | | | | | | | | | | | | | | | | | | |]; cbn; congruence. }
  revert Hrun. unfold jobPolling, mbind, Go_bind, call.
  destruct (Client_MonitorJobStatus cl jobURL jobStatusPeriod jobStatusTimeout
              (world s)) as [results w1].
  destruct (monitorLoop results None (setWorld s w1)) as [[r1 s1] t1] eqn:E1.
  apply monitorLoop_polls in E1.
  destruct r1 as [o|[mr|]]; [| |];
    try destruct (negb (IsComplete (Status mr)));
    intros [= <- <- <-]; exists results, t1;
    rewrite ?app_nil_r; auto.
Qed.

Lemma buildPipeline_facts cfg s r s' t :
  buildPipeline cfg transactionTimePtr s = (r, s', t) →
  Halting (exitOf r) t ∧ Forall (built cfg) t.
Proof.
  unfold buildPipeline, mbind, Go_bind, call, return_, log, emit, mret,
    Go_ret.
  repeat run_step; intros [= <- <- <-]; cbn [app errOf length];
    (split; [halted|]);
    repeat constructor; cbn;
    repeat match goal with
      | H : ?b = _ |- context [if ?b then _ else _] => rewrite H
      end;
    flags; intuition congruence.
Qed.

(** ** More on the whole run *)

Lemma finalizing_halting pipeline s r s' t :
  finalizing pipeline s = (r, s', t) → Halting (exitOf r) t.
Proof.
  intros (res & -> & Hr)%finalizing_run.
  destruct res as [e|]; subst r; halted.
Qed.

Lemma checkpointCommitting_halting sinceStore jobStatus s r s' t :
  checkpointCommitting sinceStore jobStatus s = (r, s', t) →
  Halting (exitOf r) t.
Proof.
  intros (res & -> & Hr)%checkpointCommitting_run.
  destruct res as [e|]; subst r; halted.
Qed.

(** The pieces of a run, phase by phase, each stopping at the first
    call that fails. *)
Ltac halting_segments :=
  repeat first
    [ apply Halting_nil
    | match goal with
      | H : configuring _ _ = (?r, _, ?t) |- Halting _ ?t =>
          exact (proj1 (configuring_facts _ _ _ _ _ H))
      | H : jobResolving _ _ _ _ = (?r, _, ?t) |- Halting _ ?t =>
          exact (proj1 (jobResolving_facts _ _ _ _ _ _ _ H))
      | H : jobPolling _ _ _ = (?r, _, ?t) |- Halting _ ?t =>
          exact (proj1 (jobPolling_facts _ _ _ _ _ _ H))
      | H : buildPipeline _ _ _ = (?r, _, ?t) |- Halting _ ?t =>
          exact (proj1 (buildPipeline_facts _ _ _ _ _ H))
      | H : downloading _ _ _ _ _ = (?r, _, ?t) |- Halting _ ?t =>
          let entries := fresh "entries" in
          let Hd := fresh "Hd" in
          destruct (downloading_downloaded _ _ _ _ _ _ _ _ H)
            as (entries & _ & _ & Hd & _); exact Hd
      | H : finalizing _ _ = (?r, _, ?t) |- Halting _ ?t =>
          exact (finalizing_halting _ _ _ _ _ H)
      | H : checkpointCommitting _ _ _ = (?r, _, ?t) |- Halting _ ?t =>
          exact (checkpointCommitting_halting _ _ _ _ _ _ H)
      | |- Halting _ (recorded _) => apply Halting_quiet; repeat constructor
      | |- Halting _ [EvLog LogComplete] =>
          apply Halting_quiet; repeat constructor
      | |- Halting _ (_ ++ _) => apply Halting_app
      end ].

Lemma body_halting cfg s0 o s t :
  BodyRun cfg s0 o s t → Halting (Some o) t.
Proof. intros Hbody. destruct Hbody; halting_segments. Qed.

Lemma errorOf_phase e err : errorOf e = Some err → phaseOf e ≠ Leaving.
Proof. destruct e as [[]| | | | | | | | | | | | | | | | | | | |]; cbn; congruence. Qed.

(** X5.  A call that fails (any call but a download, which
    [getDataOrExit] may retry, the monitor and the two [Close]) is the
    first and the last of its run to fail: [mainWrapper] returns its
    error, wrapped as the call site wraps it, and after it the run only
    makes the deferred [Close] calls. *)
Theorem failed_call_ends_run cfg w before e err after :
  trace (mainWrapper cfg w) = before ++ e :: after →
  errorOf e = Some err →
  outcome (mainWrapper cfg w) = Returned (Some err)
  ∧ Forall (λ e', errorOf e' = None) before
  ∧ Forall (λ e', phaseOf e' = Leaving) after.
Proof.
  intros Htr Herr.
  destruct (mainWrapper_run cfg w) as (s & tb & tl & Hbody & Hleft & Heq & _).
  rewrite Heq in Htr. clear Heq.
  apply body_halting in Hbody as [Hinit Hlast].
  apply app_split in Htr as [(a1 & -> & ->)|(b2 & -> & ->)].
  - destruct a1 as [|e1 a1 _] using rev_ind.
    + rewrite removelast_app in Hinit by discriminate. cbn in Hinit.
      rewrite app_nil_r in Hinit.
      specialize (Hlast e err (last_snoc _ _) Herr). injection Hlast as ->.
      auto.
    + exfalso.
      replace (before ++ e :: a1 ++ [e1])
        with ((before ++ e :: a1) ++ [e1]) in Hinit
        by (rewrite <- app_assoc; reflexivity).
      rewrite removelast_app in Hinit by discriminate. cbn in Hinit.
      rewrite app_nil_r in Hinit.
      apply Forall_app in Hinit as [_ Hinit].
      apply Forall_cons in Hinit as [He _]. congruence.
  - exfalso. apply Forall_app in Hleft as [_ Hleft].
    apply Forall_cons in Hleft as [He _].
    exact (errorOf_phase _ _ Herr He).
Qed.

(** What each phase of a run does to the deferred calls. *)
Ltac stacks :=
  try match goal with
    | H : jobResolving _ _ _ _ = _ |- _ =>
        pose proof (jobResolving_steady _ _ _ _ _ _ _ H)
    end;
  try match goal with
    | H : jobPolling _ _ _ = _ |- _ =>
        pose proof (jobPolling_steady _ _ _ _ _ _ H)
    end;
  try match goal with
    | H : buildPipeline _ _ _ = _ |- _ =>
        pose proof (buildPipeline_steady _ _ _ _ _ _ H)
    end;
  try match goal with
    | H : downloading _ _ _ _ _ = _ |- _ =>
        let entries := fresh "entries" in
        let Hd := fresh "Hd" in
        destruct (downloading_downloaded _ _ _ _ _ _ _ _ H)
          as (entries & _ & Hd & _)
    end;
  try match goal with
    | H : finalizing _ _ = _ |- _ =>
        pose proof (finalizing_steady _ _ _ _ _ H)
    end;
  try match goal with
    | H : checkpointCommitting _ _ _ = _ |- _ =>
        pose proof (checkpointCommitting_steady _ _ _ _ _ _ H)
    end;
  cbn [setBox deferred] in *.

(** The deferred calls at the end of the body: the [Close] of each
    stream downloaded, the last one first, then the [Close] of the
    client, when it was constructed. *)
Lemma body_deferred cfg s0 o s t :
  BodyRun cfg s0 o s t →
  clients t = [None]
  ∧ (∃ cl, deferred s
           = map DeferReaderClose (closesOf t)
               ++ DeferClientClose cl :: deferred s0)
  ∨ clients t ≠ [None] ∧ deferred s = deferred s0 ∧ readers t = [].
Proof.
  intros Hbody.
  destruct Hbody;
    match goal with
    | H : configuring _ _ = _ |- _ =>
        destruct (configuring_facts _ _ _ _ _ H)
          as (_ & [(Hc & cl0 & Hd0 & _)|(Hc & Hd0 & Hx)] & _)
    end;
    try (exfalso; apply Hx; reflexivity);
    stacks; to_phases; unfold closesOf, readers in *; read_traces;
    first [ right; split_and!; [assumption|congruence|reflexivity]
          | left; split; [assumption|]; exists cl0;
            rewrite ?reverse_nil; cbn [map app]; congruence ].
Qed.

Lemma body_phases cfg s0 o s t :
  BodyRun cfg s0 o s t → Forall (λ e, phaseOf e ≠ Leaving) t.
Proof.
  intros Hbody. destruct Hbody; to_phases;
    repeat first
      [ apply Forall_app; split
      | match goal with
        | H : Forall (λ e, phaseOf e = _) ?t |- Forall _ ?t =>
            eapply Forall_impl; [exact H|cbn; congruence]
        end
      | solve [unfold recorded; repeat constructor; discriminate] ].
Qed.

(** The deferred [Close] of the streams run first, in the order of the
    stack. *)
Lemma runAllDeferred_readers rs ds s x s' t :
  runAllDeferred (map DeferReaderClose rs ++ ds) s = (x, s', t) →
  ∃ s1 t2, t = map EvReaderClose rs ++ t2
           ∧ runAllDeferred ds s1 = (x, s', t2).
Proof.
  revert s t. induction rs as [|r rs IH]; intros s t.
  - intros Hrun. exists s, t. auto.
  - cbn [map app runAllDeferred]. unfold mbind at 1. unfold Go_bind at 1.
    unfold runDeferred, mbind, Go_bind, call, mret, Go_ret.
    destruct (ReadCloser_Close r (world s)) as [e w1]. cbn [app].
    match goal with
    | |- context [runAllDeferred ?d ?st] =>
        destruct (runAllDeferred d st) as [[x2 s2] t2] eqn:E2
    end.
    intros [= <- <- <-]. apply IH in E2 as (s1 & t3 & -> & Hrest).
    exists s1, t3. auto.
Qed.

Lemma runAllDeferred_client cl s x s' t :
  runAllDeferred [DeferClientClose cl] s = (x, s', t) →
  ∃ res, t = clientClosed res.
Proof.
  cbn [runAllDeferred]. unfold runDeferred, mbind, Go_bind, call, log, emit,
    mret, Go_ret.
  destruct (Client_Close cl (world s)) as [[e|] w1]; intros [= <- <- <-];
    [exists (Some e)|exists None]; reflexivity.
Qed.

(** A run is its body, in which nothing is closed, then the [Close] of
    each stream downloaded, the last one first, then the [Close] of the
    client when it was constructed. *)
Lemma mainWrapper_leaving cfg w :
  ∃ body closing,
    trace (mainWrapper cfg w)
    = body ++ map EvReaderClose (closesOf body) ++ closing
    ∧ Forall (λ e, phaseOf e ≠ Leaving) body
    ∧ (clients body = [None] ∧ (∃ res, closing = clientClosed res)
       ∨ clients body ≠ [None] ∧ closing = [] ∧ readers body = []).
Proof.
  unfold mainWrapper.
  destruct (mainWrapperBody cfg (initial w)) as [[r s] t] eqn:Eb.
  destruct (runAllDeferred (deferred s) s) as [[x s'] t'] eqn:Ed.
  apply body_run in Eb. cbn [trace].
  pose proof (body_phases _ _ _ _ _ Eb) as Hph.
  destruct (body_deferred _ _ _ _ _ Eb)
    as [(Hc & cl & Hd)|(Hc & Hd & Hr)]; rewrite Hd in Ed; cbn [initial deferred] in Ed.
  - apply runAllDeferred_readers in Ed as (s1 & t2 & -> & Hcl).
    apply runAllDeferred_client in Hcl as [res ->].
    exists t, (clientClosed res). split_and!; eauto.
  - injection Ed as _ _ <-. exists t, []. unfold closesOf. rewrite Hr.
    split_and!; auto.
Qed.

Lemma readerCloses_closed rs :
  readerCloses (map EvReaderClose rs) = rs ∧ readers (map EvReaderClose rs) = []
  ∧ clientCloses (map EvReaderClose rs) = []
  ∧ Forall (λ e, phaseOf e = Leaving) (map EvReaderClose rs).
Proof.
  induction rs as [|r rs (IH1 & IH2 & IH3 & IH4)]; [cbn; auto|].
  cbn [map]. split_and!; [|exact IH2|exact IH3|constructor; auto].
  unfold readerCloses in *. cbn. rewrite IH1. reflexivity.
Qed.

Lemma reader_off_leaving {A} (f : Event → option A) t :
  (∀ e, phaseOf e ≠ Leaving → f e = None) →
  Forall (λ e, phaseOf e ≠ Leaving) t → omap f t = [].
Proof.
  intros Hf Hall. induction Hall as [|e t He _ IH]; [reflexivity|].
  cbn. rewrite (Hf e He). exact IH.
Qed.

(** X6.  The streams downloaded in a run are closed when [mainWrapper]
    is left and not before: the run is a body in which no stream is
    closed, then the [Close] of every stream downloaded, the last
    downloaded first, then a rest in which no stream is downloaded or
    closed. *)
Theorem streams_closed_at_return cfg w :
  ∃ body closing,
    trace (mainWrapper cfg w)
    = body ++ map EvReaderClose (reverse (readers body)) ++ closing
    ∧ readerCloses body = []
    ∧ readers closing = [] ∧ readerCloses closing = []
    ∧ readerCloses (trace (mainWrapper cfg w))
      = reverse (readers (trace (mainWrapper cfg w))).
Proof.
  destruct (mainWrapper_leaving cfg w) as (body & closing & Htr & Hph & Hcl).
  exists body, closing. fold (closesOf body).
  assert (readerCloses body = []) as Hb.
  { apply reader_off_leaving; [|exact Hph].
    intros [[]| | | | | | | | | | | | | | | | | | | |]; cbn; congruence. }
  assert (readers closing = [] ∧ readerCloses closing = []) as [Hc1 Hc2].
  { destruct Hcl as [(_ & [[e|] ->])|(_ & -> & _)]; auto. }
  destruct (readerCloses_closed (closesOf body)) as (H1 & H2 & _).
  split_and!; auto. rewrite Htr.
  unfold readerCloses, readers in *. rewrite !omap_app, Hb, H1, H2, Hc1, Hc2.
  rewrite !app_nil_r. reflexivity.
Qed.

(** X7.  When the client was constructed, its [Close] is the last call
    of the run, made once, whatever [mainWrapper] returns, and its error
    is only logged; when it was not, the run closes nothing. *)
Theorem client_closed_last cfg w :
  (clients (trace (mainWrapper cfg w)) = [None] →
   ∃ before res,
     trace (mainWrapper cfg w) = before ++ clientClosed res
     ∧ clientCloses before = [])
  ∧ (clients (trace (mainWrapper cfg w)) ≠ [None] →
     clientCloses (trace (mainWrapper cfg w)) = []
     ∧ readerCloses (trace (mainWrapper cfg w)) = []).
Proof.
  destruct (mainWrapper_leaving cfg w) as (body & closing & Htr & Hph & Hcl).
  assert (clientCloses body = [] ∧ readerCloses body = []) as [Hb1 Hb2].
  { split; (apply reader_off_leaving; [|exact Hph]);
      intros [[]| | | | | | | | | | | | | | | | | | | |]; cbn; congruence. }
  destruct (readerCloses_closed (closesOf body)) as (H1 & H2 & H3 & H4).
  assert (clients (trace (mainWrapper cfg w)) = clients body) as Hclients.
  { rewrite Htr. unfold clients. rewrite !omap_app.
    rewrite (omap_off_phase _ Leaving (map EvReaderClose (closesOf body)))
      by (auto; off_phase).
    destruct Hcl as [(_ & [[e|] ->])|(_ & -> & _)]; cbn;
      rewrite app_nil_r; reflexivity. }
  rewrite Hclients. split.
  - intros Hc. destruct Hcl as [(_ & [res ->])|(Hn & _)]; [|congruence].
    exists (body ++ map EvReaderClose (closesOf body)), res.
    split; [rewrite Htr, app_assoc; reflexivity|].
    unfold clientCloses in *. rewrite omap_app, Hb1, H3. reflexivity.
  - intros Hc. destruct Hcl as [(Hy & _)|(_ & -> & Hr)]; [congruence|].
    rewrite Htr. unfold closesOf. rewrite Hr. cbn. rewrite app_nil_r. auto.
Qed.

Lemma body_delivered cfg s0 o s t :
  BodyRun cfg s0 o s t →
  processed t `prefix_of` expected t
  ∧ (finalizations t ≠ [] → processed t = expected t).
Proof.
  intros Hbody.
  destruct Hbody;
    try match goal with
      | H : downloading _ _ _ _ _ = _ |- _ =>
          let entries := fresh "entries" in
          let Hp := fresh "Hp" in
          let He := fresh "He" in
          destruct (downloading_downloaded _ _ _ _ _ _ _ _ H)
            as (entries & _ & _ & _ & Hp & He & _)
      end;
    finalized; to_phases;
    unfold processed, expected, deliveries in *; read_traces;
    cbn [flat_map]; rewrite ?app_nil_r;
    try (split; [reflexivity|congruence]);
    (split; [exact Hp|intros Hfin; first [congruence|apply He; reflexivity]]).
Qed.

(** X8.  The records given to the pipeline in a run are the tokens the
    scanner makes of the streams downloaded, stream after stream in the
    order of the downloads and token after token, each under the URL
    of its stream, up to where the run stops; in a run that gets to
    [Finalize] they are all of them. *)
Theorem records_reach_pipeline cfg w :
  processed (trace (mainWrapper cfg w))
    `prefix_of` expected (trace (mainWrapper cfg w))
  ∧ (finalizations (trace (mainWrapper cfg w)) ≠ [] →
     processed (trace (mainWrapper cfg w))
     = expected (trace (mainWrapper cfg w))).
Proof.
  destruct (mainWrapper_run cfg w) as (s & tb & tl & Hbody & Hleft & Htr & _).
  rewrite Htr. clear Htr.
  destruct (body_delivered _ _ _ _ _ Hbody) as [Hp He].
  unfold processed, expected, deliveries, finalizations in *.
  rewrite !omap_app.
  rewrite !(omap_off_phase _ Leaving tl Hleft) by off_phase.
  rewrite !app_nil_r. auto.
Qed.

Lemma Forall_phase (Q : Event → Prop) P t :
  Forall (λ e, phaseOf e = P) t → (∀ e, phaseOf e = P → Q e) → Forall Q t.
Proof. intros Hall HQ. eapply Forall_impl; [exact Hall|exact HQ]. Qed.

(** A fact on the events of one phase, by cases on the event. *)
Ltac by_event :=
  let e := fresh "e" in
  intros e; destruct e as [[]| | | | | | | | | | | | | | | | | | | |];
  cbn; intros ?; try congruence; try exact I.

(** A fact on every event of a run from the facts on its pieces: the
    piece of the phase the fact speaks of has it as a hypothesis, and it
    holds of the events of any other phase. *)
Ltac piecewise :=
  repeat first
    [ assumption
    | apply Forall_nil
    | match goal with
      | H : Forall (λ e, phaseOf e = ?P) ?t |- Forall _ ?t =>
          apply (Forall_phase _ P t H); by_event
      | |- Forall _ (recorded _) =>
          unfold recorded; repeat constructor
      | |- Forall _ [EvLog LogComplete] => repeat constructor
      | |- Forall _ [EvFinalize _] => repeat constructor
      | |- Forall _ [EvStore _ _] => repeat constructor
      | |- Forall _ (_ ++ _) => apply Forall_app; split
      end ].

Lemma body_configured cfg s0 o s t :
  BodyRun cfg s0 o s t →
  Forall (configured cfg) t ∧ Forall (built cfg) t
  ∧ (t ≠ [] → checkedFlags cfg).
Proof.
  intros Hbody.
  destruct Hbody;
    match goal with
    | H : configuring _ _ = _ |- _ =>
        destruct (configuring_facts _ _ _ _ _ H) as (_ & _ & Hck & _ & Hcf)
    end;
    try match goal with
      | H : buildPipeline _ _ _ = _ |- _ =>
          destruct (buildPipeline_facts _ _ _ _ _ H) as [_ Hbt]
      end;
    finalized; to_phases; split_and!; try piecewise.
  all: try (intros _; apply Hck; right; reflexivity).
  intros Hne. apply Hck. left. exact Hne.
Qed.

Lemma mainWrapper_configured cfg w :
  Forall (configured cfg) (trace (mainWrapper cfg w))
  ∧ Forall (built cfg) (trace (mainWrapper cfg w))
  ∧ (trace (mainWrapper cfg w) ≠ [] → checkedFlags cfg).
Proof.
  destruct (mainWrapper_run cfg w) as (s & tb & tl & Hbody & Hleft & Htr & _).
  destruct (body_configured _ _ _ _ _ Hbody) as (Hc & Hb & Hck).
  split_and!.
  - rewrite Htr. piecewise.
  - rewrite Htr. piecewise.
  - intros Hne. apply Hck. intros ->.
    destruct (mainWrapper_leaving cfg w) as (body & closing & Htr' & Hph & Hcl).
    rewrite Htr in Htr'. cbn [app] in Htr'. subst tl.
    destruct body as [|e body].
    + destruct Hcl as [([=] & _)|(_ & -> & _)]. apply Hne. rewrite Htr.
      reflexivity.
    + apply Forall_app in Hleft as [Hleft _].
      apply Forall_cons in Hleft as [He _].
      apply Forall_cons in Hph as [He' _]. contradiction.
Qed.

Lemma In_phase P t e :
  Forall (λ e, phaseOf e = P) t → In e t → phaseOf e = P.
Proof. rewrite List.Forall_forall. auto. Qed.

(** An event is in no piece of a run whose phase is not its own. *)
Ltac elsewhere H :=
  lazymatch type of H with
  | In _ (recorded _) =>
      unfold recorded in H; cbn in H; intuition discriminate
  | In _ [_] => destruct H as [H|[]]; discriminate H
  | In _ [] => destruct H
  | In ?e ?t =>
      match goal with
      | Hp : Forall (λ e, phaseOf e = _) t |- _ =>
          let Hx := fresh "Hx" in
          pose proof (In_phase _ _ _ Hp H) as Hx; cbn in Hx; discriminate Hx
      end
  end.

(** The piece of a run an event is in. *)
Ltac locate H :=
  repeat (apply in_app_or in H as [H|H]); try (exfalso; elsewhere H).

(** An event of a piece of a run is an event of the run. *)
Ltac found :=
  first [ assumption
        | left; reflexivity
        | apply in_or_app; first [left; found|right; found]
        | right; found ].

Lemma In_polls url results t :
  In (EvMonitorJobStatus url results) t → polls t ≠ [].
Proof.
  induction t as [|e t IH]; [intros []|].
  intros [->|Hin]; [discriminate|].
  unfold polls in *. cbn. destruct e; try (apply IH, Hin). discriminate.
Qed.

Lemma body_flows cfg s0 o s t :
  BodyRun cfg s0 o s t →
  (∀ since res,
     In (EvStartBulkDataExport since res) t →
     pendingJobURL cfg = "" ∧ In (EvLoad (Ok since)) t)
  ∧ (∀ url results,
       In (EvMonitorJobStatus url results) t →
       pendingJobURL cfg ≠ "" ∧ url = pendingJobURL cfg ∧ exports t = []
       ∨ pendingJobURL cfg = ""
         ∧ ∃ since, In (EvStartBulkDataExport since (Ok url)) t)
  ∧ (∀ v res, In (EvStore v res) t → sets t = [v]).
Proof.
  intros Hbody.
  destruct Hbody;
    match goal with
    | H : configuring _ _ = _ |- _ =>
        pose proof (configuring_facts _ _ _ _ _ H) as (_ & _ & _ & Hload & _)
    end;
    try match goal with
      | H : jobResolving _ _ _ _ = _ |- _ =>
          pose proof (jobResolving_facts _ _ _ _ _ _ _ H) as [_ Hjob]
      end;
    try match goal with
      | H : jobPolling _ _ _ = _ |- _ =>
          pose proof (jobPolling_facts _ _ _ _ _ _ H)
            as (_ & results0 & logs0 & Ht3 & Hlogs)
      end;
    finalized; to_phases;
    (split_and!;
     [ intros since' res' Hin; locate Hin;
       (destruct Hjob as [(_ & -> & _)|(Hpend & res0 & -> & _)];
        [destruct Hin|]);
       destruct res0; cbn in Hin;
       repeat (destruct Hin as [Hin|Hin]; try discriminate Hin);
       try contradiction; injection Hin as <- <-;
       (split; [exact Hpend|]);
       apply in_or_app; left; apply list_elem_of_In, last_Some_elem_of;
       eapply Hload; reflexivity
     | intros url results Hin; locate Hin;
       rewrite Ht3 in Hin;
       (destruct Hin as [[= <- <-]|Hin];
        [|exfalso; exact (In_polls _ _ _ Hin Hlogs)]);
       (destruct Hjob as [(Hpend & -> & [= ->])|(Hpend & res0 & -> & Hres)];
        [ left; split_and!; [exact Hpend|reflexivity|read_traces; reflexivity]
        | right; split; [exact Hpend|]; eexists;
          rewrite (Hres _ eq_refl); found ])
     | intros v res Hin; locate Hin;
       destruct Hin as [[= <- <-]|[]]; read_traces; reflexivity ]).
Qed.

(** ** What [mainWrapper] returns *)

Lemma erring_ret {A} (a : A) : erring (mret a).
Proof. intros s o s' t [=]. Qed.

Lemma erring_return {A} (err : error) :
  erring (return_ (Returned (Some err)) : Go Outcome A).
Proof. intros s o s' t [= <- <- <-]. eauto. Qed.

Lemma erring_bind {A B} (m : Go Outcome A) (k : A → Go Outcome B) :
  erring m → (∀ a, erring (k a)) → erring (m ≫= k).
Proof.
  intros Hm Hk s o s' t. unfold mbind, Go_bind.
  destruct (m s) as [[[o1|a] s1] t1] eqn:Em.
  - intros [= <- <- <-]. exact (Hm _ _ _ _ Em).
  - destruct (k a s1) as [[b s2] t2] eqn:Ek. intros [= -> <- <-].
    exact (Hk _ _ _ _ _ Ek).
Qed.

Lemma erring_call {A} (f : World → A * World) (ev : A → Event) :
  erring (call f ev).
Proof.
  intros s o s' t. unfold call. destruct (f (world s)) as [a w]. intros [=].
Qed.

Lemma erring_callTT {A} (f : option Time → World → A * World)
    (ev : A → Event) :
  erring (callTT f ev).
Proof. intros s. unfold callTT. apply erring_call. Qed.

Lemma erring_runtime {A} (f : World → A * World) : erring (runtime f).
Proof.
  intros s o s' t. unfold runtime. destruct (f (world s)) as [a w].
  intros [=].
Qed.

Lemma erring_emit (e : Event) : erring (emit e).
Proof. intros s o s' t [=]. Qed.

Lemma erring_defer (d : Deferred) : erring (defer d).
Proof. intros s o s' t [=]. Qed.

Lemma erring_fn {R} (body : Go R R) : erring (fn body).
Proof.
  intros s o s' t. unfold fn. destruct (exec body s) as [[x s1] t1].
  intros [=].
Qed.

Create HintDb errings.

(** One step of a proof that a body only returns errors. *)
Ltac erring_step :=
  first
    [ assumption
    | solve [auto 2 with errings nocore]
    | apply erring_bind; [|intros ?]
    | apply erring_ret
    | apply erring_return
    | apply erring_call
    | apply erring_callTT
    | apply erring_runtime
    | apply erring_emit
    | apply erring_defer
    | apply erring_fn
    | match goal with
      | |- erring (match ?x with _ => _ end) => destruct x
      | |- erring (if ?b then _ else _) => destruct b
      | |- erring (let '(_, _) := ?x in _) => destruct x
      end ].

Ltac errs := repeat erring_step.

Lemma configuring_erring cfg : erring (configuring cfg).
Proof. unfold configuring, checkFlags, log. errs. Qed.

Lemma jobResolving_erring cfg cl since : erring (jobResolving cfg cl since).
Proof. unfold jobResolving, log. errs. Qed.

Lemma buildPipeline_erring cfg ptr : erring (buildPipeline cfg ptr).
Proof. unfold buildPipeline, log. errs. Qed.

Lemma scanLoop_erring pipeline rt url tokens :
  erring (scanLoop pipeline rt url tokens).
Proof. induction tokens as [|token rest IH]; cbn [scanLoop]; errs. Qed.
#[local] Hint Resolve scanLoop_erring : errings.

Lemma fetchURL_erring cfg cl pipeline rt url :
  erring (fetchURL cfg cl pipeline rt url).
Proof. unfold fetchURL. errs. Qed.
#[local] Hint Resolve fetchURL_erring : errings.

Lemma urlLoop_erring cfg cl pipeline rt urls :
  erring (urlLoop cfg cl pipeline rt urls).
Proof. induction urls as [|url rest IH]; cbn [urlLoop]; errs. Qed.
#[local] Hint Resolve urlLoop_erring : errings.

Lemma resourceLoop_erring cfg cl pipeline entries :
  erring (resourceLoop cfg cl pipeline entries).
Proof.
  induction entries as [|[rt urls] rest IH]; cbn [resourceLoop]; errs.
Qed.
#[local] Hint Resolve resourceLoop_erring : errings.

Lemma downloading_erring cfg cl pipeline jobStatus :
  erring (downloading cfg cl pipeline jobStatus).
Proof. unfold downloading. errs. Qed.

(** The three ways the body of [mainWrapper] ends. *)
Lemma body_outcome cfg s0 o s t :
  BodyRun cfg s0 o s t →
  o = Returned None ∧ (∃ v, stores t = [(v, None)]) ∧ polls t ≠ [[]]
  ∨ o = Panicked ∧ polls t = [[]]
    ∧ downloads t = [] ∧ sets t = [] ∧ stores t = []
  ∨ (∃ err, o = Returned (Some err))
    ∧ polls t ≠ [[]] ∧ ∀ v, stores t ≠ [(v, None)].
Proof.
  intros Hbody.
  destruct Hbody;
    try match goal with
      | H : jobPolling _ _ _ = (inl _, _, _) |- _ =>
          let rs := fresh "rs" in
          let Hp := fresh "Hp" in
          let Hr := fresh "Hr" in
          destruct (jobPolling_run _ _ _ _ _ _ H) as (rs & Hp & Hr)
      | H : jobPolling _ _ _ = (inr _, _, _) |- _ =>
          let rs := fresh "rs" in
          let mr := fresh "mr" in
          let Hp := fresh "Hp" in
          let Hl := fresh "Hl" in
          destruct (jobPolling_complete _ _ _ _ _ _ H)
            as (rs & mr & Hp & Hl & _ & ->)
      end;
    try match goal with
      | H : configuring _ _ = (inl _, _, _) |- _ =>
          pose proof (configuring_erring _ _ _ _ _ H) as Herr
      | H : jobResolving _ _ _ _ = (inl _, _, _) |- _ =>
          pose proof (jobResolving_erring _ _ _ _ _ _ _ H) as Herr
      | H : buildPipeline _ _ _ = (inl _, _, _) |- _ =>
          pose proof (buildPipeline_erring _ _ _ _ _ _ H) as Herr
      | H : downloading _ _ _ _ _ = (inl _, _, _) |- _ =>
          pose proof (downloading_erring _ _ _ _ _ _ _ _ H) as Herr
      end;
    finalized; to_phases; read_traces; rewrite ?Hp.
  1-2: right; right; split_and!; eauto; discriminate.
  1: { destruct (last rs) as [mr|] eqn:Hl.
       - destruct (IsComplete (Status mr)); [discriminate|].
         injection Hr as ->. right. right.
         split_and!; eauto; try discriminate. intros [= ->]. discriminate.
       - apply last_None in Hl as ->. injection Hr as ->. right. left. auto. }
  1-4: right; right; split_and!; eauto; try discriminate;
    intros [= ->]; discriminate.
  left. split_and!; eauto. intros [= ->]. discriminate.
Qed.

(** X9.  [mainWrapper] returns nil exactly when [Store] was called and
    returned no error. *)
Theorem success_iff_stored cfg w :
  outcome (mainWrapper cfg w) = Returned None
  ↔ ∃ v, stores (trace (mainWrapper cfg w)) = [(v, None)].
Proof.
  destruct (mainWrapper_run cfg w) as (s & tb & tl & Hbody & Hleft & Htr & _).
  assert (stores (trace (mainWrapper cfg w)) = stores tb) as ->.
  { rewrite Htr. unfold stores. rewrite omap_app.
    rewrite (omap_off_phase _ Leaving tl Hleft) by off_phase.
    apply app_nil_r. }
  destruct (body_outcome _ _ _ _ _ Hbody)
    as [(-> & Hst & _)|[(-> & _ & _ & _ & Hst)|([err ->] & _ & Hst)]].
  - tauto.
  - rewrite Hst. split; [discriminate|intros [v [=]]].
  - split; [discriminate|]. intros [v Hv]. destruct (Hst v Hv).
Qed.

(** X10.  [mainWrapper] panics, on the nil pointer of line 178, exactly
    when the monitor's channel is closed with no result delivered; the
    run has then made no download, set no transaction time and stored
    nothing. *)
Theorem panic_iff_no_monitor_result cfg w :
  (outcome (mainWrapper cfg w) = Panicked
   ↔ polls (trace (mainWrapper cfg w)) = [[]])
  ∧ (outcome (mainWrapper cfg w) = Panicked →
     downloads (trace (mainWrapper cfg w)) = []
     ∧ sets (trace (mainWrapper cfg w)) = []
     ∧ stores (trace (mainWrapper cfg w)) = []).
Proof.
  destruct (mainWrapper_run cfg w) as (s & tb & tl & Hbody & Hleft & Htr & _).
  rewrite Htr. clear Htr.
  unfold polls, downloads, sets, stores. rewrite !omap_app.
  rewrite !(omap_off_phase _ Leaving tl Hleft) by off_phase.
  rewrite !app_nil_r.
  fold (polls tb) (downloads tb) (sets tb) (stores tb).
  destruct (body_outcome _ _ _ _ _ Hbody)
    as [(-> & _ & Hp)|[(-> & Hp & Hd & Hs & Hst)|([err ->] & Hp & Hst)]].
  - split; [|discriminate]. split; [discriminate|tauto].
  - tauto.
  - split; [|discriminate]. split; [discriminate|tauto].
Qed.

(** ** What the flags decide *)

(** [filepath.Split]: the two parts make the path, the second has no
    separator, and the first is empty or ends with one. *)
Lemma filepath_Split_parts path directory file :
  filepath_Split path = (directory, file) →
  directory +:+ file = path
  ∧ ¬ In "/"%char (String.list_ascii_of_string file)
  ∧ (directory = "" ∨ ∃ d, directory = d +:+ "/").
Proof.
  revert directory file.
  induction path as [|c rest IH]; intros directory file.
  - intros [= <- <-]. split_and!; [reflexivity|intros []|auto].
  - cbn [filepath_Split].
    destruct (filepath_Split rest) as [dir f] eqn:Hrest.
    destruct (IH dir f eq_refl) as (Hjoin & Hfile & Hdir).
    destruct (nonEmpty dir) eqn:Hne.
    + intros [= <- <-]. split_and!; auto.
      { rewrite <- Hjoin. reflexivity. }
      right. destruct Hdir as [->|[d ->]]; [discriminate|].
      exists (String c d). reflexivity.
    + apply nonEmpty_false in Hne as ->.
      change ("" +:+ f) with f in Hjoin. subst f.
      destruct (Ascii.eqb c "/") eqn:Hc.
      * apply Ascii.eqb_eq in Hc as ->. intros [= <- <-].
        split_and!; auto. right. exists "". reflexivity.
      * intros [= <- <-]. split_and!; auto.
        intros [->|Hin]; [|auto]. rewrite Ascii.eqb_refl in Hc.
        discriminate.
Qed.

(** X11.  A run that makes any call, or logs anything, has flags that
    pass the checks of lines 109-126. *)
Theorem calls_need_checked_flags cfg w :
  trace (mainWrapper cfg w) ≠ [] → checkedFlags cfg.
Proof. apply mainWrapper_configured. Qed.

(** X12.  A FHIR store sink is made only with [enable_fhir_store] and
    [rectify] set, from a configuration that names the project, the
    location, the dataset and the store, and the bucket when the upload
    goes through GCS; it is given the flags as they are, the two import
    timings of the program and the transaction-time box of the run. *)
Theorem fhir_store_sink_after_checks cfg w c err :
  In (EvNewFHIRStoreSink c err) (trace (mainWrapper cfg w)) →
  enableFHIRStore cfg = true ∧ rectify cfg = true
  ∧ c = fhirStoreSinkConfig cfg transactionTimePtr
  ∧ FHIRStoreSinkConfig.FHIRProjectID c ≠ ""
  ∧ FHIRStoreSinkConfig.FHIRLocation c ≠ ""
  ∧ FHIRStoreSinkConfig.FHIRDatasetID c ≠ ""
  ∧ FHIRStoreSinkConfig.FHIRStoreID c ≠ ""
  ∧ (FHIRStoreSinkConfig.UseGCSUpload c = true →
     FHIRStoreSinkConfig.GCSBucket c ≠ "").
Proof.
  intros Hin.
  destruct (mainWrapper_configured cfg w) as (_ & Hb & Hck).
  rewrite List.Forall_forall in Hb. destruct (Hb _ Hin) as [Hen ->].
  destruct Hck as (_ & _ & Hfs & Hgcs).
  { intros Hnil. rewrite Hnil in Hin. destruct Hin. }
  destruct (Hfs Hen) as (? & ? & ? & ? & ?). cbn. split_and!; auto.
Qed.

(** X13.  The NDJSON sink is made only for a non-empty [output_prefix],
    with the two parts [filepath.Split] makes of it: a directory and a
    file prefix that make the prefix when joined, the file prefix with
    no separator in it. *)
Theorem ndjson_sink_location cfg w directory filePrefix err :
  In (EvNewNDJSONSink directory filePrefix err) (trace (mainWrapper cfg w)) →
  outputPrefix cfg ≠ ""
  ∧ directory +:+ filePrefix = outputPrefix cfg
  ∧ ¬ In "/"%char (String.list_ascii_of_string filePrefix)
  ∧ (directory = "" ∨ ∃ d, directory = d +:+ "/").
Proof.
  intros Hin.
  destruct (mainWrapper_configured cfg w) as (_ & Hb & _).
  rewrite List.Forall_forall in Hb. destruct (Hb _ Hin) as [Hne Hsplit].
  split; [exact Hne|]. apply filepath_Split_parts, Hsplit.
Qed.

(** X14.  The pipeline is made with the rectifying processor exactly
    when [rectify] is set, and with one sink for a non-empty
    [output_prefix] and one for [enable_fhir_store]: with neither, it
    has no sink. *)
Theorem pipeline_shape cfg w processors sinks err :
  In (EvNewPipeline processors sinks err) (trace (mainWrapper cfg w)) →
  processors = (if rectify cfg then 1 else 0)%nat
  ∧ sinks = ((if nonEmpty (outputPrefix cfg) then 1 else 0)
             + (if enableFHIRStore cfg then 1 else 0))%nat.
Proof.
  intros Hin.
  destruct (mainWrapper_configured cfg w) as (_ & Hb & _).
  rewrite List.Forall_forall in Hb. exact (Hb _ Hin).
Qed.

(** The events of [getBulkFHIRClient]. *)
Lemma getBulkFHIRClient_made cfg s r s' t :
  exec (getBulkFHIRClient cfg) s = (r, s', t) →
  ∃ auth res, t = clientMade cfg auth res.
Proof.
  unfold exec, getBulkFHIRClient, clientMade, mbind, Go_bind, call, return_.
  destruct (useGeneralizedBulkImport cfg).
  - destruct (bulkfhir_NewHTTPBasicOAuthAuthenticator _ _ _ _ _)
      as [[authenticator|e] w1]; cbn [world setWorld errOf app].
    + destruct (bulkfhir_NewClient _ _ _) as [res w2].
      intros [= <- <- <-]. exists None, (errOf res). reflexivity.
    + intros [= <- <- <-]. exists (Some e), None. reflexivity.
  - destruct (bcda_NewClient _ _ _ _) as [res w1].
    intros [= <- <- <-]. exists None, (errOf res). reflexivity.
Qed.

(** The configuring phase, for flags that pass the checks, starts with
    the warning, if any, and the events of [getBulkFHIRClient]; no
    client is made after them. *)
Lemma configuring_shape cfg s r s' t :
  configuring cfg s = (r, s', t) →
  checkedFlags cfg →
  ∃ auth res rest,
    t = warned cfg ++ clientMade cfg auth res ++ rest
    ∧ Forall (λ e, ¬ makesClient e) rest.
Proof.
  unfold configuring. unfold mbind at 1. unfold Go_bind at 1.
  destruct (checkFlags cfg s) as [[r0 s0] t0] eqn:Ec.
  apply checkFlags_run in Ec as [-> Hc].
  intros Hrun Hok.
  destruct Hc as [(_ & _ & Hbad)|(-> & _ & Hw)]; [destruct (Hbad Hok)|].
  assert (t0 = warned cfg) as ->.
  { unfold warned.
    destruct Hw as [(-> & -> & ->)|(-> & Hq)]; [reflexivity|].
    destruct Hq as [Hq| ->]; [|rewrite andb_false_r; reflexivity].
    destruct (isEmpty (outputPrefix cfg)) eqn:E; [|reflexivity].
    apply isEmpty_true in E. destruct (Hq E). }
  clear Hw. revert Hrun.
  unfold mbind at 1. unfold Go_bind at 1. unfold fn at 1.
  destruct (exec (getBulkFHIRClient cfg) s) as [[r1 s1] t1] eqn:Eg.
  apply getBulkFHIRClient_made in Eg as (auth & res & ->).
  exists auth, res. revert Hrun.
  unfold getTransactionTimeStore, fn, exec, mbind, Go_bind, call, return_,
    defer, mret, Go_ret.
  repeat run_step; intros [= <- <- <-]; cbn [app errOf];
    eexists; (split; [reflexivity|]);
    repeat constructor; cbn; tauto.
Qed.

(** X15.  A run whose flags pass the checks makes its client first,
    after the warning of line 129 only, and it is the client
    [enable_generalized_bulk_import] selects: without the flag the BCDA
    client at [bcda_server_url]; with it the authenticator for
    [fhir_auth_url] and then, when that is made without error, the
    generalized client at [fhir_server_base_url], and no client when
    it is not.  No other constructor of a client or an authenticator is
    called in the run. *)
Theorem client_by_flag cfg w :
  checkedFlags cfg →
  ∃ auth res rest,
    trace (mainWrapper cfg w) = warned cfg ++ clientMade cfg auth res ++ rest
    ∧ Forall (λ e, ¬ makesClient e) rest.
Proof.
  intros Hok.
  destruct (mainWrapper_run cfg w) as (s & tb & tl & Hbody & Hleft & Htr & _).
  rewrite Htr. clear Htr.
  assert (∀ t, Forall (λ e, phaseOf e ≠ Configuring) t →
               Forall (λ e, ¬ makesClient e) t) as Hother.
  { intros t Ht. eapply Forall_impl; [exact Ht|].
    intros [[]| | | | | | | | | | | | | | | | | | | |]; cbn; tauto. }
  assert (∀ P t, P ≠ Configuring → Forall (λ e, phaseOf e = P) t →
                 Forall (λ e, phaseOf e ≠ Configuring) t) as Hphase.
  { intros P t HP Ht. eapply Forall_impl; [exact Ht|].
    cbn. intros e ->. exact HP. }
  destruct Hbody;
    match goal with
    | H : configuring _ _ = _ |- _ =>
        destruct (configuring_shape _ _ _ _ _ H Hok)
          as (auth & res & rest & -> & Hrest)
    end;
    to_phases; exists auth, res;
    eexists; rewrite <- ?app_assoc;
    (split; [reflexivity|]);
    repeat first
      [ assumption
      | apply Forall_app; split
      | apply Hother;
        first [ eapply Hphase; [|eassumption]; discriminate
              | unfold recorded; repeat constructor; discriminate ] ].
Qed.

(** X16.  The checkpoint store of a run is the one the flags select:
    the store in memory is made with the value of [since], when no
    [since_file] is given; the store on GCS is made for a [since_file]
    that starts with [gs://], when no [since] is given; and for any
    other [since_file] neither of the two is made (the store is the
    one of the local file, whose constructor returns no error). *)
Theorem checkpoint_store_by_flags cfg w :
  (∀ value err,
     In (EvNewInMemoryTransactionTimeStore value err)
        (trace (mainWrapper cfg w)) →
     value = since cfg ∧ sinceFile cfg = "")
  ∧ (∀ path err,
       In (EvNewGCSTransactionTimeStore path err)
          (trace (mainWrapper cfg w)) →
       path = sinceFile cfg ∧ checkpointSources cfg = [RemoteObject])
  ∧ (checkpointSources cfg = [LocalFile] →
     ∀ e, In e (trace (mainWrapper cfg w)) →
          match e with
          | EvNewInMemoryTransactionTimeStore _ _
          | EvNewGCSTransactionTimeStore _ _ => False
          | _ => True
          end).
Proof.
  destruct (mainWrapper_configured cfg w) as (Hc & _ & _).
  rewrite List.Forall_forall in Hc. split_and!.
  - intros value err Hin. exact (Hc _ Hin).
  - intros path err Hin. destruct (Hc _ Hin) as (-> & Hs & Hp).
    split; [reflexivity|]. unfold checkpointSources.
    rewrite Hs, Hp. cbn.
    destruct (nonEmpty (sinceFile cfg)) eqn:Hne; [reflexivity|].
    apply nonEmpty_false in Hne. rewrite Hne in Hp. discriminate.
  - unfold checkpointSources. intros Hsrc e Hin. specialize (Hc _ Hin).
    destruct e; try exact I; cbn in Hc.
    + destruct Hc as [_ Hf]. rewrite Hf in Hsrc. cbn in Hsrc.
      destruct (nonEmpty (since cfg)); discriminate.
    + destruct Hc as (-> & Hs & Hp). rewrite Hs, Hp in Hsrc. cbn in Hsrc.
      destruct (nonEmpty (sinceFile cfg)); discriminate.
Qed.

(** ** What flows from call to call *)

Lemma In_body cfg w e :
  In e (trace (mainWrapper cfg w)) → phaseOf e ≠ Leaving →
  ∃ s tb tl,
    BodyRun cfg (initial w) (outcome (mainWrapper cfg w)) s tb
    ∧ Forall (λ e, phaseOf e = Leaving) tl
    ∧ trace (mainWrapper cfg w) = tb ++ tl
    ∧ In e tb.
Proof.
  intros Hin Hph.
  destruct (mainWrapper_run cfg w) as (s & tb & tl & Hbody & Hleft & Htr & _).
  exists s, tb, tl. split_and!; auto. rewrite Htr in Hin.
  apply in_app_or in Hin as [Hin|Hin]; [exact Hin|].
  destruct (Hph (In_phase _ _ _ Hleft Hin)).
Qed.

(** X17.  The job a run polls is the one of [pending_job_url] when that
    flag is set, and the run then starts no export; without the flag
    it is the job of the export the run started, from the time its
    checkpoint store loaded. *)
Theorem polled_job cfg w url results :
  In (EvMonitorJobStatus url results) (trace (mainWrapper cfg w)) →
  pendingJobURL cfg ≠ "" ∧ url = pendingJobURL cfg
  ∧ exports (trace (mainWrapper cfg w)) = []
  ∨ pendingJobURL cfg = ""
    ∧ ∃ since,
        In (EvStartBulkDataExport since (Ok url)) (trace (mainWrapper cfg w))
        ∧ In (EvLoad (Ok since)) (trace (mainWrapper cfg w)).
Proof.
  intros Hin.
  apply In_body in Hin as (s & tb & tl & Hbody & Hleft & Htr & Hin);
    [|discriminate].
  rewrite Htr.
  destruct (body_flows _ _ _ _ _ Hbody) as (Hexp & Hmon & _).
  destruct (Hmon _ _ Hin) as [(Hp & -> & Hx)|(Hp & since & Hs)].
  - left. split_and!; auto. unfold exports in *. rewrite omap_app, Hx.
    apply (omap_off_phase _ Leaving tl Hleft). off_phase.
  - right. split; [exact Hp|]. exists since.
    destruct (Hexp _ _ Hs) as [_ Hl].
    split; apply in_or_app; auto.
Qed.

Lemma body_stored cfg s0 o s t v res :
  BodyRun cfg s0 o s t → In (EvStore v res) t →
  sets t = [v]
  ∧ ∃ results mr,
      polls t = [results] ∧ last results = Some mr
      ∧ IsComplete (Status mr) = true ∧ v = TransactionTime (Status mr).
Proof.
  intros Hbody Hin.
  destruct Hbody; polled; finalized; to_phases; locate Hin;
    destruct Hin as [[= <- <-]|[]]; read_traces;
    (split; [reflexivity|]); do 2 eexists; split_and!; eauto.
Qed.

(** X18.  The time a run gives to [Store] is the transaction time of
    the last status of the job, which is complete, and it is the time
    the run has set in its transaction-time box. *)
Theorem stored_time_is_job_time cfg w v res :
  In (EvStore v res) (trace (mainWrapper cfg w)) →
  sets (trace (mainWrapper cfg w)) = [v]
  ∧ ∃ results mr,
      polls (trace (mainWrapper cfg w)) = [results]
      ∧ last results = Some mr
      ∧ IsComplete (Status mr) = true
      ∧ v = TransactionTime (Status mr).
Proof.
  intros Hin.
  apply In_body in Hin as (s & tb & tl & Hbody & Hleft & Htr & Hin);
    [|discriminate].
  rewrite Htr.
  destruct (body_stored _ _ _ _ _ _ _ Hbody Hin)
    as (Hs & results & mr & Hp & Hlast & Hc & ->).
  unfold sets, polls in *. rewrite !omap_app, Hs, Hp.
  rewrite !(omap_off_phase _ Leaving tl Hleft) by off_phase.
  split; [reflexivity|]. exists results, mr. auto.
Qed.

Lemma body_planned cfg s0 o s t results mr :
  BodyRun cfg s0 o s t →
  polls t = [results] → last results = Some mr →
  ∃ entries,
    entries ≡ₚ map_to_list (ResultURLs (Status mr))
    ∧ Forall (planned (visitPlan entries)) t.
Proof.
  intros Hbody Hpolls Hlast.
  destruct Hbody; polled;
    try match goal with
      | H : downloading _ _ _ _ _ = _ |- _ =>
          let entries := fresh "entries" in
          let Hperm := fresh "Hperm" in
          let Hpl := fresh "Hpl" in
          destruct (downloading_downloaded _ _ _ _ _ _ _ _ H)
            as (entries & Hperm & _ & _ & _ & _ & Hpl)
      end;
    finalized; to_phases;
    try (assert (mr0 = mr) as ->
           by (read_traces; rewrite Hp in Hpolls; injection Hpolls as ->;
               congruence));
    first [ exists entries; split; [exact Hperm|]
          | exists (map_to_list (ResultURLs (Status mr)));
            split; [reflexivity|] ];
    piecewise.
Qed.

(** X19.  Every download of a run, and every record given to the
    pipeline, is of a URL the last status of the job lists; a record
    is given under a resource type that lists its URL. *)
Theorem only_job_urls cfg w results mr :
  polls (trace (mainWrapper cfg w)) = [results] →
  last results = Some mr →
  (∀ url res,
     In (EvGetData url res) (trace (mainWrapper cfg w)) →
     ∃ rt urls, ResultURLs (Status mr) !! rt = Some urls ∧ In url urls)
  ∧ (∀ rt url token res,
       In (EvProcess rt url token res) (trace (mainWrapper cfg w)) →
       ∃ urls, ResultURLs (Status mr) !! rt = Some urls ∧ In url urls).
Proof.
  intros Hpolls Hlast.
  destruct (mainWrapper_run cfg w) as (s & tb & tl & Hbody & Hleft & Htr & _).
  rewrite Htr in *. clear Htr.
  assert (polls tb = [results]) as Hp.
  { unfold polls in *. rewrite omap_app in Hpolls.
    rewrite (omap_off_phase _ Leaving tl Hleft) in Hpolls by off_phase.
    rewrite app_nil_r in Hpolls. exact Hpolls. }
  destruct (body_planned _ _ _ _ _ _ _ Hbody Hp Hlast)
    as (entries & Hperm & Hpl).
  rewrite List.Forall_forall in Hpl.
  split.
  - intros url res [Hin|Hin]%in_app_or;
      [|discriminate (In_phase _ _ _ Hleft Hin)].
    destruct (Hpl _ Hin) as [rt Hrt]. exists rt.
    eapply visitPlan_lookup; eauto.
  - intros rt url token res [Hin|Hin]%in_app_or;
      [|discriminate (In_phase _ _ _ Hleft Hin)].
    eapply visitPlan_lookup; [exact Hperm|exact (Hpl _ Hin)].
Qed.

(** ** The flags, and [main] *)

Lemma strings_Split_cons s sep :
  ∃ part parts, strings_Split s sep = part :: parts.
Proof.
  destruct s as [|c rest]; cbn; [eauto|].
  destruct (Ascii.eqb c sep); [eauto|].
  destruct (strings_Split rest sep); eauto.
Qed.

Lemma strings_Split_join s sep :
  String.concat (String sep "") (strings_Split s sep) = s.
Proof.
  induction s as [|c rest IH]; [reflexivity|].
  cbn [strings_Split].
  destruct (strings_Split_cons rest sep) as (part & parts & Hsplit).
  rewrite Hsplit in *.
  destruct (Ascii.eqb c sep) eqn:Hc.
  - apply Ascii.eqb_eq in Hc as ->.
    rewrite <- IH. reflexivity.
  - rewrite <- IH. destruct parts; reflexivity.
Qed.

Lemma strings_Split_length s sep :
  length (strings_Split s sep)
  = S (count_occ ascii_dec (String.list_ascii_of_string s) sep).
Proof.
  induction s as [|c rest IH]; [reflexivity|].
  cbn [strings_Split String.list_ascii_of_string].
  destruct (strings_Split_cons rest sep) as (part & parts & Hsplit).
  rewrite Hsplit in *.
  destruct (Ascii.eqb c sep) eqn:Hc.
  - apply Ascii.eqb_eq in Hc as ->.
    rewrite count_occ_cons_eq by reflexivity. rewrite <- IH. reflexivity.
  - apply Ascii.eqb_neq in Hc.
    rewrite count_occ_cons_neq by exact Hc. rewrite <- IH.
    destruct parts; reflexivity.
Qed.

Lemma strings_Split_parts s sep :
  Forall (λ part, ¬ In sep (String.list_ascii_of_string part))
         (strings_Split s sep).
Proof.
  induction s as [|c rest IH]; [repeat constructor; intros []|].
  cbn [strings_Split].
  destruct (strings_Split_cons rest sep) as (part & parts & Hsplit).
  rewrite Hsplit in *.
  apply Forall_cons_1 in IH as [Hpart Hparts].
  destruct (Ascii.eqb c sep) eqn:Hc.
  - repeat constructor; auto.
  - apply Ascii.eqb_neq in Hc. constructor; [|exact Hparts].
    intros [->|Hin]; [destruct Hc; reflexivity|exact (Hpart Hin)].
Qed.

Context `{!Endpoints}.

(** X20.  The scopes of the configuration [buildMainWrapperConfig] makes
    are the parts of the flag [fhir_auth_scopes] between its commas:
    joined with commas they give the flag, none of them has a comma,
    and there is one more of them than commas in the flag.  So an
    unset flag gives one scope, the empty one, and not an empty list. *)
Theorem scopes_split_by_comma fl :
  String.concat "," (fhirAuthScopes (buildMainWrapperConfig fl))
  = flags.fhirAuthScopes fl
  ∧ Forall (λ scope, ¬ In ","%char (String.list_ascii_of_string scope))
           (fhirAuthScopes (buildMainWrapperConfig fl))
  ∧ length (fhirAuthScopes (buildMainWrapperConfig fl))
    = S (count_occ ascii_dec
           (String.list_ascii_of_string (flags.fhirAuthScopes fl))
           ","%char)
  ∧ (flags.fhirAuthScopes fl = "" →
     fhirAuthScopes (buildMainWrapperConfig fl) = [""]).
Proof.
  split_and!.
  - apply strings_Split_join.
  - apply strings_Split_parts.
  - apply strings_Split_length.
  - cbn. intros ->. reflexivity.
Qed.

(** The three ways a call of [mainWrapper] ends. *)
Lemma mainWrapper_outcome cfg w :
  outcome (mainWrapper cfg w) = Returned None
  ∧ (∃ v, stores (trace (mainWrapper cfg w)) = [(v, None)])
  ∧ polls (trace (mainWrapper cfg w)) ≠ [[]]
  ∨ outcome (mainWrapper cfg w) = Panicked
    ∧ polls (trace (mainWrapper cfg w)) = [[]]
    ∧ stores (trace (mainWrapper cfg w)) = []
  ∨ (∃ err, outcome (mainWrapper cfg w) = Returned (Some err))
    ∧ polls (trace (mainWrapper cfg w)) ≠ [[]]
    ∧ ∀ v, stores (trace (mainWrapper cfg w)) ≠ [(v, None)].
Proof.
  destruct (mainWrapper_run cfg w) as (s & tb & tl & Hbody & Hleft & Htr & _).
  rewrite Htr. clear Htr.
  unfold polls, stores. rewrite !omap_app.
  rewrite !(omap_off_phase _ Leaving tl Hleft) by off_phase.
  rewrite !app_nil_r.
  fold (polls tb) (stores tb).
  destruct (body_outcome _ _ _ _ _ Hbody)
    as [(-> & Hst & Hp)|[(-> & Hp & _ & _ & Hst)|([err ->] & Hp & Hst)]];
    eauto 10.
Qed.

(** X21.  The process exits with the status 0 exactly when the run
    called [Store] and it returned no error; with the status 2, of a
    panic, exactly when the monitor's channel was closed with no
    result; and with the status 1 otherwise, exactly when [log.Exit]
    logged an error, which is the error [mainWrapper] returned for the
    configuration made of the flags. *)
Theorem main_exit_status fl w :
  (exitStatus (main fl w) = 0
   ↔ ∃ v, stores (trace (run (main fl w))) = [(v, None)])
  ∧ (exitStatus (main fl w) = 2
     ↔ polls (trace (run (main fl w))) = [[]])
  ∧ (exitStatus (main fl w) = 1 ↔ ∃ err, logged (main fl w) = Some err)
  ∧ (∀ err, logged (main fl w) = Some err ↔
            outcome (mainWrapper (buildMainWrapperConfig fl) w)
            = Returned (Some err))
  ∧ run (main fl w) = mainWrapper (buildMainWrapperConfig fl) w
  ∧ (0 ≤ exitStatus (main fl w) ≤ 2).
Proof.
  unfold main.
  destruct (mainWrapper_outcome (buildMainWrapperConfig fl) w)
    as [(Ho & Hst & Hp)|[(Ho & Hp & Hst)|([err0 Ho] & Hp & Hst)]];
    rewrite Ho; cbn [run logged exitStatus];
    split_and!; try lia; try reflexivity.
  - tauto.
  - split; [discriminate|]. intros Hx. destruct (Hp Hx).
  - split; [discriminate|]. intros [err [=]].
  - intros err. split; discriminate.
  - split; [discriminate|]. rewrite Hst. intros [v [=]].
  - tauto.
  - split; [discriminate|]. intros [err [=]].
  - intros err. split; discriminate.
  - split; [discriminate|]. intros [v Hv]. destruct (Hst v Hv).
  - split; [discriminate|]. intros Hx. destruct (Hp Hx).
  - split; eauto.
  - intros err. split; congruence.
Qed.

(** ** The order of the calls *)

Lemma orderedFrom_nil n : orderedFrom n [].
Proof. split; constructor. Qed.

Lemma orderedFrom_piece P n a b :
  Forall (λ e, phaseOf e = P) a →
  (n ≤ phaseRank P)%nat →
  orderedFrom (phaseRank P) b →
  orderedFrom n (a ++ b).
Proof.
  intros Ha Hn [Hb Hsorted]. split.
  - apply Forall_app. split.
    + eapply Forall_impl; [exact Ha|]. cbn. intros e ->. exact Hn.
    + eapply Forall_impl; [exact Hb|]. cbn. intros e He. lia.
  - induction Ha as [|x a Hx Ha IH]; [exact Hsorted|].
    cbn [app]. constructor; [exact IH|].
    apply Forall_app. split.
    + eapply Forall_impl; [exact Ha|]. cbn. intros e He.
      unfold notAfter. rewrite Hx, He. lia.
    + eapply Forall_impl; [exact Hb|]. cbn. intros e He.
      unfold notAfter. rewrite Hx. exact He.
Qed.

(** The pieces of a run, one phase after the other. *)
Ltac in_order :=
  repeat first
    [ apply orderedFrom_nil
    | eapply orderedFrom_piece;
      [ first [ eassumption
              | unfold recorded; repeat constructor ]
      | cbn; lia
      | ] ].

Lemma body_ordered cfg s0 o s t tl :
  BodyRun cfg s0 o s t →
  Forall (λ e, phaseOf e = Leaving) tl →
  orderedFrom 0 (t ++ tl).
Proof.
  intros Hbody Hleft.
  rewrite <- (app_nil_r tl).
  destruct Hbody; to_phases; rewrite <- ?app_assoc; in_order.
Qed.

(** X22.  The calls of a run come in the order of the phases of
    [mainWrapper]: no event is followed by one of an earlier phase.  So
    the client and the checkpoint store are made, and the store is
    loaded, before an export is started; the job is polled before a
    sink is made; the pipeline is made before the first download;
    [Finalize] comes after every download and record, [Store] after
    [Finalize], and the deferred [Close] calls come last. *)
Theorem calls_in_phase_order cfg w :
  StronglySorted notAfter (trace (mainWrapper cfg w)).
Proof.
  destruct (mainWrapper_run cfg w) as (s & tb & tl & Hbody & Hleft & Htr & _).
  rewrite Htr. exact (proj2 (body_ordered _ _ _ _ _ _ Hbody Hleft)).
Qed.

End Properties.

(** * The properties at the example environments *)

(** C8 at a server that answers unauthorized three times, then serves
    the file, and gives a new token each time. *)
Lemma three_unauthorized_then_success_witness :
  ∃ w t,
    FetchExamples.fetch FetchExamples.recovering
    = (Ok FetchExamples.reader,
       setWorld (initial FetchExamples.recovering) w, t)
    ∧ t = EvGetData FetchExamples.url (Err ErrorUnauthorized)
          :: retryEvents FetchExamples.url (Err ErrorUnauthorized)
             ++ retryEvents FetchExamples.url (Err ErrorUnauthorized)
             ++ retryEvents FetchExamples.url (Ok FetchExamples.reader)
    ∧ downloads t = [Err ErrorUnauthorized; Err ErrorUnauthorized;
                     Err ErrorUnauthorized; Ok FetchExamples.reader]
    ∧ authentications t = [None; None; None].
Proof.
  eexists.
  eapply (@three_unauthorized_then_success Fake.World Fake.bulkFHIR tt
            FetchExamples.url "id" "secret"
            (initial FetchExamples.recovering)
            ErrorUnauthorized ErrorUnauthorized ErrorUnauthorized
            FetchExamples.reader);
    reflexivity.
Defined.

(** C10 at a server that answers unauthorized to the download and to the
    request for a new token. *)
Lemma reauthentication_failure_ends_fetch_witness :
  ∃ res s' t,
    FetchExamples.fetch FetchExamples.lockedOut = (res, s', t)
    ∧ In (EvAuthenticate (Some (errorString "401 Unauthorized"))) t
    ∧ (res = Err (wrapError "Error authenticating with API: "
                    (errorString "401 Unauthorized"))
       ∧ ∃ before,
           t = before ++ [EvAuthenticate (Some (errorString "401 Unauthorized"))]
           ∧ (length (downloads before) ≤ 5)%nat).
Proof.
  eexists _, _, _. split; [vm_compute; reflexivity|].
  split; [cbn; tauto|].
  eapply (@reauthentication_failure_ends_fetch Fake.World Fake.bulkFHIR tt
           FetchExamples.url "id" "secret"
           (initial FetchExamples.lockedOut));
    [vm_compute; reflexivity | cbn; tauto].
Defined.

(** C2 as stated fails: the one download attempt of this call is
    classified unauthorized, and the call makes no retry, because the
    re-authentication fails; its error wraps that failure and does not
    name the URL. *)
Lemma retries_cut_short_by_authentication :
  ∃ s' t,
    FetchExamples.fetch FetchExamples.lockedOut
    = (Err (wrapError "Error authenticating with API: "
              (errorString "401 Unauthorized")), s', t)
    ∧ Forall (λ r, retryable r = true) (downloads t)
    ∧ retries t = 0%nat.
Proof.
  eexists _, _. split; [vm_compute; reflexivity|]. split; [|reflexivity].
  repeat constructor.
Qed.

(** C2, as amended, at a server that answers unauthorized to every
    download and gives a new token each time. *)
Lemma retries_exhausted_witness :
  ∃ res s' t,
    FetchExamples.fetch FetchExamples.refusing = (res, s', t)
    ∧ Forall (λ r, retryable r = true) (downloads t)
    ∧ Forall (λ a, a = None) (authentications t)
    ∧ (retries t = 5%nat
       ∧ ∃ a0 rs e,
           length rs = 5%nat
           ∧ t = EvGetData FetchExamples.url a0
                 :: flat_map (retryEvents FetchExamples.url) rs
           ∧ List.last rs a0 = Err e
           ∧ res = Err (wrapError ("Unable to GetData("
                                   +:+ FetchExamples.url +:+ ") ") e)).
Proof.
  eexists _, _, _. split; [vm_compute; reflexivity|].
  split; [repeat constructor|]. split; [repeat constructor|].
  eapply (@retries_exhausted Fake.World Fake.bulkFHIR tt
           FetchExamples.url "id" "secret"
           (initial FetchExamples.refusing));
    [vm_compute; reflexivity | repeat constructor ..].
Defined.

(** The long stream has a record over [maxTokenSize], and its scan ends
    with [bufio.ErrTooLong] after the first record. *)
Lemma longStream_oversize : oversize DownloadExamples.longStream = true.
Proof. vm_compute. reflexivity. Qed.

Lemma longStream_scan :
  scanLines DownloadExamples.longStream = ([[x78]], Some ErrTooLong).
Proof. vm_compute. reflexivity. Qed.

(** The run over [serving r] for a stream [r] that scans as the long
    stream does, when [Process] refuses the first record and when it
    accepts it. *)
Lemma rejecting_run r :
  scanLines r = ([[x78]], Some ErrTooLong) →
  outcome (mainWrapper Fake.config (DownloadExamples.serving r [Some (errorString "processor failed")]))
  = Returned (Some (errorString "processor failed"))
  ∧ trace (mainWrapper Fake.config (DownloadExamples.serving r [Some (errorString "processor failed")]))
    = DownloadExamples.setup
      ++ EvGetData DownloadExamples.patientURL (Ok r)
      :: [EvProcess "Patient" DownloadExamples.patientURL [x78]
            (Some (errorString "processor failed"));
          EvReaderClose r;
          EvClientClose None].
Proof.
  intros H. vm_compute in H. vm_compute. rewrite H.
  split; reflexivity.
Qed.

Lemma accepting_run r :
  scanLines r = ([[x78]], Some ErrTooLong) →
  outcome (mainWrapper Fake.config (DownloadExamples.serving r []))
  = Returned (Some ErrTooLong)
  ∧ trace (mainWrapper Fake.config (DownloadExamples.serving r []))
    = DownloadExamples.setup
      ++ EvGetData DownloadExamples.patientURL (Ok r)
      :: [EvProcess "Patient" DownloadExamples.patientURL [x78] None;
          EvReaderClose r;
          EvClientClose None].
Proof.
  intros H. vm_compute in H. vm_compute. rewrite H.
  split; reflexivity.
Qed.

(** C5 at a configuration without a client ID. *)
Lemma credentials_required_witness :
  (clientID DownloadExamples.anonymous = ""
   ∨ clientSecret DownloadExamples.anonymous = "")
  ∧ mainWrapper DownloadExamples.anonymous Fake.quiet
    = {| outcome := Returned (Some errCredentials);
         final := initial Fake.quiet;
         trace := [] |}.
Proof.
  split; [left; reflexivity|].
  apply (@credentials_required Fake.World Fake.bulkFHIR Fake.processing
           Fake.goRuntime DownloadExamples.anonymous Fake.quiet).
  left. reflexivity.
Defined.

(** C9 at a configuration with both flags, in the example environments. *)
Lemma one_checkpoint_source_witness :
  (1 < length (checkpointSources DownloadExamples.twoSources))%nat
  ∧ ((∀ s : St (World := Fake.World),
        exec (getTransactionTimeStore DownloadExamples.twoSources) s
        = (Err errOnlyOneSince, s, []))
     ∧ ∀ w : Fake.World,
         (∃ e, outcome (mainWrapper DownloadExamples.twoSources w)
               = Returned (Some e)
               ∧ (clients (trace (mainWrapper DownloadExamples.twoSources w))
                  = [None] → e = errOnlyOneSince))
         ∧ exports (trace (mainWrapper DownloadExamples.twoSources w)) = []
         ∧ polls (trace (mainWrapper DownloadExamples.twoSources w)) = []
         ∧ downloads (trace (mainWrapper DownloadExamples.twoSources w)) = []
         ∧ stores (trace (mainWrapper DownloadExamples.twoSources w)) = []).
Proof.
  split; [vm_compute; lia|].
  apply (@one_checkpoint_source Fake.World Fake.bulkFHIR Fake.processing
           Fake.goRuntime DownloadExamples.twoSources).
  vm_compute. lia.
Defined.

(** C3 at a job that is at 50 percent when the monitor gives up. *)
Lemma incomplete_job_times_out_witness :
  polls (trace (mainWrapper Fake.config DownloadExamples.stalled))
  = [[DownloadExamples.pending]]
  ∧ last [DownloadExamples.pending] = Some DownloadExamples.pending
  ∧ IsComplete (Status DownloadExamples.pending) = false
  ∧ (outcome (mainWrapper Fake.config DownloadExamples.stalled)
     = Returned (Some errJobTimeout)
     ∧ downloads (trace (mainWrapper Fake.config DownloadExamples.stalled))
       = []
     ∧ sets (trace (mainWrapper Fake.config DownloadExamples.stalled)) = []
     ∧ finalizations
         (trace (mainWrapper Fake.config DownloadExamples.stalled)) = []
     ∧ stores (trace (mainWrapper Fake.config DownloadExamples.stalled))
       = []).
Proof.
  split; [vm_compute; reflexivity|].
  split; [reflexivity|]. split; [reflexivity|].
  apply (@incomplete_job_times_out Fake.World Fake.bulkFHIR Fake.processing
           Fake.goRuntime Fake.config DownloadExamples.stalled
           [DownloadExamples.pending] DownloadExamples.pending);
    [vm_compute; reflexivity | reflexivity | reflexivity].
Defined.

(** C4, as amended, at a job with the files of two resource types. *)
Lemma visits_follow_the_range_witness :
  polls (trace (mainWrapper Fake.config
                  (DownloadExamples.world DownloadExamples.twoTypes [] []
                     true)))
  = [DownloadExamples.completed DownloadExamples.twoTypes]
  ∧ ∃ mr,
      last (DownloadExamples.completed DownloadExamples.twoTypes) = Some mr
      ∧ IsComplete (Status mr) = true
      ∧ ∃ entries,
          entries ≡ₚ map_to_list (ResultURLs (Status mr))
          ∧ fetchedURLs
              (trace (mainWrapper Fake.config
                        (DownloadExamples.world DownloadExamples.twoTypes
                           [] [] true)))
              `prefix_of` map snd (visitPlan entries)
          ∧ (finalizations
               (trace (mainWrapper Fake.config
                         (DownloadExamples.world DownloadExamples.twoTypes
                            [] [] true))) ≠ [] →
             fetchedURLs
               (trace (mainWrapper Fake.config
                         (DownloadExamples.world DownloadExamples.twoTypes
                            [] [] true)))
             = map snd (visitPlan entries)).
Proof.
  split; [vm_compute; reflexivity|].
  eexists. split; [reflexivity|]. split; [reflexivity|].
  eapply (@visits_follow_the_range Fake.World Fake.bulkFHIR Fake.processing
            Fake.goRuntime Fake.config
            (DownloadExamples.world DownloadExamples.twoTypes [] [] true));
    [vm_compute; reflexivity | reflexivity | reflexivity].
Defined.

(** C4 as stated fails: two runs over the same completed job, with the
    same configuration and the same answers of the server, whose ranges
    over its map of result URLs go in different orders, download its two
    files in different orders. *)
Lemma range_order_changes_visits :
  polls (trace (mainWrapper Fake.config
                  (DownloadExamples.world DownloadExamples.twoTypes [] []
                     false)))
  = polls (trace (mainWrapper Fake.config
                    (DownloadExamples.world DownloadExamples.twoTypes [] []
                       true)))
  ∧ fetchedURLs
      (trace (mainWrapper Fake.config
                (DownloadExamples.world DownloadExamples.twoTypes [] []
                   false)))
    = [DownloadExamples.coverageURL; DownloadExamples.patientURL]
  ∧ fetchedURLs
      (trace (mainWrapper Fake.config
                (DownloadExamples.world DownloadExamples.twoTypes [] []
                   true)))
    = [DownloadExamples.patientURL; DownloadExamples.coverageURL].
Proof. split_and!; vm_compute; reflexivity. Qed.

(** C7, as amended, at a download whose second record is of 512001
    bytes, every record before it being processed. *)
Lemma oversize_record_ends_run_witness :
  trace (mainWrapper Fake.config
           (DownloadExamples.serving DownloadExamples.longStream []))
  = DownloadExamples.setup
    ++ EvGetData DownloadExamples.patientURL (Ok DownloadExamples.longStream)
    :: [EvProcess "Patient" DownloadExamples.patientURL [x78] None;
        EvReaderClose DownloadExamples.longStream;
        EvClientClose None]
  ∧ oversize DownloadExamples.longStream = true
  ∧ ((∃ err,
        outcome (mainWrapper Fake.config
                   (DownloadExamples.serving DownloadExamples.longStream []))
        = Returned (Some err)
        ∧ err = ErrTooLong)
     ∧ downloads
         [EvProcess "Patient" DownloadExamples.patientURL [x78] None;
          EvReaderClose DownloadExamples.longStream;
          EvClientClose None] = []
     ∧ finalizations
         (trace (mainWrapper Fake.config
                   (DownloadExamples.serving DownloadExamples.longStream
                      []))) = []
     ∧ stores
         (trace (mainWrapper Fake.config
                   (DownloadExamples.serving DownloadExamples.longStream
                      []))) = []).
Proof.
  split; [apply (accepting_run _ longStream_scan)|].
  split; [exact longStream_oversize|].
  apply (@oversize_record_ends_run Fake.World Fake.bulkFHIR Fake.processing
           Fake.goRuntime Fake.config
           (DownloadExamples.serving DownloadExamples.longStream [])
           DownloadExamples.setup DownloadExamples.patientURL
           DownloadExamples.longStream
           [EvProcess "Patient" DownloadExamples.patientURL [x78] None;
            EvReaderClose DownloadExamples.longStream;
            EvClientClose None]);
    [apply (accepting_run _ longStream_scan) | exact longStream_oversize].
Defined.

(** C7 as stated fails: this run downloads a stream whose second record
    is of 512001 bytes, and the error it returns is the one of the
    pipeline, which refused the first record; it is not the scanner's. *)
Lemma oversize_record_behind_pipeline_error :
  oversize DownloadExamples.longStream = true
  ∧ In (EvGetData DownloadExamples.patientURL
          (Ok DownloadExamples.longStream))
       (trace (mainWrapper Fake.config
                 (DownloadExamples.serving DownloadExamples.longStream
                    [Some (errorString "processor failed")])))
  ∧ outcome (mainWrapper Fake.config
               (DownloadExamples.serving DownloadExamples.longStream
                  [Some (errorString "processor failed")]))
    = Returned (Some (errorString "processor failed"))
  ∧ errors.Is (Some (errorString "processor failed")) ErrTooLong = false.
Proof.
  destruct (rejecting_run _ longStream_scan) as [Hout Htr].
  split; [exact longStream_oversize|].
  split; [rewrite Htr; apply in_or_app; right; left; reflexivity|].
  split; [exact Hout|reflexivity].
Qed.

(** X1 at a server that answers unauthorized to every download. *)
Lemma fetch_attempts_bounded_witness :
  ∃ res s' t,
    FetchExamples.fetch FetchExamples.refusing = (res, s', t)
    ∧ ((1 ≤ length (downloads t) ≤ 6)%nat
       ∧ (length (authentications t) ≤ 5)%nat
       ∧ sleeps t = map (λ _, 2 * Second) (authentications t)).
Proof.
  eexists _, _, _. split; [vm_compute; reflexivity|].
  eapply (@fetch_attempts_bounded Fake.World Fake.bulkFHIR tt
            FetchExamples.url "id" "secret"
            (initial FetchExamples.refusing)).
  vm_compute. reflexivity.
Defined.

(** X2 at a server that answers unauthorized three times, then serves
    the file. *)
Lemma fetch_returns_last_download_witness :
  ∃ res s' t,
    FetchExamples.fetch FetchExamples.recovering = (res, s', t)
    ∧ (Forall (λ r, retryable r = true) (removelast (downloads t))
       ∧ ∀ r, res = Ok r ↔ last (downloads t) = Some (Ok r)).
Proof.
  eexists _, _, _. split; [vm_compute; reflexivity|].
  eapply (@fetch_returns_last_download Fake.World Fake.bulkFHIR tt
            FetchExamples.url "id" "secret"
            (initial FetchExamples.recovering)).
  vm_compute. reflexivity.
Defined.

(** X3 at a server that answers unauthorized to every download. *)
Lemma fetch_error_keeps_cause_witness :
  ∃ err s' t,
    FetchExamples.fetch FetchExamples.refusing = (Err err, s', t)
    ∧ ∃ cause,
        (last (downloads t) = Some (Err cause)
         ∧ authentications t = map (λ _, None) (tail (downloads t))
         ∧ err = errUnableToGetData FetchExamples.url cause
         ∨ last (authentications t) = Some (Some cause)
           ∧ err = errAuthenticating cause)
        ∧ ∀ target, errors.Is (Some cause) target = true →
                    errors.Is (Some err) target = true.
Proof.
  eexists _, _, _. split; [vm_compute; reflexivity|].
  eapply (@fetch_error_keeps_cause Fake.World Fake.bulkFHIR tt
            FetchExamples.url "id" "secret"
            (initial FetchExamples.refusing)).
  vm_compute. reflexivity.
Defined.

(** An event of a run given by its events. *)
Ltac listed :=
  vm_compute; repeat (first [left; reflexivity | right]).

(** X4 at a download of two lines that end with a carriage return and
    a newline, the second empty, and a last line with no end. *)
Lemma scanLines_ndjson_witness :
  scanLines
    {| body := ndjson [bufio.carriageReturn; bufio.newline] [[x7b; x7d]; []]
               ++ [x78];
       readErr := None |}
  = ([[x7b; x7d]; []] ++ (if decide ([x78] = []) then [] else [[x78]]), None).
Proof.
  apply (scanLines_ndjson [bufio.carriageReturn; bufio.newline]
           [[x7b; x7d]; []] [x78] None).
  - right. reflexivity.
  - repeat constructor; cbn; try lia; intuition discriminate.
  - repeat constructor; cbn; try lia; intuition discriminate.
Defined.

(** X5 at a run whose first [Process] fails. *)
Lemma failed_call_ends_run_witness :
  trace (mainWrapper Fake.config RunExamples.refused)
  = (DownloadExamples.setup
     ++ [EvGetData DownloadExamples.patientURL (Ok RunExamples.twoRecords)])
    ++ EvProcess "Patient" DownloadExamples.patientURL [x7b; x7d]
         (Some (errorString "processor failed"))
       :: [EvReaderClose RunExamples.twoRecords; EvClientClose None]
  ∧ errorOf (EvProcess "Patient" DownloadExamples.patientURL [x7b; x7d]
               (Some (errorString "processor failed")))
    = Some (errorString "processor failed")
  ∧ (outcome (mainWrapper Fake.config RunExamples.refused)
     = Returned (Some (errorString "processor failed"))
     ∧ Forall (λ e', errorOf e' = None)
         (DownloadExamples.setup
          ++ [EvGetData DownloadExamples.patientURL
                (Ok RunExamples.twoRecords)])
     ∧ Forall (λ e', phaseOf e' = Leaving)
         [EvReaderClose RunExamples.twoRecords; EvClientClose None]).
Proof.
  split; [vm_compute; reflexivity|]. split; [reflexivity|].
  apply (@failed_call_ends_run Fake.World Fake.bulkFHIR Fake.processing
           Fake.goRuntime Fake.config RunExamples.refused
           (DownloadExamples.setup
            ++ [EvGetData DownloadExamples.patientURL
                  (Ok RunExamples.twoRecords)])
           (EvProcess "Patient" DownloadExamples.patientURL [x7b; x7d]
              (Some (errorString "processor failed")))
           (errorString "processor failed")
           [EvReaderClose RunExamples.twoRecords; EvClientClose None]).
  - vm_compute. reflexivity.
  - reflexivity.
Defined.

(** X11 at a run in which every call succeeds. *)
Lemma calls_need_checked_flags_witness :
  trace (mainWrapper Fake.config Fake.quiet) ≠ []
  ∧ checkedFlags Fake.config.
Proof.
  split; [vm_compute; discriminate|].
  apply (@calls_need_checked_flags Fake.World Fake.bulkFHIR Fake.processing
           Fake.goRuntime Fake.config Fake.quiet).
  vm_compute. discriminate.
Defined.

(** X12 at the flags of an upload to a FHIR store through GCS. *)
Lemma fhir_store_sink_after_checks_witness :
  ∃ c,
    In (EvNewFHIRStoreSink c None)
       (trace (mainWrapper (buildMainWrapperConfig RunExamples.uploading)
                 Fake.quiet))
    ∧ (enableFHIRStore (buildMainWrapperConfig RunExamples.uploading) = true
       ∧ rectify (buildMainWrapperConfig RunExamples.uploading) = true
       ∧ c = fhirStoreSinkConfig (buildMainWrapperConfig RunExamples.uploading)
               transactionTimePtr
       ∧ FHIRStoreSinkConfig.FHIRProjectID c ≠ ""
       ∧ FHIRStoreSinkConfig.FHIRLocation c ≠ ""
       ∧ FHIRStoreSinkConfig.FHIRDatasetID c ≠ ""
       ∧ FHIRStoreSinkConfig.FHIRStoreID c ≠ ""
       ∧ (FHIRStoreSinkConfig.UseGCSUpload c = true →
          FHIRStoreSinkConfig.GCSBucket c ≠ "")).
Proof.
  eexists. split; [listed|].
  apply (@fhir_store_sink_after_checks Fake.World Fake.bulkFHIR
           Fake.processing Fake.goRuntime
           (buildMainWrapperConfig RunExamples.uploading) Fake.quiet _ None).
  listed.
Defined.

(** X13 at a run that writes its files under [out/]. *)
Lemma ndjson_sink_location_witness :
  In (EvNewNDJSONSink "out/" "fetch_" None)
     (trace (mainWrapper Fake.config Fake.quiet))
  ∧ (outputPrefix Fake.config ≠ ""
     ∧ "out/" +:+ "fetch_" = outputPrefix Fake.config
     ∧ ¬ In "/"%char (String.list_ascii_of_string "fetch_")
     ∧ ("out/" = "" ∨ ∃ d, "out/" = d +:+ "/")).
Proof.
  split; [listed|].
  apply (@ndjson_sink_location Fake.World Fake.bulkFHIR Fake.processing
           Fake.goRuntime Fake.config Fake.quiet "out/" "fetch_" None).
  listed.
Defined.

(** X14 at a run that writes files and uploads nothing. *)
Lemma pipeline_shape_witness :
  In (EvNewPipeline 0 1 None) (trace (mainWrapper Fake.config Fake.quiet))
  ∧ (0%nat = (if rectify Fake.config then 1 else 0)%nat
     ∧ 1%nat = ((if nonEmpty (outputPrefix Fake.config) then 1 else 0)
                + (if enableFHIRStore Fake.config then 1 else 0))%nat).
Proof.
  split; [listed|].
  apply (@pipeline_shape Fake.World Fake.bulkFHIR Fake.processing
           Fake.goRuntime Fake.config Fake.quiet 0%nat 1%nat None).
  listed.
Defined.

(** The run for a server other than BCDA makes the authenticator, then
    the generalized client, and splits the scopes of the flag. *)
Lemma generalized_run :
  firstn 2 (trace (mainWrapper (buildMainWrapperConfig RunExamples.generalized)
                     Fake.quiet))
  = [EvNewHTTPBasicOAuthAuthenticator "https://fhir.example.org/auth/token"
       None;
     EvBulkfhirNewClient "https://fhir.example.org/api/v2" None]
  ∧ fhirAuthScopes (buildMainWrapperConfig RunExamples.generalized)
    = ["system/Patient.read"; "system/Coverage.read"].
Proof. vm_compute. split; reflexivity. Qed.

(** X15 at the flags for a server other than BCDA. *)
Lemma client_by_flag_witness :
  checkedFlags (buildMainWrapperConfig RunExamples.generalized)
  ∧ ∃ auth res rest,
      trace (mainWrapper (buildMainWrapperConfig RunExamples.generalized)
               Fake.quiet)
      = warned (buildMainWrapperConfig RunExamples.generalized)
        ++ clientMade (buildMainWrapperConfig RunExamples.generalized)
             auth res
        ++ rest
      ∧ Forall (λ e, ¬ makesClient e) rest.
Proof.
  assert (checkedFlags (buildMainWrapperConfig RunExamples.generalized))
    as Hok.
  { unfold checkedFlags. cbn. split_and!; discriminate. }
  split; [exact Hok|].
  exact (@client_by_flag Fake.World Fake.bulkFHIR Fake.processing
           Fake.goRuntime (buildMainWrapperConfig RunExamples.generalized)
           Fake.quiet Hok).
Defined.

(** X17 at a run that starts its own export. *)
Lemma polled_job_witness :
  In (EvMonitorJobStatus "https://example.org/jobs/1" (Fake.monitor Fake.quiet))
     (trace (mainWrapper Fake.config Fake.quiet))
  ∧ (pendingJobURL Fake.config ≠ ""
     ∧ "https://example.org/jobs/1" = pendingJobURL Fake.config
     ∧ exports (trace (mainWrapper Fake.config Fake.quiet)) = []
     ∨ pendingJobURL Fake.config = ""
       ∧ ∃ since,
           In (EvStartBulkDataExport since (Ok "https://example.org/jobs/1"))
              (trace (mainWrapper Fake.config Fake.quiet))
           ∧ In (EvLoad (Ok since))
                (trace (mainWrapper Fake.config Fake.quiet))).
Proof.
  split; [listed|].
  apply (@polled_job Fake.World Fake.bulkFHIR Fake.processing
           Fake.goRuntime Fake.config Fake.quiet
           "https://example.org/jobs/1" (Fake.monitor Fake.quiet)).
  listed.
Defined.

(** X18 at a run over a job with two records to download. *)
Lemma stored_time_is_job_time_witness :
  In (EvStore 1620000000 None)
     (trace (mainWrapper Fake.config RunExamples.served))
  ∧ (sets (trace (mainWrapper Fake.config RunExamples.served))
     = [1620000000]
     ∧ ∃ results mr,
         polls (trace (mainWrapper Fake.config RunExamples.served))
         = [results]
         ∧ last results = Some mr
         ∧ IsComplete (Status mr) = true
         ∧ 1620000000 = TransactionTime (Status mr)).
Proof.
  split; [listed|].
  apply (@stored_time_is_job_time Fake.World Fake.bulkFHIR Fake.processing
           Fake.goRuntime Fake.config RunExamples.served 1620000000 None).
  listed.
Defined.

(** X19 at a run over a job with one URL. *)
Lemma only_job_urls_witness :
  ∃ mr,
    polls (trace (mainWrapper Fake.config RunExamples.served))
    = [DownloadExamples.completed DownloadExamples.patientOnly]
    ∧ last (DownloadExamples.completed DownloadExamples.patientOnly) = Some mr
    ∧ ((∀ url res,
          In (EvGetData url res)
             (trace (mainWrapper Fake.config RunExamples.served)) →
          ∃ rt urls, ResultURLs (Status mr) !! rt = Some urls ∧ In url urls)
       ∧ (∀ rt url token res,
            In (EvProcess rt url token res)
               (trace (mainWrapper Fake.config RunExamples.served)) →
            ∃ urls, ResultURLs (Status mr) !! rt = Some urls ∧ In url urls)).
Proof.
  eexists. split; [vm_compute; reflexivity|]. split; [reflexivity|].
  apply (@only_job_urls Fake.World Fake.bulkFHIR Fake.processing
           Fake.goRuntime Fake.config RunExamples.served
           (DownloadExamples.completed DownloadExamples.patientOnly)).
  - vm_compute. reflexivity.
  - reflexivity.
Defined.

(** The program run with no flag: the check of the credentials ends it
    with the status 1, and it has made no call. *)
Lemma main_without_flags :
  exitStatus (main flags.defaults Fake.quiet) = 1
  ∧ logged (main flags.defaults Fake.quiet) = Some errCredentials
  ∧ trace (run (main flags.defaults Fake.quiet)) = [].
Proof. vm_compute. auto. Qed.
